(** * Hundred_Steppers: a shallow embedding of Hundred_Steppers.cpp

    The driver keeps one position counter per stepper ([step_table]), moves
    the counters one unit at a time and, after every unit, shifts one frame of
    phase bytes out to a chain of 74HC595 registers ([step]).  The embedding
    follows the C++ member functions one by one; loops that the C++ writes
    with [while] or with a [uint16_t] induction variable take a [fuel]
    argument and return [None] when it runs out. *)

From Stdlib Require Import ZArith Lia Bool.
From stdpp Require Import base option functions list.

Local Open Scope Z_scope.

(** ** Machine integers *)

(** [uint16_t]: the type of motor counts, indices and the loop counters. *)
Definition uint16_t (z : Z) : Z := z mod 65536.

(** [unsigned long] on the target: the type of [micros()] and of the
    difference [micros() - last_step_time]. *)
Definition ulong (z : Z) : Z := z mod 4294967296.

(** ** The driver object *)

(** Modelled from the spec: [stepType], the type of a position counter, is
    declared in Hundred_Steppers.h, which is not part of the sources.  The
    spec makes a counter a signed integer and gives it no width (and [home]
    tests [step_table[i] < 0]), so a counter is an integer here: [++] and
    [--] on it do not wrap, and [%] on it is C's remainder. *)
Abbreviation stepType := Z (only parsing).

(** The data members that the motion and transmission code reads or writes.
    [last_step_time] and [step_delay] are taken to have the type of
    [micros()], [unsigned long].  The pin numbers and port registers only
    feed [digitalWrite] and [fastShiftOut] and are left out.  [ticks] is not
    a C++ member: it counts the readings of [micros()] taken so far, so that
    the next reading is [clock (ticks hs)]. *)
Record Hundred_Steppers : Type := mkHS {
  nSteppers : Z;
  nSteps : Z;
  step_table : list stepType;
  step_delay : Z;
  last_step_time : Z;
  ticks : nat
}.

Definition set_step_table (hs : Hundred_Steppers) (t : list stepType) : Hundred_Steppers :=
  mkHS (nSteppers hs) (nSteps hs) t (step_delay hs) (last_step_time hs) (ticks hs).

Definition set_last_step_time (hs : Hundred_Steppers) (t : Z) : Hundred_Steppers :=
  mkHS (nSteppers hs) (nSteps hs) (step_table hs) (step_delay hs) t (ticks hs).

Definition set_step_delay (hs : Hundred_Steppers) (d : Z) : Hundred_Steppers :=
  mkHS (nSteppers hs) (nSteps hs) (step_table hs) d (last_step_time hs) (ticks hs).

Definition set_ticks (hs : Hundred_Steppers) (k : nat) : Hundred_Steppers :=
  mkHS (nSteppers hs) (nSteps hs) (step_table hs) (step_delay hs) (last_step_time hs) k.

(** The storage holds one counter per stepper, as [calloc(nSteppers, ...)]
    leaves it.  The motion code only writes [step_table[i]] for [i] below
    [nSteppers]; on a list, a write at an index past its end changes
    nothing. *)
Definition storage_ok (hs : Hundred_Steppers) : Prop :=
  Z.of_nat (length (step_table hs)) = nSteppers hs.

(** One call of [fastShiftOut] inside [step]: the index used on
    [step_table], the index then used on [cmd_list], and the byte shifted
    out.  An index outside its array reads no defined value: the field that
    depends on it is [None]. *)
Record slot : Type := mkSlot {
  motor : Z;
  phase : option Z;
  cmd : option Z
}.

(** One call of [step]: [stamp] is the number of the clock reading stored in
    [last_step_time], [slots] the calls of [fastShiftOut] in program order. *)
Record frame : Type := mkFrame {
  stamp : nat;
  slots : list slot
}.

(** A loop [for (uint16_t i = i0; cond(i); i++) body(i)]. *)
Fixpoint for_uint16 {St : Type} (fuel : nat) (cond : Z → bool)
    (body : Z → St → St) (i : Z) (s : St) : option St :=
  match fuel with
  | O => None
  | S fuel' =>
      if cond i then for_uint16 fuel' cond body (uint16_t (i + 1)) (body i s)
      else Some s
  end.

(** A computation that takes fuel returns [r] when every large enough amount
    of fuel yields [r]. *)
Definition returns {A : Type} (c : nat → option A) (r : A) : Prop :=
  ∃ fuel0 : nat, ∀ fuel : nat, (fuel0 ≤ fuel)%nat → c fuel = Some r.

(** Modelled from the spec: the macro [arrayLen] of Hundred_Steppers.h is not
    part of the sources; the spec takes it as the number of deltas of the
    sequence handed to the multi-motor move. *)
Definition arrayLen (step_list : list Z) : Z := Z.of_nat (length step_list).

(** ** A bench set-up

    The values below stand in for what the header and the board fix: an
    eight-entry half-step table and a clock that is read once every
    millisecond.  They only serve to run the driver on concrete inputs. *)

Definition bench_mode : Z := 8.

Definition bench_cmd_list : list Z := [1; 3; 2; 6; 4; 12; 8; 9].

Definition bench_clock (k : nat) : Z := 1000 * Z.of_nat k.

(** A driver that holds the counters [table], with 200 steps per
    revolution, the 5000 microseconds between frames of 60 revolutions per
    minute, and [last_step_time] taken at the first reading of the clock. *)
Definition bench_driver (table : list Z) : Hundred_Steppers :=
  mkHS (Z.of_nat (length table)) 200 table 5000 0 1.

(** A driver for the largest motor count that [uint16_t] can hold. *)
Definition bench_largest : Hundred_Steppers :=
  mkHS 65535 200 (replicate (Z.to_nat 65535) 0) 5000 0 1.

(** ** The lines to the shift registers *)

(** [uint8_t]: a port register, a bit mask, a phase byte. *)
Definition uint8_t (z : Z) : Z := z mod 256.

(** What the constructor keeps for [fastShiftOut] and for the control
    lines: the addresses of the port registers of the data and clock pins,
    the bit of each pin inside its register, the numbers of the latch, clear
    and enable pins, and the number of output lines per stepper. *)
Record wiring : Type := mkWiring {
  dataReg : Z;
  clockReg : Z;
  dataMask : Z;
  clockMask : Z;
  latchPin : Z;
  clearPin : Z;
  enablePin : Z;
  step_line_num : Z
}.

(** [*reg |= mask] and [*reg &= ~mask] on the port registers of the board,
    a byte at each address. *)
Definition reg_or (p : Z → Z) (reg mask : Z) : Z → Z :=
  <[reg := uint8_t (Z.lor (p reg) mask)]> p.

Definition reg_and_not (p : Z → Z) (reg mask : Z) : Z → Z :=
  <[reg := uint8_t (Z.land (p reg) (Z.lnot mask))]> p.

(** The level of the pin that is bit [mask] of register [reg]. *)
Definition line (p : Z → Z) (reg mask : Z) : bool :=
  negb (Z.land (p reg) mask =? 0).

(** The levels of the clock line and of the data line. *)
Definition lines (w : wiring) (p : Z → Z) : bool * bool :=
  (line p (clockReg w) (clockMask w), line p (dataReg w) (dataMask w)).

(** One round of the loop of [fastShiftOut], for bit [i]: clock low, data
    to the bit, clock high.  The levels of the two lines are recorded after
    each of the three writes. *)
Definition shift_out_bit (w : wiring) (value : Z)
    (st : (Z → Z) * list (bool * bool)) (i : Z) : (Z → Z) * list (bool * bool) :=
  let '(p, tr) := st in
  let p1 := reg_and_not p (clockReg w) (clockMask w) in
  let p2 :=
    if Z.land value (Z.shiftl 1 i) =? 0
    then reg_and_not p1 (dataReg w) (dataMask w)
    else reg_or p1 (dataReg w) (dataMask w) in
  let p3 := reg_or p2 (clockReg w) (clockMask w) in
  (p3, tr ++ [lines w p1; lines w p2; lines w p3]).

(** [Hundred_Steppers::fastShiftOut(uint8_t value)]: the ports afterwards
    and the levels that the lines went through. *)
Definition fastShiftOut (w : wiring) (value : Z) (p : Z → Z)
    : (Z → Z) * list (bool * bool) :=
  foldl (shift_out_bit w value) (p, []) (seqZ 0 (step_line_num w)).

(** The calls of [fastShiftOut] of one frame, one per byte. *)
Fixpoint shift_out_bytes (w : wiring) (bytes : list Z) (p : Z → Z)
    : (Z → Z) * list (bool * bool) :=
  match bytes with
  | [] => (p, [])
  | b :: bytes' =>
      let '(p1, tr1) := fastShiftOut w b p in
      let '(p2, tr2) := shift_out_bytes w bytes' p1 in
      (p2, tr1 ++ tr2)
  end.

(** What a 74HC595 takes in from the two lines (clock level, data level):
    the level of DS at every rising edge of SHCP.  [clk] is the level of the
    clock line before the first entry. *)
Fixpoint shifted_in (clk : bool) (tr : list (bool * bool)) : list bool :=
  match tr with
  | [] => []
  | (c, d) :: tr' =>
      if c && negb clk then d :: shifted_in c tr' else shifted_in c tr'
  end.

(** The level of the clock line after the levels [tr]. *)
Definition clock_after (clk : bool) (tr : list (bool * bool)) : bool :=
  match last tr with Some (c, _) => c | None => clk end.

(** The bits of a byte as [fastShiftOut] sends them: [n] of them, bit 0
    first. *)
Definition bits_lsb_first (n value : Z) : list bool :=
  Z.testbit value <$> seqZ 0 n.

(** What the Arduino calls of the control lines do to the pins. *)
Inductive pin_event : Type :=
  | PinMode (pin : Z)
  | DigitalWrite (pin : Z) (high : bool)
  | Delay (ms : Z).

(** The levels of the pins after the events [evs]. *)
Fixpoint pin_levels (evs : list pin_event) (l : Z → bool) : Z → bool :=
  match evs with
  | [] => l
  | DigitalWrite pin high :: evs' => pin_levels evs' (<[pin := high]> l)
  | _ :: evs' => pin_levels evs' l
  end.

(** [Hundred_Steppers::enableSteppers(void)] *)
Definition enableSteppers (w : wiring) : bool * list pin_event :=
  if enablePin w =? 0 then (false, [])
  else (true, [DigitalWrite (enablePin w) false]).

(** [Hundred_Steppers::disableSteppers(void)] *)
Definition disableSteppers (w : wiring) : bool * list pin_event :=
  if enablePin w =? 0 then (false, [])
  else (true, [DigitalWrite (enablePin w) true]).

(** [Hundred_Steppers::clearSteppers(void)] *)
Definition clearSteppers (w : wiring) : bool * list pin_event :=
  if clearPin w =? 0 then (false, [])
  else (true, [DigitalWrite (clearPin w) false; Delay 10;
               DigitalWrite (clearPin w) true]).

(** The pin part of the constructor with clear and enable pins.  [port_of]
    stands for [portOutputRegister(digitalPinToPort(pin))] and [mask_of]
    for [digitalPinToBitMask(pin)]. *)
Definition wire_all (port_of mask_of : Z → Z)
    (dataPin clockPin latchPin step_line_num clearPin enablePin : Z)
    : wiring * list pin_event :=
  (mkWiring (port_of dataPin) (port_of clockPin) (mask_of dataPin)
     (mask_of clockPin) latchPin clearPin enablePin step_line_num,
   [PinMode dataPin; PinMode clockPin; PinMode latchPin; PinMode clearPin;
    PinMode enablePin; DigitalWrite latchPin false;
    DigitalWrite clearPin true; DigitalWrite enablePin false]).

(** The pin part of the constructor without clear and enable pins. *)
Definition wire_short (port_of mask_of : Z → Z)
    (dataPin clockPin latchPin step_line_num : Z) : wiring * list pin_event :=
  (mkWiring (port_of dataPin) (port_of clockPin) (mask_of dataPin)
     (mask_of clockPin) latchPin 0 0 step_line_num,
   [PinMode dataPin; PinMode clockPin; PinMode latchPin;
    DigitalWrite latchPin false]).

(** The data and the clock pin are two pins: each has a bit in a byte, and
    the two bits are not the same bit of the same register. *)
Definition wiring_ok (w : wiring) : Prop :=
  0 < dataMask w < 256 ∧ 0 < clockMask w < 256 ∧
  (dataReg w ≠ clockReg w ∨ Z.land (dataMask w) (clockMask w) = 0).

(** A bench wiring: data on bit 2 and clock on bit 4 of one port register,
    the latch, clear and enable lines on the pins 3, 5 and 6, four output
    lines per stepper; and a board with every port register at zero. *)
Definition bench_wiring : wiring := mkWiring 43 43 4 16 3 5 6 4.

Definition bench_ports : Z → Z := λ _, 0.

Section Driver.

(** Hundred_Steppers.h is not part of the sources.  What [step] uses from
    it is taken as given: the cycle length [driver_mode] and the phase table
    [cmd_list], one byte per phase.  [driver_mode] is read as a constant
    whose type is [int] after the integer promotions, as a macro or a
    [uint8_t] constant is, so that [%] works on signed operands. *)
Variable driver_mode : Z.
Variable cmd_list : list Z.

(** The clock of the board: [clock k] is the time in microseconds at the
    [k]-th reading of [micros()]. *)
Variable clock : nat → Z.

(** What the busy-wait of [step] needs from the clock to end for a delay
    [d]: time does not go back, it does not stand still for ever, and two
    successive readings are not so far apart that the wrapped difference
    could pass over the whole range in which it is at least [d]. *)
Definition clock_ok (d : Z) : Prop :=
  (∀ k : nat, clock k ≤ clock (S k) ≤ clock k + (4294967296 - d)) ∧
  (∀ k : nat, ∃ m : nat, clock k < clock m).

Definition clock_monotone : Prop := ∀ k : nat, clock k ≤ clock (S k).

Definition micros (hs : Hundred_Steppers) : Z * Hundred_Steppers :=
  (ulong (clock (ticks hs)), set_ticks hs (S (ticks hs))).

(** [while ((micros() - last_step_time) < step_delay) {;}] *)
Fixpoint wait_step_delay (fuel : nat) (hs : Hundred_Steppers) : option Hundred_Steppers :=
  match fuel with
  | O => None
  | S fuel' =>
      let '(t, hs1) := micros hs in
      if ulong (t - last_step_time hs1) <? step_delay hs1
      then wait_step_delay fuel' hs1
      else Some hs1
  end.

Definition read_step_table (hs : Hundred_Steppers) (idx : Z) : option Z :=
  if idx <? 0 then None else step_table hs !! Z.to_nat idx.

Definition read_cmd_list (k : Z) : option Z :=
  if k <? 0 then None else cmd_list !! Z.to_nat k.

(** [cmd = cmd_list[step_table[idx] % driver_mode]; fastShiftOut(cmd);] *)
Definition shift_slot (hs : Hundred_Steppers) (idx : Z) : slot :=
  let k := (λ v, Z.rem v driver_mode) <$> read_step_table hs idx in
  mkSlot idx k (k ≫= read_cmd_list).

(** The [length] that [step] works with after its guard. *)
Definition frame_length (hs : Hundred_Steppers) (len : Z) : Z :=
  if (len =? 0) || (len >? nSteppers hs) then nSteppers hs else len.

(** [Hundred_Steppers::step(uint16_t length)].  The writes to the latch
    pin around the loop are not part of the frame record. *)
Definition step (fuel : nat) (hs : Hundred_Steppers) (len : Z)
    : option (Hundred_Steppers * frame) :=
  hs1 ← wait_step_delay fuel hs;
  let '(t, hs2) := micros hs1 in
  let hs3 := set_last_step_time hs2 t in
  let len := frame_length hs3 len in
  sl ← for_uint16 fuel (λ i, i <=? len)
         (λ i out, out ++ [shift_slot hs3 (len - i)]) 0 [];
  Some (hs3, mkFrame (ticks hs1) sl).

(** [Hundred_Steppers::setStepperStep(uint16_t n, int steps_to_move)]:
    the [while (steps_to_move != 0)] loop. *)
Fixpoint setStepperStep_loop (fuel : nat) (hs : Hundred_Steppers)
    (n steps_to_move : Z) : option (Hundred_Steppers * list frame) :=
  match fuel with
  | O => None
  | S fuel' =>
      if steps_to_move =? 0 then Some (hs, [])
      else
        let '(steps_to_move, hs1) :=
          if steps_to_move >? 0
          then (steps_to_move - 1,
                set_step_table hs (alter Z.succ (Z.to_nat n) (step_table hs)))
          else (steps_to_move + 1,
                set_step_table hs (alter Z.pred (Z.to_nat n) (step_table hs))) in
        '(hs2, fr) ← step fuel' hs1 n;
        '(hs3, frs) ← setStepperStep_loop fuel' hs2 n steps_to_move;
        Some (hs3, fr :: frs)
  end.

Definition setStepperStep (fuel : nat) (hs : Hundred_Steppers)
    (n steps_to_move : Z) : option (Hundred_Steppers * list frame) :=
  if n <? nSteppers hs then setStepperStep_loop fuel hs n steps_to_move
  else Some (hs, []).

(** The working variables of one pass over the caller's list:
    [step_list], [step_table], [zero_num], [max_changed]. *)
Definition pass_state : Type := list Z * list Z * Z * Z.

(** The body of the [for] loop of [setStepperStep(step_list)].  The caller's
    array is the working storage: [step_list[i]] itself is counted down. *)
Definition list_pass_body (i : Z) (st : pass_state) : pass_state :=
  let '(step_list, table, zero_num, max_changed) := st in
  match step_list !! Z.to_nat i with
  | Some d =>
      if d >? 0
      then (<[Z.to_nat i := d - 1]> step_list,
            alter Z.succ (Z.to_nat i) table, zero_num, i)
      else if d <? 0
      then (<[Z.to_nat i := d + 1]> step_list,
            alter Z.pred (Z.to_nat i) table, zero_num, i)
      else (step_list, table, uint16_t (zero_num + 1), max_changed)
  | None => st
  end.

(** The [while (zero_num < length)] loop of [setStepperStep(step_list)]. *)
Fixpoint setStepperStep_list_loop (fuel : nat) (hs : Hundred_Steppers)
    (step_list : list Z) (zero_num len : Z)
    : option (Hundred_Steppers * list Z * list frame) :=
  match fuel with
  | O => None
  | S fuel' =>
      if zero_num <? len then
        '(step_list1, table1, zero_num1, max_changed) ←
          for_uint16 fuel' (λ i, i <? len) list_pass_body 0
            (step_list, step_table hs, zero_num, 0);
        '(hs2, fr) ← step fuel' (set_step_table hs table1) max_changed;
        '(hs3, step_list3, frs) ←
          setStepperStep_list_loop fuel' hs2 step_list1 zero_num1 len;
        Some (hs3, step_list3, fr :: frs)
      else Some (hs, step_list, [])
  end.

(** [Hundred_Steppers::setStepperStep(step_list)], the overload that takes
    a list: returns the driver, the caller's array as the call leaves it,
    and the frames sent. *)
Definition setStepperStep_list (fuel : nat) (hs : Hundred_Steppers)
    (step_list : list Z) : option (Hundred_Steppers * list Z * list frame) :=
  let len := uint16_t (arrayLen step_list) in
  let len := if len >? nSteppers hs then nSteppers hs else len in
  setStepperStep_list_loop fuel hs step_list 0 len.

(** The body of the [for] loop of [home]: [step_table], [zero_num],
    [max_changed]. *)
Definition home_pass_body (i : Z) (st : list Z * Z * Z) : list Z * Z * Z :=
  let '(table, zero_num, max_changed) := st in
  match table !! Z.to_nat i with
  | Some c =>
      if c >? 0 then (<[Z.to_nat i := c - 1]> table, zero_num, i)
      else if c <? 0 then (<[Z.to_nat i := c + 1]> table, zero_num, i)
      else (table, uint16_t (zero_num + 1), max_changed)
  | None => st
  end.

(** The [while (zero_num < nSteppers)] loop of [home]. *)
Fixpoint home_loop (fuel : nat) (hs : Hundred_Steppers) (zero_num : Z)
    : option (Hundred_Steppers * list frame) :=
  match fuel with
  | O => None
  | S fuel' =>
      if zero_num <? nSteppers hs then
        '(table1, zero_num1, max_changed) ←
          for_uint16 fuel' (λ i, i <? nSteppers hs) home_pass_body 0
            (step_table hs, zero_num, 0);
        '(hs2, fr) ← step fuel' (set_step_table hs table1) max_changed;
        '(hs3, frs) ← home_loop fuel' hs2 zero_num1;
        Some (hs3, fr :: frs)
      else Some (hs, [])
  end.

(** [Hundred_Steppers::home(void)] *)
Definition home (fuel : nat) (hs : Hundred_Steppers)
    : option (Hundred_Steppers * list frame) :=
  home_loop fuel hs 0.

(** [calloc(n, sizeof(stepType))]: a block of [n] zeroed counters, or the
    null pointer when the heap cannot provide it. *)
Definition calloc (heap_ok : bool) (n : Z) : option (list Z) :=
  if heap_ok then Some (replicate (Z.to_nat n) 0) else None.

(** [Hundred_Steppers::setStepperNum(uint16_t n)] *)
Definition setStepperNum (heap_ok : bool) (hs : Hundred_Steppers) (n : Z)
    : bool * Hundred_Steppers :=
  match calloc heap_ok n with
  | Some tmp =>
      (true, mkHS n (nSteps hs) tmp (step_delay hs) (last_step_time hs) (ticks hs))
  | None => (false, hs)
  end.

(** [Hundred_Steppers::getStepperNum(void)] *)
Definition getStepperNum (hs : Hundred_Steppers) : Z := nSteppers hs.

(** [Hundred_Steppers::setSpeedRevPerMin(uint16_t n)]; the division is not
    defined for a zero divisor. *)
Definition setSpeedRevPerMin (hs : Hundred_Steppers) (n : Z) : option Hundred_Steppers :=
  if (nSteps hs =? 0) || (n =? 0) then None
  else Some (set_step_delay hs (Z.quot (Z.quot (60 * 1000 * 1000) (nSteps hs)) n)).

(** The constructors, as far as the members above go: zeroed counters, the
    first clock reading as [last_step_time], 60 revolutions per minute.  A
    failed [calloc] leaves the null pointer in [step_table], read here as an
    empty block. *)
Definition Hundred_Steppers_new (heap_ok : bool) (k : nat) (nSteppers nSteps : Z)
    : option Hundred_Steppers :=
  let table := default [] (calloc heap_ok nSteppers) in
  let '(t, hs) := micros (mkHS nSteppers nSteps table 0 0 k) in
  setSpeedRevPerMin (set_last_step_time hs t) 60.

(** A caller that sends one frame after the other: [step(len)] for every
    [len] of the list, in order. *)
Fixpoint step_calls (fuel : nat) (hs : Hundred_Steppers) (lens : list Z)
    : option (Hundred_Steppers * list frame) :=
  match lens with
  | [] => Some (hs, [])
  | len :: lens' =>
      '(hs1, fr) ← step fuel hs len;
      '(hs2, frs) ← step_calls fuel hs1 lens';
      Some (hs2, fr :: frs)
  end.

(** ** What the loops compute *)

(** The busy-wait of [step] ends at the clock reading [k]. *)
Definition gate_open (hs : Hundred_Steppers) (k : nat) : Prop :=
  step_delay hs ≤ ulong (ulong (clock k) - last_step_time hs).

(** The calls of [fastShiftOut] of a frame that works with [len]: one for
    each [i = 0 .. len], on [step_table[len - i]]. *)
Definition frame_slots (hs : Hundred_Steppers) (len : Z) : list slot :=
  (λ i, shift_slot hs (len - i)) <$> seqZ 0 (len + 1).

(** The driver after a call of [step] that stored the reading [k]. *)
Definition after_step (hs : Hundred_Steppers) (k : nat) : Hundred_Steppers :=
  mkHS (nSteppers hs) (nSteps hs) (step_table hs) (step_delay hs)
       (ulong (clock k)) (S k).

(** One unit toward zero, and the unit that the counter receives for it. *)
Definition toward_zero (d : Z) : Z :=
  if d >? 0 then d - 1 else if d <? 0 then d + 1 else d.

Definition unit_step (d : Z) : Z :=
  if d >? 0 then 1 else if d <? 0 then -1 else 0.

(** The largest magnitude in a list of deltas. *)
Definition max_abs (l : list Z) : Z := foldr (λ d m, Z.max (Z.abs d) m) 0 l.

(** One pass of the list overload over the indices [0 .. n-1]. *)
Definition list_pass (n : Z) (st : pass_state) : pass_state :=
  foldl (λ st j, list_pass_body j st) st (seqZ 0 n).

(** [D'] and [T'] are a later stage of the lists [D] of deltas and [T] of
    counters: what has left a delta has gone to its counter, no delta has
    moved away from zero, and the counters past the deltas are as before. *)
Definition tracks (D T D' T' : list Z) : Prop :=
  length D' = length D ∧ length T' = length T ∧
  (∀ i : nat, (length D ≤ i)%nat → T' !! i = T !! i) ∧
  ∀ (i : nat) (d c : Z), D !! i = Some d → T !! i = Some c →
    ∃ d' c' : Z, D' !! i = Some d' ∧ T' !! i = Some c' ∧
      d' + c' = d + c ∧ (0 ≤ d' ≤ d ∨ d ≤ d' ≤ 0).

(** The motors of a frame as the spec counts them: [active_count - 1] down
    to [0], where [active_count] is the length after the guard. *)
Definition counted_window (hs : Hundred_Steppers) (len : Z) : list Z :=
  reverse (seqZ 0 (frame_length hs len)).

(** The frames [frs] follow a watermark taken at the reading [prev]: each
    frame stores a later reading, at least [d] microseconds after the one
    stored before it. *)
Fixpoint spaced (d : Z) (prev : nat) (frs : list frame) : Prop :=
  match frs with
  | [] => True
  | fr :: frs' =>
      (prev < stamp fr)%nat ∧ clock prev + d ≤ clock (stamp fr) ∧
      spaced d (stamp fr) frs'
  end.

(** The reading that [last_step_time] holds after the frames [frs]. *)
Definition last_stamp (prev : nat) (frs : list frame) : nat :=
  default prev (stamp <$> last frs).

(** The bytes that a frame hands to [fastShiftOut], in the order of the
    calls, when every one of them is defined. *)
Definition frame_bytes (fr : frame) : option (list Z) := mapM cmd (slots fr).

(** The number of deltas at zero. *)
Definition zeros (l : list Z) : Z :=
  foldr (λ d k, (if d =? 0 then 1 else 0) + k) 0 l.

(** The passes that the deltas of [l] spend at zero while the largest of
    them still has [m] units to go: the sum of [m - |d|] over the deltas
    [d] with [|d| < m]. *)
Definition idle_passes (m : Z) (l : list Z) : Z :=
  foldr (λ d k, Z.max 0 (m - Z.abs d) + k) 0 l.

(** The working variables of a pass when the caller's array goes on with
    the entries [rest] that the pass does not reach. *)
Definition with_rest (rest : list Z) (st : pass_state) : pass_state :=
  let '(step_list, table, zero_num, max_changed) := st in
  (step_list ++ rest, table, zero_num, max_changed).

Definition result_with_rest (rest : list Z)
    (r : Hundred_Steppers * list Z * list frame)
    : Hundred_Steppers * list Z * list frame :=
  let '(hs, step_list, frs) := r in (hs, step_list ++ rest, frs).


(** The working variables of a pass of the list overload as [home] has
    them when the list is the counters themselves: [step_table],
    [zero_num], [max_changed]. *)
Definition home_view (st : pass_state) : list Z * Z * Z :=
  let '(step_list, _, zero_num, max_changed) := st in
  (step_list, zero_num, max_changed).

(** Two drivers that differ in their counters at most. *)
Definition same_timing (hs hs' : Hundred_Steppers) : Prop :=
  nSteppers hs = nSteppers hs' ∧ nSteps hs = nSteps hs' ∧
  step_delay hs = step_delay hs' ∧ last_step_time hs = last_step_time hs' ∧
  ticks hs = ticks hs'.

(** Two frames stored at the same reading of the clock and sent to the
    same motors. *)
Definition same_window (fr fr' : frame) : Prop :=
  stamp fr = stamp fr' ∧ motor <$> slots fr = motor <$> slots fr'.

(** [last_step_time] holds the reading number [j] of the clock, a reading
    that has been taken. *)
Definition watermark (hs : Hundred_Steppers) (j : nat) : Prop :=
  (j < ticks hs)%nat ∧ last_step_time hs = ulong (clock j).

(** What a move leaves alone: the motor count, the steps per revolution,
    the delay between frames and the size of the storage. *)
Definition same_configuration (hs hs' : Hundred_Steppers) : Prop :=
  nSteppers hs' = nSteppers hs ∧ nSteps hs' = nSteps hs ∧
  step_delay hs' = step_delay hs ∧
  length (step_table hs') = length (step_table hs).

(** One of the three moves returns [hs'] and the frames [frs]. *)
Definition moved (fuel : nat) (hs hs' : Hundred_Steppers) (frs : list frame) : Prop :=
  (∃ n steps_to_move : Z, setStepperStep fuel hs n steps_to_move = Some (hs', frs)) ∨
  (∃ step_list step_list' : list Z,
     setStepperStep_list fuel hs step_list = Some (hs', step_list', frs)) ∨
  home fuel hs = Some (hs', frs).
(** ** Loops with a [uint16_t] counter *)

Lemma for_uint16_spec {St : Type} (cond : Z → bool) (body : Z → St → St) (bound : Z) :
  bound ≤ 65535 → cond bound = false →
  ∀ (n : nat) (i : Z) (s : St) (fuel : nat),
    0 ≤ i → i + Z.of_nat n = bound →
    (∀ j, i ≤ j < bound → cond j = true) →
    (n < fuel)%nat →
    for_uint16 fuel cond body i s
    = Some (foldl (λ s j, body j s) s (seqZ i (Z.of_nat n))).
Proof.
  intros Hb Hstop n. induction n as [|n IH]; intros i s fuel Hi Hsum Hc Hf.
  - destruct fuel as [|fuel]; [lia|]. cbn [for_uint16].
    replace i with bound by lia. rewrite Hstop. by rewrite seqZ_nil.
  - destruct fuel as [|fuel]; [lia|]. cbn [for_uint16].
    rewrite Hc by lia.
    assert (uint16_t (i + 1) = i + 1) as ->.
    { unfold uint16_t. apply Z.mod_small. lia. }
    rewrite IH by (try lia; intros; apply Hc; lia).
    rewrite (seqZ_cons i (Z.of_nat (S n))) by lia. cbn [foldl].
    do 3 f_equal; lia.
Qed.

(** With a bound of 65535 the test [i <= length] holds for every [uint16_t]
    value of [i]: the loop does not end. *)
Lemma for_uint16_le_max_diverges {St : Type} (body : Z → St → St) :
  ∀ (fuel : nat) (i : Z) (s : St),
    0 ≤ i ≤ 65535 →
    for_uint16 fuel (λ i, i <=? 65535) body i s = None.
Proof.
  induction fuel as [|fuel IH]; intros i s Hi; [done|]. simpl.
  destruct (Z.leb_spec i 65535); [|lia].
  apply IH. unfold uint16_t.
  pose proof (Z.mod_pos_bound (i + 1) 65536). lia.
Qed.

Lemma frame_loop_slots (hs : Hundred_Steppers) (len : Z) (l : list Z) (out : list slot) :
  foldl (λ out i, out ++ [shift_slot hs (len - i)]) out l
  = out ++ ((λ i, shift_slot hs (len - i)) <$> l).
Proof.
  revert out. induction l as [|i l IH]; intros out; simpl.
  - by rewrite app_nil_r.
  - rewrite IH. by rewrite <- app_assoc.
Qed.

Lemma frame_loop_returns (hs : Hundred_Steppers) (len : Z) (fuel : nat) :
  0 ≤ len < 65535 → (Z.to_nat (len + 1) < fuel)%nat →
  for_uint16 fuel (λ i, i <=? len)
    (λ i out, out ++ [shift_slot hs (len - i)]) 0 []
  = Some (frame_slots hs len).
Proof.
  intros Hlen Hf.
  assert ((len + 1 <=? len) = false) as Hstop by (apply Z.leb_gt; lia).
  assert (∀ j, 0 ≤ j < len + 1 → (j <=? len) = true) as Hgo
    by (intros j Hj; apply Z.leb_le; lia).
  rewrite (for_uint16_spec (λ i, i <=? len) _ (len + 1)) with (n := Z.to_nat (len + 1))
    by (done || lia).
  rewrite frame_loop_slots. unfold frame_slots.
  by rewrite Z2Nat.id by lia.
Qed.

(** ** The timing gate *)

Lemma ulong_sub_ulong (x w : Z) : ulong (ulong x - w) = ulong (x - w).
Proof. unfold ulong. apply Zminus_mod_idemp_l. Qed.

Lemma gate_open_set_ticks (hs : Hundred_Steppers) (j k : nat) :
  gate_open (set_ticks hs j) k ↔ gate_open hs k.
Proof. done. Qed.

Lemma wait_step_delay_found (n : nat) :
  ∀ hs : Hundred_Steppers,
    gate_open hs (ticks hs + n) →
    ∃ k : nat, (ticks hs ≤ k ≤ ticks hs + n)%nat ∧ gate_open hs k ∧
      ∀ fuel : nat, (n < fuel)%nat →
        wait_step_delay fuel hs = Some (set_ticks hs (S k)).
Proof.
  induction n as [|n IH]; intros hs Hopen.
  - exists (ticks hs). rewrite Nat.add_0_r in Hopen.
    split; [lia|]. split; [done|].
    intros [|fuel] Hf; [lia|]. simpl.
    destruct (Z.ltb_spec (ulong (ulong (clock (ticks hs)) - last_step_time hs))
                (step_delay hs)) as [Hlt|_]; [|done].
    unfold gate_open in Hopen. lia.
  - destruct (Z.ltb_spec (ulong (ulong (clock (ticks hs)) - last_step_time hs))
                (step_delay hs)) as [Hlt|Hge].
    + destruct (IH (set_ticks hs (S (ticks hs)))) as (k & Hk & Hg & Hw).
      { simpl. by replace (S (ticks hs + n)) with (ticks hs + S n)%nat by lia. }
      simpl in Hk. exists k. split; [lia|]. split; [done|].
      intros [|fuel] Hf; [lia|]. simpl.
      destruct (Z.ltb_spec (ulong (ulong (clock (ticks hs)) - last_step_time hs))
                  (step_delay hs)); [|lia].
      rewrite Hw by lia. done.
    + exists (ticks hs). split; [lia|]. split; [done|].
      intros [|fuel] Hf; [lia|]. simpl.
      destruct (Z.ltb_spec (ulong (ulong (clock (ticks hs)) - last_step_time hs))
                  (step_delay hs)); [lia|done].
Qed.

Lemma wait_step_delay_inv (fuel : nat) :
  ∀ hs hs1 : Hundred_Steppers,
    wait_step_delay fuel hs = Some hs1 →
    ∃ k : nat, (ticks hs ≤ k)%nat ∧ gate_open hs k ∧ hs1 = set_ticks hs (S k).
Proof.
  induction fuel as [|fuel IH]; intros hs hs1 Hw; [done|]. simpl in Hw.
  destruct (Z.ltb_spec (ulong (ulong (clock (ticks hs)) - last_step_time hs))
              (step_delay hs)) as [Hlt|Hge].
  - apply IH in Hw as (k & Hk & Hg & ->). simpl in Hk.
    exists k. split; [lia|]. split; done.
  - exists (ticks hs). split; [lia|]. split; [done|]. congruence.
Qed.

Lemma clock_ok_le (d : Z) (j k : nat) :
  clock_ok d → (j ≤ k)%nat → clock j ≤ clock k.
Proof.
  intros [Hstep _] Hjk. induction Hjk as [|k _ IH]; [lia|].
  specialize (Hstep k). lia.
Qed.

Lemma clock_passes (d a : Z) (n : nat) :
  clock_ok d →
  ∀ k : nat, a - clock k ≤ Z.of_nat n → ∃ m : nat, a ≤ clock (k + m).
Proof.
  intros Hck. induction n as [|n IH]; intros k Hn.
  - exists 0%nat. rewrite Nat.add_0_r. lia.
  - destruct (Z.le_gt_cases a (clock k)) as [Hle|Hgt].
    + exists 0%nat. rewrite Nat.add_0_r. lia.
    + destruct (proj2 Hck k) as [m0 Hm0].
      assert (k < m0)%nat as Hkm.
      { destruct (Nat.lt_ge_cases k m0) as [|Hge]; [done|].
        pose proof (clock_ok_le d m0 k Hck Hge). lia. }
      destruct (IH m0) as (m & Hm); [lia|].
      exists (m0 - k + m)%nat. by replace (k + (m0 - k + m))%nat with (m0 + m)%nat by lia.
Qed.

Lemma clock_first_pass (d a : Z) (n : nat) :
  clock_ok d →
  ∀ k : nat, clock k < a → a ≤ clock (k + n) →
    ∃ m : nat, a ≤ clock (k + m) < a + (4294967296 - d).
Proof.
  intros Hck. induction n as [|n IH]; intros k Hlt Hge.
  - rewrite Nat.add_0_r in Hge. lia.
  - destruct (Z.le_gt_cases a (clock (S k))) as [Hle|Hgt].
    + exists 1%nat. replace (k + 1)%nat with (S k) by lia.
      pose proof (proj1 Hck k). lia.
    + destruct (IH (S k)) as (m & Hm); [done| |].
      { by replace (S k + n)%nat with (k + S n)%nat by lia. }
      exists (S m). by replace (k + S m)%nat with (S k + m)%nat by lia.
Qed.

Lemma clock_reaches (d a : Z) :
  clock_ok d →
  ∀ k : nat, clock k < a + (4294967296 - d) →
    ∃ m : nat, a ≤ clock (k + m) < a + (4294967296 - d).
Proof.
  intros Hck k Hlt.
  destruct (Z.le_gt_cases a (clock k)) as [Hle|Hgt].
  - exists 0%nat. rewrite Nat.add_0_r. lia.
  - destruct (clock_passes d a (Z.to_nat (a - clock k)) Hck k) as (n & Hn); [lia|].
    by apply (clock_first_pass d a n).
Qed.

Lemma gate_opens (hs : Hundred_Steppers) (k : nat) :
  clock_ok (step_delay hs) → ∃ n : nat, gate_open hs (k + n).
Proof.
  intros Hck. unfold gate_open.
  set (d := step_delay hs) in *. set (w := last_step_time hs).
  destruct (Z.le_gt_cases d (ulong (clock k - w))) as [Hle|Hgt].
  - exists 0%nat. rewrite Nat.add_0_r, ulong_sub_ulong. done.
  - assert (0 ≤ ulong (clock k - w) < 4294967296) as Hr
      by (unfold ulong; apply Z.mod_pos_bound; lia).
    destruct (clock_reaches d (clock k + (d - ulong (clock k - w))) Hck k)
      as (m & Hm); [lia|].
    exists m. rewrite ulong_sub_ulong.
    assert (ulong (clock (k + m) - w)
            = ulong (clock k - w) + (clock (k + m) - clock k)) as ->; [|lia].
    unfold ulong in *.
    pose proof (Z.div_mod (clock k - w) 4294967296) as Hdm.
    replace (clock (k + m) - w)
      with ((clock k - w) mod 4294967296 + (clock (k + m) - clock k)
            + (clock k - w) / 4294967296 * 4294967296) by lia.
    rewrite Z_mod_plus_full. apply Z.mod_small. lia.
Qed.

(** ** One call of [step] *)

Lemma shift_slot_same_table (hs hs' : Hundred_Steppers) (idx : Z) :
  step_table hs' = step_table hs → shift_slot hs' idx = shift_slot hs idx.
Proof. intros H. unfold shift_slot, read_step_table. by rewrite H. Qed.

Lemma frame_slots_same_table (hs hs' : Hundred_Steppers) (len : Z) :
  step_table hs' = step_table hs → frame_slots hs' len = frame_slots hs len.
Proof.
  intros H. unfold frame_slots. apply list_fmap_ext.
  intros ? i _. by apply shift_slot_same_table.
Qed.

Lemma step_inv (fuel : nat) (hs hs' : Hundred_Steppers) (len : Z) (fr : frame) :
  step fuel hs len = Some (hs', fr) →
  ∃ k : nat, (ticks hs ≤ k)%nat ∧ gate_open hs k ∧
    hs' = after_step hs (S k) ∧ stamp fr = S k.
Proof.
  unfold step. intros H.
  destruct (wait_step_delay fuel hs) as [hs1|] eqn:Hw; [|done]. simpl in H.
  apply wait_step_delay_inv in Hw as (k & Hk & Hg & ->). simpl in H.
  match type of H with (?c ≫= _) = _ => destruct c as [sl|]; [|done] end.
  simpl in H. injection H as <- <-. exists k. done.
Qed.

Lemma step_returns (hs : Hundred_Steppers) (len : Z) :
  clock_ok (step_delay hs) → 0 ≤ frame_length hs len < 65535 →
  ∃ k : nat, (ticks hs ≤ k)%nat ∧ gate_open hs k ∧
    returns (λ fuel, step fuel hs len)
      (after_step hs (S k), mkFrame (S k) (frame_slots hs (frame_length hs len))).
Proof.
  intros Hck Hlen.
  destruct (gate_opens hs (ticks hs) Hck) as (n & Hn).
  destruct (wait_step_delay_found n hs Hn) as (k & Hk & Hg & Hw).
  exists k. split; [lia|]. split; [done|].
  exists (S (n + Z.to_nat (frame_length hs len + 1))). intros fuel Hf.
  unfold step. rewrite Hw by lia. simpl.
  change (frame_length (set_last_step_time (set_ticks (set_ticks hs (S k)) (S (S k)))
            (ulong (clock (S k)))) len) with (frame_length hs len).
  rewrite frame_loop_returns by lia. simpl.
  rewrite (frame_slots_same_table hs) by done. done.
Qed.

(** ** More fuel does not change a result *)

Lemma for_uint16_mono {St : Type} (cond : Z → bool) (body : Z → St → St) :
  ∀ (fuel fuel' : nat) (i : Z) (s r : St),
    for_uint16 fuel cond body i s = Some r → (fuel ≤ fuel')%nat →
    for_uint16 fuel' cond body i s = Some r.
Proof.
  induction fuel as [|fuel IH]; intros fuel' i s r H Hle; [done|].
  destruct fuel' as [|fuel']; [lia|]. simpl in *.
  destruct (cond i); [|done]. apply IH; [done|lia].
Qed.

Lemma wait_step_delay_mono :
  ∀ (fuel fuel' : nat) (hs hs1 : Hundred_Steppers),
    wait_step_delay fuel hs = Some hs1 → (fuel ≤ fuel')%nat →
    wait_step_delay fuel' hs = Some hs1.
Proof.
  induction fuel as [|fuel IH]; intros fuel' hs hs1 H Hle; [done|].
  destruct fuel' as [|fuel']; [lia|]. simpl in *.
  destruct (_ <? _); [|done]. apply IH; [done|lia].
Qed.

Lemma step_mono (fuel fuel' : nat) (hs : Hundred_Steppers) (len : Z)
    (r : Hundred_Steppers * frame) :
  step fuel hs len = Some r → (fuel ≤ fuel')%nat → step fuel' hs len = Some r.
Proof.
  unfold step. intros H Hle.
  destruct (wait_step_delay fuel hs) as [hs1|] eqn:Hw; [|done].
  rewrite (wait_step_delay_mono _ _ _ _ Hw Hle). simpl in *.
  match type of H with
  | (?c ≫= _) = _ => destruct c as [sl|] eqn:Hf; [|done]
  end.
  rewrite (for_uint16_mono _ _ _ _ _ _ _ Hf Hle). done.
Qed.

Lemma setStepperStep_loop_mono :
  ∀ (fuel fuel' : nat) (hs : Hundred_Steppers) (n steps_to_move : Z)
    (r : Hundred_Steppers * list frame),
    setStepperStep_loop fuel hs n steps_to_move = Some r → (fuel ≤ fuel')%nat →
    setStepperStep_loop fuel' hs n steps_to_move = Some r.
Proof.
  induction fuel as [|fuel IH]; intros fuel' hs n s r H Hle; [done|].
  destruct fuel' as [|fuel']; [lia|]. simpl in *.
  destruct (s =? 0); [done|].
  destruct (s >? 0).
  - destruct (step fuel _ n) as [[hs2 fr]|] eqn:Hs; [|done].
    rewrite (step_mono _ fuel' _ _ _ Hs) by lia. simpl in *.
    destruct (setStepperStep_loop fuel hs2 n (s - 1)) as [[hs3 frs]|] eqn:Hl; [|done].
    rewrite (IH fuel' _ _ _ _ Hl) by lia. done.
  - destruct (step fuel _ n) as [[hs2 fr]|] eqn:Hs; [|done].
    rewrite (step_mono _ fuel' _ _ _ Hs) by lia. simpl in *.
    destruct (setStepperStep_loop fuel hs2 n (s + 1)) as [[hs3 frs]|] eqn:Hl; [|done].
    rewrite (IH fuel' _ _ _ _ Hl) by lia. done.
Qed.

Lemma setStepperStep_list_loop_mono :
  ∀ (fuel fuel' : nat) (hs : Hundred_Steppers) (step_list : list Z)
    (zero_num len : Z) (r : Hundred_Steppers * list Z * list frame),
    setStepperStep_list_loop fuel hs step_list zero_num len = Some r →
    (fuel ≤ fuel')%nat →
    setStepperStep_list_loop fuel' hs step_list zero_num len = Some r.
Proof.
  induction fuel as [|fuel IH]; intros fuel' hs l z len r H Hle; [done|].
  destruct fuel' as [|fuel']; [lia|]. simpl in *.
  destruct (z <? len); [|done].
  destruct (for_uint16 fuel _ _ 0 _) as [[[[l1 t1] z1] mc]|] eqn:Hp; [|done].
  rewrite (for_uint16_mono _ _ _ fuel' _ _ _ Hp) by lia. simpl in *.
  destruct (step fuel _ mc) as [[hs2 fr]|] eqn:Hs; [|done].
  rewrite (step_mono _ fuel' _ _ _ Hs) by lia. simpl in *.
  destruct (setStepperStep_list_loop fuel hs2 l1 z1 len) as [[[hs3 l3] frs]|] eqn:Hl;
    [|done].
  rewrite (IH fuel' _ _ _ _ _ Hl) by lia. done.
Qed.

Lemma home_loop_mono :
  ∀ (fuel fuel' : nat) (hs : Hundred_Steppers) (zero_num : Z)
    (r : Hundred_Steppers * list frame),
    home_loop fuel hs zero_num = Some r → (fuel ≤ fuel')%nat →
    home_loop fuel' hs zero_num = Some r.
Proof.
  induction fuel as [|fuel IH]; intros fuel' hs z r H Hle; [done|].
  destruct fuel' as [|fuel']; [lia|]. simpl in *.
  destruct (z <? nSteppers hs); [|done].
  destruct (for_uint16 fuel _ _ 0 _) as [[[t1 z1] mc]|] eqn:Hp; [|done].
  rewrite (for_uint16_mono _ _ _ fuel' _ _ _ Hp) by lia. simpl in *.
  destruct (step fuel _ mc) as [[hs2 fr]|] eqn:Hs; [|done].
  rewrite (step_mono _ fuel' _ _ _ Hs) by lia. simpl in *.
  destruct (home_loop fuel hs2 z1) as [[hs3 frs]|] eqn:Hl; [|done].
  rewrite (IH fuel' _ _ _ Hl) by lia. done.
Qed.

Lemma setStepperStep_mono (fuel fuel' : nat) (hs : Hundred_Steppers)
    (n steps_to_move : Z) (r : Hundred_Steppers * list frame) :
  setStepperStep fuel hs n steps_to_move = Some r → (fuel ≤ fuel')%nat →
  setStepperStep fuel' hs n steps_to_move = Some r.
Proof.
  unfold setStepperStep. destruct (n <? nSteppers hs); [|done].
  apply setStepperStep_loop_mono.
Qed.

Lemma setStepperStep_list_mono (fuel fuel' : nat) (hs : Hundred_Steppers)
    (step_list : list Z) (r : Hundred_Steppers * list Z * list frame) :
  setStepperStep_list fuel hs step_list = Some r → (fuel ≤ fuel')%nat →
  setStepperStep_list fuel' hs step_list = Some r.
Proof. apply setStepperStep_list_loop_mono. Qed.

Lemma home_mono (fuel fuel' : nat) (hs : Hundred_Steppers)
    (r : Hundred_Steppers * list frame) :
  home fuel hs = Some r → (fuel ≤ fuel')%nat → home fuel' hs = Some r.
Proof. apply home_loop_mono. Qed.

(** A run with some fuel fixes what the call returns. *)
Lemma returns_of_run {A : Type} (c : nat → option A) (fuel : nat) (r : A) :
  (∀ f f' x, c f = Some x → (f ≤ f')%nat → c f' = Some x) →
  c fuel = Some r → returns c r.
Proof. intros Hm H. exists fuel. intros f Hf. by apply (Hm fuel). Qed.

Lemma returns_unique {A : Type} (c : nat → option A) (r r' : A) :
  returns c r → returns c r' → r = r'.
Proof.
  intros [f Hf] [f' Hf'].
  specialize (Hf (f `max` f')%nat). specialize (Hf' (f `max` f')%nat).
  rewrite Hf in Hf' by lia. injection Hf' as <-; [done|lia].
Qed.

(** ** Moving one stepper *)

Lemma list_alter_twice {A : Type} (f g : A → A) (i : nat) (l : list A) :
  alter f i (alter g i l) = alter (λ x, f (g x)) i l.
Proof.
  apply list_eq. intros j. destruct (decide (i = j)) as [->|Hne].
  - rewrite !list_lookup_alter_eq. by destruct (l !! j).
  - by rewrite !list_lookup_alter_ne.
Qed.

Lemma frame_length_range (hs : Hundred_Steppers) (len : Z) :
  0 ≤ nSteppers hs < 65535 → 0 ≤ len < 65535 →
  0 ≤ frame_length hs len < 65535.
Proof. unfold frame_length. destruct (_ || _); lia. Qed.

Lemma setStepperStep_loop_returns (m : nat) :
  ∀ (hs : Hundred_Steppers) (n steps_to_move : Z),
    Z.abs_nat steps_to_move = m →
    clock_ok (step_delay hs) → 0 ≤ n < nSteppers hs → nSteppers hs < 65535 →
    ∃ (hs' : Hundred_Steppers) (frs : list frame),
      returns (λ fuel, setStepperStep_loop fuel hs n steps_to_move) (hs', frs) ∧
      step_table hs' = alter (Z.add steps_to_move) (Z.to_nat n) (step_table hs) ∧
      nSteppers hs' = nSteppers hs ∧ length frs = m.
Proof.
  induction m as [|m IH]; intros hs n s Hm Hck Hn HN.
  - assert (s = 0) as -> by lia.
    exists hs, []. split; [|split; [|done]].
    + exists 1%nat. intros [|fuel] Hf; [lia|]. done.
    + symmetry. by apply list_alter_id.
  - assert (s ≠ 0) as Hs by lia.
    set (f := if s >? 0 then Z.succ else Z.pred).
    set (s' := if s >? 0 then s - 1 else s + 1).
    set (hs1 := set_step_table hs (alter f (Z.to_nat n) (step_table hs))).
    destruct (step_returns hs1 n) as (k & Hk & Hg & f1 & Hstep).
    { done. }
    { apply frame_length_range; simpl; lia. }
    destruct (IH (after_step hs1 (S k)) n s') as (hs' & frs & [f2 Hloop] & Ht & HN' & Hl).
    { subst s'. destruct (Z.gtb_spec s 0); lia. }
    { done. }
    { simpl. lia. }
    { simpl. lia. }
    exists hs', (mkFrame (S k) (frame_slots hs1 (frame_length hs1 n)) :: frs).
    split; [|split; [|split]].
    + exists (S (f1 `max` f2)). intros [|fuel] Hf; [lia|]. simpl.
      destruct (Z.eqb_spec s 0) as [|_]; [done|].
      subst hs1 f s'. destruct (s >? 0).
      * rewrite Hstep by lia. simpl. rewrite Hloop by lia. done.
      * rewrite Hstep by lia. simpl. rewrite Hloop by lia. done.
    + rewrite Ht. simpl. rewrite list_alter_twice.
      apply list_alter_ext; [|done]. intros x _.
      subst f s'. destruct (Z.gtb_spec s 0); lia.
    + rewrite HN'. done.
    + simpl. by rewrite Hl.
Qed.

(** Away from the largest motor count, the single-motor move returns and
    adds [steps_to_move] to counter [n] and to no other. *)
Lemma setStepperStep_moves (hs : Hundred_Steppers) (n steps_to_move : Z) :
  clock_ok (step_delay hs) → storage_ok hs →
  0 ≤ n < nSteppers hs → nSteppers hs < 65535 →
  ∃ (hs' : Hundred_Steppers) (frs : list frame),
    returns (λ fuel, setStepperStep fuel hs n steps_to_move) (hs', frs) ∧
    (∀ c, step_table hs !! Z.to_nat n = Some c →
          step_table hs' !! Z.to_nat n = Some (c + steps_to_move)) ∧
    is_Some (step_table hs !! Z.to_nat n) ∧
    (∀ j, j ≠ Z.to_nat n → step_table hs' !! j = step_table hs !! j) ∧
    nSteppers hs' = nSteppers hs.
Proof.
  intros Hck Hst Hn HN.
  destruct (setStepperStep_loop_returns _ hs n steps_to_move eq_refl Hck Hn HN)
    as (hs' & frs & [f0 Hr] & Ht & HN' & _).
  exists hs', frs. split; [|split; [|split; [|split]]].
  - exists f0. intros fuel Hf. unfold setStepperStep.
    destruct (Z.ltb_spec n (nSteppers hs)); [|lia]. by apply Hr.
  - intros c Hc. rewrite Ht, list_lookup_alter_eq, Hc. simpl. f_equal. lia.
  - apply lookup_lt_is_Some. unfold storage_ok in Hst. lia.
  - intros j Hj. rewrite Ht. by apply list_lookup_alter_ne.
  - done.
Qed.

(** With 65535 steppers a frame that works with the full length never
    ends: [i <= length] cannot fail for a [uint16_t]. *)
Lemma step_full_length_diverges (fuel : nat) (hs : Hundred_Steppers) (len : Z) :
  nSteppers hs = 65535 → frame_length hs len = 65535 →
  step fuel hs len = None.
Proof.
  intros HN Hlen. unfold step.
  destruct (wait_step_delay fuel hs) as [hs1|] eqn:Hw; [|done]. simpl.
  apply wait_step_delay_inv in Hw as (k & _ & _ & ->).
  change (frame_length _ len) with (frame_length hs len). rewrite Hlen.
  rewrite for_uint16_le_max_diverges by lia. done.
Qed.

(** ** One pass over the caller's list *)

Lemma uint16_t_range (z : Z) : 0 ≤ uint16_t z < 65536.
Proof. unfold uint16_t. apply Z.mod_pos_bound. lia. Qed.

Lemma uint16_t_small (z : Z) : 0 ≤ z < 65536 → uint16_t z = z.
Proof. unfold uint16_t. apply Z.mod_small. Qed.

Lemma uint16_t_succ (z : Z) : uint16_t (uint16_t z + 1) = uint16_t (z + 1).
Proof. unfold uint16_t. apply Zplus_mod_idemp_l. Qed.

Lemma list_pass_S (n : nat) (st : pass_state) :
  list_pass (Z.of_nat (S n)) st = list_pass_body (Z.of_nat n) (list_pass (Z.of_nat n) st).
Proof. unfold list_pass. rewrite seqZ_S, foldl_snoc. done. Qed.

Lemma list_pass_inv (D T : list Z) (z : Z) (n : nat) :
  0 ≤ z < 65536 → (n ≤ length D)%nat →
  ∃ (D' T' : list Z) (z' mc : Z),
    list_pass (Z.of_nat n) (D, T, z, 0) = (D', T', z', mc) ∧
    length D' = length D ∧ length T' = length T ∧
    (∀ i : nat, (n ≤ i)%nat → D' !! i = D !! i ∧ T' !! i = T !! i) ∧
    (∀ (i : nat) (d : Z), (i < n)%nat → D !! i = Some d →
       D' !! i = Some (toward_zero d) ∧
       T' !! i = Z.add (unit_step d) <$> T !! i) ∧
    0 ≤ z' < 65536 ∧
    ((∀ (i : nat) (d : Z), (i < n)%nat → D !! i = Some d → d = 0) →
       z' = uint16_t (z + Z.of_nat n)) ∧
    0 ≤ mc < Z.max (Z.of_nat n) 1.
Proof.
  intros Hz. induction n as [|n IH]; intros Hn.
  - exists D, T, z, 0. repeat split; try done; try lia.
    intros _. rewrite Z.add_0_r. symmetry. by apply uint16_t_small.
  - destruct IH as (D1 & T1 & z1 & mc1 & Hp & HlD & HlT & Hrest & Hdone & Hz1 & Hzero & Hmc);
      [lia|].
    destruct (lookup_lt_is_Some_2 D n) as [d Hd]; [lia|].
    destruct (Hrest n) as [HDn HTn]; [lia|].
    rewrite list_pass_S, Hp. unfold list_pass_body.
    rewrite Nat2Z.id, HDn, Hd.
    assert (∀ f : Z → Z, (∀ x, f x = unit_step d + x) → ∀ i : nat, ∀ d0 : Z,
              (i < S n)%nat → D !! i = Some d0 →
              alter f n T1 !! i = Z.add (unit_step d0) <$> T !! i) as HT.
    { intros f Hf i d0 Hi Hd0. destruct (decide (i = n)) as [->|Hne].
      - rewrite list_lookup_alter_eq, HTn.
        assert (d0 = d) as -> by congruence.
        destruct (T !! n); simpl; [|done]. by rewrite Hf.
      - rewrite list_lookup_alter_ne by done. apply Hdone; [lia|done]. }
    assert (∀ x : Z, x = toward_zero d → ∀ i : nat, ∀ d0 : Z,
              (i < S n)%nat → D !! i = Some d0 →
              <[n:=x]> D1 !! i = Some (toward_zero d0)) as HD.
    { intros x -> i d0 Hi Hd0. destruct (decide (i = n)) as [->|Hne].
      - rewrite list_lookup_insert_eq by lia. congruence.
      - rewrite list_lookup_insert_ne by done. apply Hdone; [lia|done]. }
    assert (∀ x i, (S n ≤ i)%nat → <[n:=x]> D1 !! i = D !! i) as HDrest.
    { intros x i Hi. rewrite list_lookup_insert_ne by lia. apply Hrest. lia. }
    assert (∀ f i, (S n ≤ i)%nat → alter f n T1 !! i = T !! i) as HTrest.
    { intros f i Hi. rewrite list_lookup_alter_ne by lia. apply Hrest. lia. }
    destruct (Z.gtb_spec d 0) as [Hpos|Hnpos]; [|destruct (Z.ltb_spec d 0) as [Hneg|Hnneg]].
    + eexists _, _, _, _. split; [done|].
      rewrite length_insert, length_alter.
      split; [done|]. split; [done|]. split; [by auto|]. split.
      { intros i d0 Hi Hd0. split.
        - apply HD; [|done|done]. unfold toward_zero.
          destruct (Z.gtb_spec d 0); lia.
        - apply HT; [|done|done]. intros x. unfold unit_step.
          destruct (Z.gtb_spec d 0); lia. }
      split; [done|]. split; [|lia].
      intros Hall. specialize (Hall n d ltac:(lia) Hd). lia.
    + eexists _, _, _, _. split; [done|].
      rewrite length_insert, length_alter.
      split; [done|]. split; [done|]. split; [by auto|]. split.
      { intros i d0 Hi Hd0. split.
        - apply HD; [|done|done]. unfold toward_zero.
          destruct (Z.gtb_spec d 0); [lia|]. destruct (Z.ltb_spec d 0); lia.
        - apply HT; [|done|done]. intros x. unfold unit_step.
          destruct (Z.gtb_spec d 0); [lia|]. destruct (Z.ltb_spec d 0); lia. }
      split; [done|]. split; [|lia].
      intros Hall. specialize (Hall n d ltac:(lia) Hd). lia.
    + assert (d = 0) as Hd0 by lia.
      eexists _, _, _, _. split; [done|].
      split; [done|]. split; [done|]. split.
      { intros i Hi. apply Hrest. lia. }
      split.
      { intros i d0 Hi Hdi. destruct (decide (i = n)) as [->|Hne].
        - assert (d0 = 0) as -> by congruence.
          rewrite HDn, HTn, Hd, Hd0. split; [done|].
          destruct (T !! n); done.
        - apply Hdone; [lia|done]. }
      split; [apply uint16_t_range|]. split; [|lia].
      intros Hall. rewrite Hzero.
      * rewrite uint16_t_succ. f_equal. lia.
      * intros i d0 Hi. apply Hall. lia.
Qed.

Lemma list_pass_returns (fuel : nat) (len : Z) (st : pass_state) :
  0 ≤ len ≤ 65535 → (Z.to_nat len < fuel)%nat →
  for_uint16 fuel (λ i, i <? len) list_pass_body 0 st = Some (list_pass len st).
Proof.
  intros Hlen Hf.
  assert ((len <? len) = false) as Hstop by (apply Z.ltb_ge; lia).
  assert (∀ j, 0 ≤ j < len → (j <? len) = true) as Hgo
    by (intros; apply Z.ltb_lt; lia).
  rewrite (for_uint16_spec (λ i, i <? len) _ len) with (n := Z.to_nat len)
    by (done || lia).
  unfold list_pass. by rewrite Z2Nat.id by lia.
Qed.

Lemma toward_zero_unit (d : Z) :
  toward_zero d + unit_step d = d ∧
  (0 ≤ toward_zero d ≤ d ∨ d ≤ toward_zero d ≤ 0) ∧
  Z.abs (toward_zero d) = Z.max (Z.abs d - 1) 0.
Proof.
  unfold toward_zero, unit_step.
  destruct (Z.gtb_spec d 0); [lia|]. destruct (Z.ltb_spec d 0); lia.
Qed.

Lemma tracks_refl (D T : list Z) : tracks D T D T.
Proof.
  repeat split; try done. intros i d c Hd Hc. exists d, c.
  repeat split; try done. lia.
Qed.

Lemma tracks_trans (D0 T0 D1 T1 D2 T2 : list Z) :
  tracks D0 T0 D1 T1 → tracks D1 T1 D2 T2 → tracks D0 T0 D2 T2.
Proof.
  intros (HlD & HlT & Hr & H) (HlD' & HlT' & Hr' & H').
  split; [congruence|]. split; [congruence|]. split.
  - intros i Hi. rewrite Hr' by lia. by apply Hr.
  - intros i d c Hd Hc.
    destruct (H i d c Hd Hc) as (d1 & c1 & Hd1 & Hc1 & Hsum & Hdir).
    destruct (H' i d1 c1 Hd1 Hc1) as (d2 & c2 & Hd2 & Hc2 & Hsum' & Hdir').
    exists d2, c2. repeat split; try done; lia.
Qed.

(** What a whole pass does to the deltas, the counters and [zero_num]. *)
Lemma list_pass_whole (D T : list Z) (z : Z) :
  0 ≤ z < 65536 →
  ∃ (D' T' : list Z) (z' mc : Z),
    list_pass (Z.of_nat (length D)) (D, T, z, 0) = (D', T', z', mc) ∧
    tracks D T D' T' ∧
    (∀ m : Z, 0 ≤ m → Forall (λ d, Z.abs d ≤ m + 1) D → Forall (λ d, Z.abs d ≤ m) D') ∧
    (Forall (λ d, d = 0) D → D' = D ∧ T' = T ∧ z' = uint16_t (z + Z.of_nat (length D))) ∧
    0 ≤ z' < 65536 ∧ 0 ≤ mc < Z.max (Z.of_nat (length D)) 1.
Proof.
  intros Hz.
  destruct (list_pass_inv D T z (length D) Hz (le_n _))
    as (D' & T' & z' & mc & Hp & HlD & HlT & Hrest & Hdone & Hz' & Hzero & Hmc).
  exists D', T', z', mc. split; [done|]. split; [|split; [|split; [|done]]].
  - split; [done|]. split; [done|]. split; [intros i Hi; by apply Hrest|].
    intros i d c Hd Hc.
    destruct (Hdone i d (lookup_lt_Some _ _ _ Hd) Hd) as [HD' HT'].
    exists (toward_zero d), (unit_step d + c).
    rewrite HD', HT', Hc. pose proof (toward_zero_unit d).
    repeat split; try done; lia.
  - intros m Hm Hall. apply Forall_lookup_2. intros i d' Hd'.
    destruct (lookup_lt_is_Some_2 D i) as [d Hd].
    { rewrite <- HlD. by eapply lookup_lt_Some. }
    destruct (Hdone i d (lookup_lt_Some _ _ _ Hd) Hd) as [HD' _].
    pose proof (Forall_lookup_1 _ _ _ _ Hall Hd) as Hb. simpl in Hb.
    pose proof (toward_zero_unit d).
    assert (d' = toward_zero d) as -> by congruence. lia.
  - intros Hall.
    assert (∀ (i : nat) (d : Z), D !! i = Some d → d = 0) as Hall'
      by (intros i d Hd; apply (Forall_lookup_1 _ _ _ _ Hall Hd)).
    split; [|split].
    + apply list_eq. intros i. destruct (D !! i) as [d|] eqn:Hd.
      * destruct (Hdone i d (lookup_lt_Some _ _ _ Hd) Hd) as [-> _].
        by rewrite (Hall' i d Hd).
      * destruct (Hrest i) as [-> _]; [|done]. by apply lookup_ge_None.
    + apply list_eq. intros i. destruct (D !! i) as [d|] eqn:Hd.
      * destruct (Hdone i d (lookup_lt_Some _ _ _ Hd) Hd) as [_ ->].
        rewrite (Hall' i d Hd). by destruct (T !! i).
      * destruct (Hrest i) as [_ ->]; [|done]. by apply lookup_ge_None.
    + apply Hzero. intros i d _. apply Hall'.
Qed.

(** ** The loop of the list overload *)

Lemma list_loop_exit (hs : Hundred_Steppers) (D : list Z) (z len : Z) :
  len ≤ z →
  returns (λ fuel, setStepperStep_list_loop fuel hs D z len) (hs, D, []).
Proof.
  intros Hz. exists 1%nat. intros [|fuel] Hf; [lia|]. simpl.
  destruct (Z.ltb_spec z len); [lia|done].
Qed.

Lemma list_loop_once (hs hs2 hs3 : Hundred_Steppers) (D D1 T1 D3 : list Z)
    (z z1 mc len : Z) (fr : frame) (frs : list frame) :
  z < len → 0 ≤ len ≤ 65535 →
  list_pass len (D, step_table hs, z, 0) = (D1, T1, z1, mc) →
  returns (λ fuel, step fuel (set_step_table hs T1) mc) (hs2, fr) →
  returns (λ fuel, setStepperStep_list_loop fuel hs2 D1 z1 len) (hs3, D3, frs) →
  returns (λ fuel, setStepperStep_list_loop fuel hs D z len) (hs3, D3, fr :: frs).
Proof.
  intros Hz Hlen Hp [f1 Hs] [f2 Hl].
  exists (S ((f1 `max` f2) `max` S (Z.to_nat len))). intros [|fuel] Hf; [lia|].
  simpl. destruct (Z.ltb_spec z len); [|lia].
  rewrite list_pass_returns, Hp by lia. simpl.
  rewrite Hs by lia. simpl. rewrite Hl by lia. done.
Qed.

Lemma set_step_table_same (hs : Hundred_Steppers) :
  set_step_table hs (step_table hs) = hs.
Proof. by destruct hs. Qed.

Lemma list_loop_zero_returns (w : nat) :
  ∀ (hs : Hundred_Steppers) (D : list Z) (z : Z),
    0 ≤ z ≤ Z.of_nat w → z < 65536 → Forall (λ d, d = 0) D →
    clock_ok (step_delay hs) →
    Z.of_nat (length D) ≤ nSteppers hs → nSteppers hs < 65535 →
    ∃ (hs' : Hundred_Steppers) (frs : list frame),
      returns (λ fuel, setStepperStep_list_loop fuel hs D z (Z.of_nat (length D)))
        (hs', D, frs) ∧
      step_table hs' = step_table hs ∧ nSteppers hs' = nSteppers hs ∧
      (Z.of_nat (length D) ≤ z → frs = []) ∧
      (z < Z.of_nat (length D) → (1 ≤ length frs)%nat) ∧
      (z < Z.of_nat (length D) → z + Z.of_nat (length D) < 65536 → length frs = 1%nat).
Proof.
  induction w as [w IH] using lt_wf_ind. intros hs D z Hz Hz' Hall Hck Hlen HN.
  destruct (Z.le_gt_cases (Z.of_nat (length D)) z) as [Hge|Hlt].
  { exists hs, []. split; [by apply list_loop_exit|].
    repeat split; try done; lia. }
  destruct (list_pass_whole D (step_table hs) z) as
    (D1 & T1 & z1 & mc & Hp & _ & _ & Hzero & Hz1 & Hmc); [lia|].
  destruct (Hzero Hall) as (-> & -> & ->).
  destruct (step_returns (set_step_table hs (step_table hs)) mc)
    as (k & _ & _ & Hstep).
  { done. }
  { apply frame_length_range; simpl; lia. }
  rewrite set_step_table_same in Hstep.
  destruct (Z.lt_ge_cases (z + Z.of_nat (length D)) 65536) as [Hsmall|Hwrap].
  - rewrite uint16_t_small in Hp by lia.
    eexists _, [_]. split.
    { eapply list_loop_once; [done|lia|done|by rewrite set_step_table_same|].
      apply list_loop_exit. lia. }
    repeat split; try done; simpl; lia.
  - assert (uint16_t (z + Z.of_nat (length D)) = z + Z.of_nat (length D) - 65536) as Hu.
    { unfold uint16_t. symmetry. apply (Z.mod_unique _ _ 1); lia. }
    rewrite Hu in Hp, Hz1.
    destruct (IH (Z.to_nat (z + Z.of_nat (length D) - 65536)) ltac:(lia)
                (after_step hs (S k)) D (z + Z.of_nat (length D) - 65536))
      as (hs' & frs & Hl & Ht & HN' & _ & Hone & _); try done; try lia.
    exists hs', (mkFrame (S k) (frame_slots hs (frame_length hs mc)) :: frs). split.
    { eapply list_loop_once; [done|lia|done|by rewrite set_step_table_same|done]. }
    repeat split; try done; simpl; lia.
Qed.

Lemma list_loop_returns (m : nat) :
  ∀ (hs : Hundred_Steppers) (D : list Z) (z : Z),
    Forall (λ d, Z.abs d ≤ Z.of_nat m) D → 0 ≤ z < 65536 →
    clock_ok (step_delay hs) →
    Z.of_nat (length D) ≤ nSteppers hs → nSteppers hs < 65535 →
    ∃ (hs' : Hundred_Steppers) (D' : list Z) (frs : list frame),
      returns (λ fuel, setStepperStep_list_loop fuel hs D z (Z.of_nat (length D)))
        (hs', D', frs) ∧
      tracks D (step_table hs) D' (step_table hs') ∧
      nSteppers hs' = nSteppers hs ∧
      (z < Z.of_nat (length D) → (1 ≤ length frs)%nat) ∧
      (2 * Z.of_nat (length D) ≤ 65536 → (length frs ≤ m + 1)%nat).
Proof.
  induction m as [|m IH]; intros hs D z Hall Hz Hck Hlen HN.
  - assert (Forall (λ d, d = 0) D) as Hall0.
    { eapply Forall_impl; [exact Hall|]. simpl. lia. }
    destruct (list_loop_zero_returns (Z.to_nat z) hs D z)
      as (hs' & frs & Hl & Ht & HN' & Hnone & Hone & Hexact); try done; try lia.
    exists hs', D, frs. split; [done|]. split; [|split; [done|split; [done|]]].
    + rewrite Ht. apply tracks_refl.
    + intros Hsmall. destruct (Z.le_gt_cases (Z.of_nat (length D)) z) as [Hge|Hlt].
      * rewrite Hnone by done. simpl. lia.
      * rewrite Hexact by lia. lia.
  - destruct (Z.le_gt_cases (Z.of_nat (length D)) z) as [Hge|Hlt].
    { exists hs, D, []. split; [by apply list_loop_exit|].
      split; [apply tracks_refl|]. repeat split; try done; simpl; lia. }
    destruct (list_pass_whole D (step_table hs) z) as
      (D1 & T1 & z1 & mc & Hp & Htr & Hdec & _ & Hz1 & Hmc); [lia|].
    pose proof Htr as (HlD & HlT & _).
    destruct (step_returns (set_step_table hs T1) mc) as (k & _ & _ & Hstep).
    { done. }
    { apply frame_length_range; simpl; lia. }
    destruct (IH (after_step (set_step_table hs T1) (S k)) D1 z1)
      as (hs' & D' & frs & Hl & Htr' & HN' & _ & Hbound); try done.
    { apply Hdec; [lia|]. eapply Forall_impl; [exact Hall|]. simpl. lia. }
    { simpl. lia. }
    rewrite HlD in Hl, Hbound.
    eexists hs', D', (_ :: frs). split.
    { eapply list_loop_once; [done|lia|done|done|done]. }
    split; [by eapply tracks_trans|]. split; [done|].
    split; simpl; [lia|]. intros Hsmall. specialize (Hbound Hsmall). lia.
Qed.

(** ** The frame transmitter *)

Lemma descending_window (n : nat) :
  (λ i, Z.of_nat n - 1 - i) <$> seqZ 0 (Z.of_nat n) = reverse (seqZ 0 (Z.of_nat n)).
Proof.
  apply list_eq. intros i. rewrite list_lookup_fmap.
  destruct (decide (i < n)%nat) as [Hi|Hi].
  - rewrite reverse_lookup by (rewrite length_seqZ; lia).
    rewrite length_seqZ, !lookup_seqZ_lt by lia. simpl. f_equal. lia.
  - rewrite lookup_seqZ_ge by lia.
    symmetry. apply lookup_ge_None. rewrite length_reverse, length_seqZ. lia.
Qed.

Lemma frame_slots_descending (hs : Hundred_Steppers) (len : Z) :
  0 ≤ len →
  frame_slots hs len = shift_slot hs <$> reverse (seqZ 0 (len + 1)).
Proof.
  intros Hlen. unfold frame_slots.
  replace (len + 1) with (Z.of_nat (Z.to_nat (len + 1))) by lia.
  rewrite <- descending_window, <- list_fmap_compose.
  apply list_fmap_ext. intros _ i _. simpl. f_equal. lia.
Qed.

Lemma frame_slots_motor (hs : Hundred_Steppers) (len : Z) :
  0 ≤ len → motor <$> frame_slots hs len = reverse (seqZ 0 (len + 1)).
Proof.
  intros Hlen. rewrite frame_slots_descending by done.
  generalize (reverse (seqZ 0 (len + 1))). intros l.
  induction l as [|x l IH]; [done|]. csimpl. by f_equal.
Qed.

(** C3 (as amended): [step] replaces a [length] of 0 or above the motor count
    by the motor count, and for [0 < length < nSteppers] it returns after
    one call of [fastShiftOut] for each of the motors [length], [length - 1],
    ..., [0], in that order: [length + 1] phase bytes, each read at an index
    inside the storage. *)
Theorem step_window (hs : Hundred_Steppers) (len : Z) :
  clock_ok (step_delay hs) → nSteppers hs ≤ 65535 →
  (len = 0 ∨ nSteppers hs < len → frame_length hs len = nSteppers hs) ∧
  (0 < len < nSteppers hs →
   ∃ (hs' : Hundred_Steppers) (fr : frame),
     returns (λ fuel, step fuel hs len) (hs', fr) ∧
     slots fr = shift_slot hs <$> reverse (seqZ 0 (len + 1)) ∧
     motor <$> slots fr = reverse (seqZ 0 (len + 1)) ∧
     Z.of_nat (length (slots fr)) = len + 1 ∧
     Forall (λ s, 0 ≤ motor s < nSteppers hs) (slots fr)).
Proof.
  intros Hck HN. split.
  - intros Hlen. unfold frame_length.
    destruct (Z.eqb_spec len 0); [done|].
    destruct (Z.gtb_spec len (nSteppers hs)); [done|lia].
  - intros Hlen.
    assert (frame_length hs len = len) as Hfl.
    { unfold frame_length. destruct (Z.eqb_spec len 0); [lia|].
      destruct (Z.gtb_spec len (nSteppers hs)); [lia|done]. }
    destruct (step_returns hs len Hck) as (k & _ & _ & Hstep); [lia|].
    rewrite Hfl in Hstep.
    eexists _, _. split; [exact Hstep|]. simpl.
    split; [by apply frame_slots_descending; lia|].
    split; [by apply frame_slots_motor; lia|].
    split.
    + unfold frame_slots. rewrite length_fmap, length_seqZ. lia.
    + apply (proj1 (Forall_fmap motor (λ i, 0 ≤ i < nSteppers hs) _)).
      rewrite frame_slots_motor by lia.
      apply Forall_reverse, Forall_seqZ. lia.
Qed.

(** C4: a [length] of 0 or above the motor count makes [step] work with
    [nSteppers], and its first read is then [step_table[nSteppers]], one
    past the storage: no defined counter is there to take a phase from. *)
Theorem step_reads_past_storage (hs : Hundred_Steppers) (len : Z) :
  clock_ok (step_delay hs) → storage_ok hs → nSteppers hs < 65535 →
  len = 0 ∨ nSteppers hs < len →
  ∃ (hs' : Hundred_Steppers) (fr : frame),
    returns (λ fuel, step fuel hs len) (hs', fr) ∧
    slots fr !! 0%nat = Some (mkSlot (nSteppers hs) None None) ∧
    ¬ Forall (λ s, 0 ≤ motor s < nSteppers hs) (slots fr).
Proof.
  intros Hck Hst HN Hlen.
  assert (0 ≤ nSteppers hs) as HN0 by (unfold storage_ok in Hst; lia).
  assert (frame_length hs len = nSteppers hs) as Hfl.
  { unfold frame_length. destruct (Z.eqb_spec len 0); [done|].
    destruct (Z.gtb_spec len (nSteppers hs)); [done|lia]. }
  destruct (step_returns hs len Hck) as (k & _ & _ & Hstep); [lia|].
  rewrite Hfl in Hstep.
  assert (frame_slots hs (nSteppers hs) !! 0%nat
          = Some (mkSlot (nSteppers hs) None None)) as Hfirst.
  { unfold frame_slots. rewrite list_lookup_fmap, lookup_seqZ_lt by lia. simpl.
    unfold shift_slot, read_step_table. rewrite Z.sub_0_r.
    destruct (Z.ltb_spec (nSteppers hs) 0); [lia|].
    rewrite (proj2 (lookup_ge_None _ _)); [done|].
    unfold storage_ok in Hst. lia. }
  eexists _, _. split; [exact Hstep|]. simpl. split; [done|].
  intros Hall. pose proof (Forall_lookup_1 _ _ _ _ Hall Hfirst) as Hb.
  simpl in Hb. lia.
Qed.

(** C5: one step backwards from a counter at zero leaves [-1] in the
    counter; C's [%] keeps the sign, so the frame that follows indexes
    [cmd_list] at [-1], before the table, and no phase byte is defined. *)
Theorem negative_counter_phase (hs : Hundred_Steppers) (n : Z) :
  clock_ok (step_delay hs) → 0 < n < nSteppers hs → nSteppers hs < 65535 →
  step_table hs !! Z.to_nat n = Some 0 → 1 < driver_mode →
  ∃ (hs' : Hundred_Steppers) (fr : frame),
    returns (λ fuel, setStepperStep fuel hs n (-1)) (hs', [fr]) ∧
    step_table hs' !! Z.to_nat n = Some (-1) ∧
    slots fr !! 0%nat = Some (mkSlot n (Some (-1)) None).
Proof.
  intros Hck Hn HN Hc Hdm.
  set (hs1 := set_step_table hs (alter Z.pred (Z.to_nat n) (step_table hs))).
  assert (frame_length hs1 n = n) as Hfl.
  { unfold frame_length. destruct (Z.eqb_spec n 0); [lia|]. simpl.
    destruct (Z.gtb_spec n (nSteppers hs)); [lia|done]. }
  destruct (step_returns hs1 n Hck) as (k & _ & _ & f1 & Hstep).
  { rewrite Hfl. lia. }
  rewrite Hfl in Hstep.
  eexists _, _. split; [|split].
  - exists (S (S f1)). intros [|fuel] Hf; [lia|].
    unfold setStepperStep. destruct (Z.ltb_spec n (nSteppers hs)); [|lia].
    simpl. fold hs1. rewrite Hstep by lia. simpl.
    destruct fuel as [|fuel]; [lia|]. simpl. reflexivity.
  - simpl. by rewrite list_lookup_alter_eq, Hc.
  - simpl. unfold frame_slots.
    rewrite list_lookup_fmap, lookup_seqZ_lt by lia. simpl.
    unfold shift_slot, read_step_table. rewrite Z.sub_0_r. simpl.
    destruct (Z.ltb_spec n 0); [lia|].
    rewrite list_lookup_alter_eq, Hc. simpl.
    change (Z.pred 0) with (-1).
    assert (Z.rem (-1) driver_mode = -1) as ->.
    { change (-1) with (- (1)). rewrite Z.rem_opp_l by lia.
      rewrite Z.rem_small by lia. done. }
    done.
Qed.

(** ** The timing gate across calls *)

Lemma clock_monotone_le (j k : nat) :
  clock_monotone → (j ≤ k)%nat → clock j ≤ clock k.
Proof.
  intros Hm Hjk. induction Hjk as [|k _ IH]; [lia|].
  specialize (Hm k). lia.
Qed.

Lemma gate_open_spacing (hs : Hundred_Steppers) (j k : nat) :
  clock_monotone → (j ≤ k)%nat →
  last_step_time hs = ulong (clock j) → gate_open hs k →
  clock j + step_delay hs ≤ clock k.
Proof.
  intros Hm Hjk Hw Hg. unfold gate_open in Hg. rewrite Hw, ulong_sub_ulong in Hg.
  pose proof (clock_monotone_le j k Hm Hjk) as Hle.
  assert (ulong (clock k - ulong (clock j)) = ulong (clock k - clock j)) as Hu.
  { unfold ulong. apply Zminus_mod_idemp_r. }
  rewrite Hu in Hg. unfold ulong in Hg.
  pose proof (Z.mod_le (clock k - clock j) 4294967296). lia.
Qed.

Lemma last_stamp_cons (prev : nat) (fr : frame) (frs : list frame) :
  last_stamp prev (fr :: frs) = last_stamp (stamp fr) frs.
Proof.
  unfold last_stamp. destruct frs as [|fr' frs]; [done|].
  change (last (fr :: fr' :: frs)) with (last (fr' :: frs)).
  destruct (last (fr' :: frs)) eqn:E; [done|].
  by apply last_None in E.
Qed.

Lemma step_calls_spaced (fuel : nat) (lens : list Z) :
  clock_monotone →
  ∀ (hs hs' : Hundred_Steppers) (frs : list frame) (j : nat),
    (j < ticks hs)%nat → last_step_time hs = ulong (clock j) →
    step_calls fuel hs lens = Some (hs', frs) →
    spaced (step_delay hs) j frs ∧
    length frs = length lens ∧
    last_step_time hs' = ulong (clock (last_stamp j frs)) ∧
    step_delay hs' = step_delay hs.
Proof.
  intros Hm. induction lens as [|len lens IH]; intros hs hs' frs j Hj Hw H.
  - simpl in H. injection H as <- <-. done.
  - simpl in H.
    destruct (step fuel hs len) as [[hs1 fr]|] eqn:Hs; [|done]. simpl in H.
    destruct (step_calls fuel hs1 lens) as [[hs2 frs']|] eqn:Hc; [|done].
    simpl in H. injection H as <- <-.
    apply step_inv in Hs as (k & Hk & Hg & -> & Hst).
    destruct (IH (after_step hs (S k)) hs2 frs' (S k)) as (Hsp & Hl & Hlast & Hd);
      [simpl; lia|done|done|].
    simpl in Hsp, Hd. split; [|split; [|split]].
    + simpl. rewrite Hst. split; [lia|]. split; [|done].
      pose proof (gate_open_spacing hs j k Hm ltac:(lia) Hw Hg).
      specialize (Hm k). lia.
    + simpl. by rewrite Hl.
    + rewrite Hlast, last_stamp_cons, Hst. done.
    + done.
Qed.

(** C9: whatever frames a caller asks for, each call of [step] leaves its
    busy-wait only at a reading of the clock at least [step_delay] after the
    reading held in [last_step_time], and then stores a new reading there.
    So the readings stored by two consecutive frames are at least
    [step_delay] microseconds apart, from the first frame on in any driver,
    and from the reading that the driver holds when the calls begin. *)
Theorem step_spacing (fuel : nat) (hs hs' : Hundred_Steppers) (lens : list Z)
    (frs : list frame) :
  clock_monotone →
  step_calls fuel hs lens = Some (hs', frs) →
  length frs = length lens ∧
  (∀ (fr : frame) (frs' : list frame), frs = fr :: frs' →
     spaced (step_delay hs) (stamp fr) frs' ∧
     last_step_time hs' = ulong (clock (last_stamp (stamp fr) frs'))) ∧
  (∀ j : nat, (j < ticks hs)%nat → last_step_time hs = ulong (clock j) →
     spaced (step_delay hs) j frs).
Proof.
  intros Hm H. split; [|split].
  - revert hs frs H. induction lens as [|len lens IH]; intros hs frs H; simpl in H.
    + by injection H as <- <-.
    + destruct (step fuel hs len) as [[hs1 fr]|]; [|done]. simpl in H.
      destruct (step_calls fuel hs1 lens) as [[hs2 frs']|] eqn:Hc; [|done].
      simpl in H. injection H as <- <-. simpl. f_equal. by eapply IH.
  - intros fr frs' ->. destruct lens as [|len lens]; simpl in H; [done|].
    destruct (step fuel hs len) as [[hs1 fr1]|] eqn:Hs; [|done]. simpl in H.
    destruct (step_calls fuel hs1 lens) as [[hs2 frs2]|] eqn:Hc; [|done].
    simpl in H. injection H as <- <- <-.
    apply step_inv in Hs as (k & Hk & Hg & -> & Hst).
    destruct (step_calls_spaced fuel lens Hm (after_step hs (S k)) hs2 frs2 (S k))
      as (Hsp & _ & Hlast & _); [simpl; lia|done|done|].
    rewrite Hst. done.
  - intros j Hj Hw.
    by destruct (step_calls_spaced fuel lens Hm hs hs' frs j Hj Hw H) as (Hsp & _).
Qed.

(** ** The list overload *)

Lemma max_abs_bound (l : list Z) :
  0 ≤ max_abs l ∧ Forall (λ d, Z.abs d ≤ max_abs l) l.
Proof.
  induction l as [|d l [IH0 IH]]; simpl; [split; [lia|constructor]|].
  split; [lia|]. constructor; [lia|].
  eapply Forall_impl; [exact IH|]. simpl. lia.
Qed.

Lemma list_length_guard (hs : Hundred_Steppers) (D : list Z) :
  Z.of_nat (length D) ≤ nSteppers hs → nSteppers hs < 65535 →
  (if uint16_t (arrayLen D) >? nSteppers hs then nSteppers hs
   else uint16_t (arrayLen D)) = Z.of_nat (length D).
Proof.
  intros Hlen HN. unfold arrayLen. rewrite uint16_t_small by lia.
  destruct (Z.gtb_spec (Z.of_nat (length D)) (nSteppers hs)); [lia|done].
Qed.

(** C6 (as amended): the list overload sends one frame per pass of its
    loop.  For a list of at least one delta it sends at least one frame,
    exactly one when every delta is zero, and (for lists of at most 32768
    deltas) at most [max |D[i]| + 1]: the pass that finds the remaining
    deltas at zero sends a frame as well. *)
Theorem setStepperStep_list_frames (hs : Hundred_Steppers) (D : list Z) :
  clock_ok (step_delay hs) →
  1 ≤ Z.of_nat (length D) ≤ nSteppers hs → nSteppers hs < 65535 →
  ∃ (hs' : Hundred_Steppers) (D' : list Z) (frs : list frame),
    returns (λ fuel, setStepperStep_list fuel hs D) (hs', D', frs) ∧
    (1 ≤ length frs)%nat ∧
    (2 * Z.of_nat (length D) ≤ 65536 → Z.of_nat (length frs) ≤ max_abs D + 1) ∧
    (Forall (λ d, d = 0) D → length frs = 1%nat).
Proof.
  intros Hck Hlen HN. unfold setStepperStep_list.
  rewrite list_length_guard by lia.
  destruct (decide (Forall (λ d, d = 0) D)) as [Hall|Hnot].
  - destruct (list_loop_zero_returns 0 hs D 0)
      as (hs' & frs & Hl & _ & _ & _ & Hone & Hexact); try done; try lia.
    exists hs', D, frs. split; [done|]. split; [apply Hone; lia|].
    pose proof (max_abs_bound D) as [H0 _].
    rewrite Hexact by lia. split; [lia|done].
  - pose proof (max_abs_bound D) as [H0 Hb].
    destruct (list_loop_returns (Z.to_nat (max_abs D)) hs D 0)
      as (hs' & D' & frs & Hl & _ & _ & Hone & Hbound); try done; try lia.
    { eapply Forall_impl; [exact Hb|]. simpl. lia. }
    exists hs', D', frs. split; [done|]. split; [apply Hone; lia|].
    split; [|done]. intros Hsmall. specialize (Hbound Hsmall). lia.
Qed.

(** ** The single-motor move at the largest motor count *)

(** C8: with 65535 steppers, a move of motor 0 never returns: its first
    frame is [step(0)], which works with the length 65535, and the loop
    [for (uint16_t i = 0; i <= length; i++)] cannot end. *)
Theorem setStepperStep_spins (fuel : nat) (hs : Hundred_Steppers) (steps_to_move : Z) :
  nSteppers hs = 65535 → steps_to_move ≠ 0 →
  setStepperStep fuel hs 0 steps_to_move = None.
Proof.
  intros HN Hs. unfold setStepperStep.
  destruct (Z.ltb_spec 0 (nSteppers hs)); [|lia].
  destruct fuel as [|fuel]; [done|]. simpl.
  destruct (Z.eqb_spec steps_to_move 0); [done|].
  destruct (steps_to_move >? 0).
  - rewrite step_full_length_diverges; [done|by simpl|].
    unfold frame_length. simpl. done.
  - rewrite step_full_length_diverges; [done|by simpl|].
    unfold frame_length. simpl. done.
Qed.

(** ** Changing the number of steppers *)

(** C10: when the allocation succeeds, [setStepperNum(n)] returns [true],
    [getStepperNum] then gives [n] and the storage is [n] zeroed counters;
    when it fails, [setStepperNum(n)] returns [false] and the driver, its
    motor count and its storage are as before. *)
Theorem setStepperNum_spec (hs : Hundred_Steppers) (n : Z) :
  (fst (setStepperNum true hs n) = true ∧
   getStepperNum (snd (setStepperNum true hs n)) = n ∧
   step_table (snd (setStepperNum true hs n)) = replicate (Z.to_nat n) 0 ∧
   length (step_table (snd (setStepperNum true hs n))) = Z.to_nat n) ∧
  (fst (setStepperNum false hs n) = false ∧
   snd (setStepperNum false hs n) = hs ∧
   getStepperNum (snd (setStepperNum false hs n)) = getStepperNum hs ∧
   step_table (snd (setStepperNum false hs n)) = step_table hs).
Proof.
  unfold setStepperNum, calloc, getStepperNum. simpl.
  repeat split. apply length_replicate.
Qed.

(** * Further properties of the driver *)

(** ** Bits of the port registers *)

Lemma testbit_uint8 (x b : Z) :
  Z.testbit (uint8_t x) b = (b <? 8) && Z.testbit x b.
Proof. unfold uint8_t. change 256 with (2 ^ 8). by apply Z.testbit_mod_pow2. Qed.

Lemma byte_bit_low (m b : Z) : 0 ≤ m < 256 → Z.testbit m b = true → b < 8.
Proof.
  intros Hm Hb. destruct (Z.lt_ge_cases b 8) as [|Hge]; [done|].
  rewrite <- (Z.mod_small m 256) in Hb by lia. change 256 with (2 ^ 8) in Hb.
  rewrite Z.mod_pow2_bits_high in Hb by lia. done.
Qed.

Lemma land_bit_test (v i : Z) :
  0 ≤ i → (Z.land v (Z.shiftl 1 i) =? 0) = negb (Z.testbit v i).
Proof.
  intros Hi. rewrite Z.shiftl_1_l. destruct (Z.testbit v i) eqn:E; simpl.
  - apply Z.eqb_neq. intros H0.
    assert (Z.testbit (Z.land v (2 ^ i)) i = true) as Hb
      by (by rewrite Z.land_spec, E, Z.pow2_bits_true).
    rewrite H0, Z.bits_0 in Hb. done.
  - apply Z.eqb_eq, Z.bits_inj_0. intros n. rewrite Z.land_spec.
    destruct (Z.lt_ge_cases n 0) as [Hn|Hn].
    + by rewrite (Z.testbit_neg_r v n).
    + rewrite Z.pow2_bits_eqb by done. destruct (Z.eqb_spec i n) as [->|_].
      * by rewrite E.
      * by rewrite andb_false_r.
Qed.

Lemma land_or_mask (x m : Z) :
  0 ≤ m < 256 → Z.land (uint8_t (Z.lor x m)) m = m.
Proof.
  intros Hm. apply Z.bits_inj'. intros b Hb.
  rewrite Z.land_spec, testbit_uint8, Z.lor_spec.
  destruct (Z.testbit m b) eqn:Em; [|by rewrite andb_false_r].
  pose proof (byte_bit_low m b Hm Em).
  destruct (Z.ltb_spec b 8); [|lia]. by rewrite orb_true_r.
Qed.

Lemma land_andnot_mask (x m : Z) :
  Z.land (uint8_t (Z.land x (Z.lnot m))) m = 0.
Proof.
  apply Z.bits_inj'. intros b Hb.
  rewrite Z.land_spec, testbit_uint8, Z.land_spec, Z.lnot_spec, Z.bits_0 by done.
  destruct (Z.testbit m b), (Z.testbit x b), (b <? 8); done.
Qed.

Lemma land_disjoint_bit (m m' b : Z) :
  Z.land m m' = 0 → Z.testbit m' b = true → Z.testbit m b = false.
Proof.
  intros Hd Hb. assert (Z.testbit (Z.land m m') b = false) as H
    by (by rewrite Hd, Z.bits_0).
  rewrite Z.land_spec, Hb, andb_true_r in H. done.
Qed.

Lemma land_or_other (x m m' : Z) :
  Z.land m m' = 0 → 0 ≤ m' < 256 →
  Z.land (uint8_t (Z.lor x m)) m' = Z.land x m'.
Proof.
  intros Hd Hm. apply Z.bits_inj'. intros b Hb.
  rewrite !Z.land_spec, testbit_uint8, Z.lor_spec.
  destruct (Z.testbit m' b) eqn:Em; [|by rewrite !andb_false_r].
  rewrite (land_disjoint_bit m m' b Hd Em), orb_false_r.
  pose proof (byte_bit_low m' b Hm Em).
  destruct (Z.ltb_spec b 8); [done|lia].
Qed.

Lemma land_andnot_other (x m m' : Z) :
  Z.land m m' = 0 → 0 ≤ m' < 256 →
  Z.land (uint8_t (Z.land x (Z.lnot m))) m' = Z.land x m'.
Proof.
  intros Hd Hm. apply Z.bits_inj'. intros b Hb.
  rewrite !Z.land_spec, testbit_uint8, Z.land_spec, Z.lnot_spec by done.
  destruct (Z.testbit m' b) eqn:Em; [|by rewrite !andb_false_r].
  rewrite (land_disjoint_bit m m' b Hd Em).
  pose proof (byte_bit_low m' b Hm Em).
  destruct (Z.ltb_spec b 8); [|lia]. by rewrite andb_true_r.
Qed.

Lemma line_reg_or (p : Z → Z) (reg mask : Z) :
  0 < mask < 256 → line (reg_or p reg mask) reg mask = true.
Proof.
  intros Hm. unfold line, reg_or. rewrite fn_lookup_insert.
  rewrite land_or_mask by lia. destruct (Z.eqb_spec mask 0); [lia|done].
Qed.

Lemma line_reg_and_not (p : Z → Z) (reg mask : Z) :
  line (reg_and_not p reg mask) reg mask = false.
Proof.
  unfold line, reg_and_not. by rewrite fn_lookup_insert, land_andnot_mask.
Qed.

Lemma line_reg_or_other (p : Z → Z) (reg mask reg' mask' : Z) :
  reg ≠ reg' ∨ Z.land mask mask' = 0 → 0 ≤ mask' < 256 →
  line (reg_or p reg mask) reg' mask' = line p reg' mask'.
Proof.
  intros Hd Hm. unfold line, reg_or.
  destruct (decide (reg = reg')) as [<-|Hne].
  - destruct Hd as [|Hd]; [done|].
    by rewrite fn_lookup_insert, land_or_other.
  - by rewrite fn_lookup_insert_ne.
Qed.

Lemma line_reg_and_not_other (p : Z → Z) (reg mask reg' mask' : Z) :
  reg ≠ reg' ∨ Z.land mask mask' = 0 → 0 ≤ mask' < 256 →
  line (reg_and_not p reg mask) reg' mask' = line p reg' mask'.
Proof.
  intros Hd Hm. unfold line, reg_and_not.
  destruct (decide (reg = reg')) as [<-|Hne].
  - destruct Hd as [|Hd]; [done|].
    by rewrite fn_lookup_insert, land_andnot_other.
  - by rewrite fn_lookup_insert_ne.
Qed.

Lemma reg_or_bit (p : Z → Z) (reg mask a b : Z) :
  a ≠ reg ∨ Z.testbit mask b = false → 0 ≤ b < 8 →
  Z.testbit (reg_or p reg mask a) b = Z.testbit (p a) b.
Proof.
  intros Hd Hb. unfold reg_or. destruct (decide (reg = a)) as [<-|Hne].
  - destruct Hd as [|Hd]; [done|].
    rewrite fn_lookup_insert, testbit_uint8, Z.lor_spec, Hd, orb_false_r.
    destruct (Z.ltb_spec b 8); [done|lia].
  - by rewrite fn_lookup_insert_ne.
Qed.

Lemma reg_and_not_bit (p : Z → Z) (reg mask a b : Z) :
  a ≠ reg ∨ Z.testbit mask b = false → 0 ≤ b < 8 →
  Z.testbit (reg_and_not p reg mask a) b = Z.testbit (p a) b.
Proof.
  intros Hd Hb. unfold reg_and_not. destruct (decide (reg = a)) as [<-|Hne].
  - destruct Hd as [|Hd]; [done|].
    rewrite fn_lookup_insert, testbit_uint8, Z.land_spec, Z.lnot_spec, Hd by lia.
    destruct (Z.ltb_spec b 8); [|lia]. simpl. by rewrite andb_true_r.
  - by rewrite fn_lookup_insert_ne.
Qed.

(** ** The bit serializer *)

(** One round: the clock goes low, the data line takes bit [i], the clock
    goes high. *)
Lemma shift_out_bit_lines (w : wiring) (value i : Z) (p : Z → Z)
    (tr : list (bool * bool)) :
  wiring_ok w → 0 ≤ i →
  ∃ p' : Z → Z,
    shift_out_bit w value (p, tr) i
    = (p', tr ++ [(false, line p (dataReg w) (dataMask w));
                  (false, Z.testbit value i); (true, Z.testbit value i)]).
Proof.
  intros (Hdm & Hcm & Hd) Hi. eexists. unfold shift_out_bit.
  assert (clockReg w ≠ dataReg w ∨ Z.land (clockMask w) (dataMask w) = 0) as Hd'.
  { destruct Hd as [|Hd]; [left; congruence|right; by rewrite Z.land_comm]. }
  f_equal. f_equal. rewrite land_bit_test by done. unfold lines.
  set (p1 := reg_and_not p (clockReg w) (clockMask w)).
  assert (line p1 (clockReg w) (clockMask w) = false) as H1c
    by apply line_reg_and_not.
  assert (line p1 (dataReg w) (dataMask w) = line p (dataReg w) (dataMask w))
    as H1d by (apply line_reg_and_not_other; [done|lia]).
  rewrite H1c, H1d. destruct (Z.testbit value i); simpl.
  - set (p2 := reg_or p1 (dataReg w) (dataMask w)).
    assert (line p2 (dataReg w) (dataMask w) = true) as H2d
      by (apply line_reg_or; lia).
    assert (line p2 (clockReg w) (clockMask w) = false) as H2c
      by (rewrite <- H1c; apply line_reg_or_other; [done|lia]).
    rewrite H2c, H2d, line_reg_or by lia.
    rewrite line_reg_or_other, H2d by (done || lia). done.
  - set (p2 := reg_and_not p1 (dataReg w) (dataMask w)).
    assert (line p2 (dataReg w) (dataMask w) = false) as H2d
      by apply line_reg_and_not.
    assert (line p2 (clockReg w) (clockMask w) = false) as H2c
      by (rewrite <- H1c; apply line_reg_and_not_other; [done|lia]).
    rewrite H2c, H2d, line_reg_or by lia.
    rewrite line_reg_or_other, H2d by (done || lia). done.
Qed.

Lemma shift_out_bit_keeps (w : wiring) (value i : Z) (p : Z → Z)
    (tr : list (bool * bool)) (a b : Z) :
  a ≠ dataReg w ∨ Z.testbit (dataMask w) b = false →
  a ≠ clockReg w ∨ Z.testbit (clockMask w) b = false →
  0 ≤ b < 8 →
  Z.testbit ((shift_out_bit w value (p, tr) i).1 a) b = Z.testbit (p a) b.
Proof.
  intros Hd Hc Hb. unfold shift_out_bit. simpl.
  rewrite reg_or_bit by done.
  destruct (Z.land value (Z.shiftl 1 i) =? 0).
  - by rewrite !reg_and_not_bit.
  - by rewrite reg_or_bit, reg_and_not_bit.
Qed.

Lemma shift_out_bit_elsewhere (w : wiring) (value i : Z) (p : Z → Z)
    (tr : list (bool * bool)) (a : Z) :
  a ≠ dataReg w → a ≠ clockReg w →
  (shift_out_bit w value (p, tr) i).1 a = p a.
Proof.
  intros Hd Hc. unfold shift_out_bit, reg_or, reg_and_not. simpl.
  rewrite fn_lookup_insert_ne by done.
  destruct (Z.land value (Z.shiftl 1 i) =? 0);
    by rewrite !fn_lookup_insert_ne.
Qed.

Lemma shifted_in_app (clk : bool) (tr1 tr2 : list (bool * bool)) :
  shifted_in clk (tr1 ++ tr2)
  = shifted_in clk tr1 ++ shifted_in (clock_after clk tr1) tr2.
Proof.
  revert clk. induction tr1 as [|[c d] tr1 IH]; intros clk; [done|].
  assert (clock_after clk ((c, d) :: tr1) = clock_after c tr1) as ->.
  { unfold clock_after. destruct tr1 as [|x tr1]; [done|].
    rewrite last_cons_cons. destruct (last (x :: tr1)) as [[? ?]|] eqn:E; [done|].
    by apply last_None in E. }
  simpl. destruct (c && negb clk); simpl; by rewrite IH.
Qed.

Lemma clock_after_app (clk : bool) (tr1 tr2 : list (bool * bool)) :
  clock_after clk (tr1 ++ tr2) = clock_after (clock_after clk tr1) tr2.
Proof.
  unfold clock_after. destruct tr2 as [|x tr2 _] using rev_ind.
  - by rewrite app_nil_r.
  - by rewrite app_assoc, !last_snoc.
Qed.

(** The first [n] rounds of [fastShiftOut]. *)
Lemma fastShiftOut_rounds (w : wiring) (value : Z) (p : Z → Z) (n : nat) :
  wiring_ok w →
  ∃ (p' : Z → Z) (tr : list (bool * bool)),
    foldl (shift_out_bit w value) (p, []) (seqZ 0 (Z.of_nat n)) = (p', tr) ∧
    length tr = (3 * n)%nat ∧
    (∀ clk, shifted_in clk tr = bits_lsb_first (Z.of_nat n) value) ∧
    (∀ clk, clock_after clk tr = if n is O then clk else true).
Proof.
  intros Hw. induction n as [|n (p' & tr & Hf & Hl & Hs & Hc)].
  - exists p, []. done.
  - rewrite seqZ_S, foldl_snoc, Hf, Z.add_0_l.
    destruct (shift_out_bit_lines w value (Z.of_nat n) p' tr Hw) as [p'' ->]; [lia|].
    eexists _, _. split; [done|]. split; [|split].
    + rewrite length_app, Hl. simpl. lia.
    + intros clk. rewrite shifted_in_app, Hs. unfold bits_lsb_first.
      rewrite seqZ_S, fmap_app, Z.add_0_l. by f_equal.
    + intros clk. by rewrite clock_after_app.
Qed.

Lemma fastShiftOut_rounds_keep (w : wiring) (value : Z) (a b : Z) (l : list Z) :
  a ≠ dataReg w ∨ Z.testbit (dataMask w) b = false →
  a ≠ clockReg w ∨ Z.testbit (clockMask w) b = false →
  0 ≤ b < 8 →
  ∀ st : (Z → Z) * list (bool * bool),
    Z.testbit ((foldl (shift_out_bit w value) st l).1 a) b = Z.testbit (st.1 a) b.
Proof.
  intros Hd Hc Hb. induction l as [|i l IH]; intros [p tr]; [done|].
  simpl foldl. rewrite IH.
  by apply (shift_out_bit_keeps w value i p tr a b).
Qed.

Lemma fastShiftOut_rounds_elsewhere (w : wiring) (value : Z) (a : Z) (l : list Z) :
  a ≠ dataReg w → a ≠ clockReg w →
  ∀ st : (Z → Z) * list (bool * bool),
    (foldl (shift_out_bit w value) st l).1 a = st.1 a.
Proof.
  intros Hd Hc. induction l as [|i l IH]; intros [p tr]; [done|].
  simpl foldl. rewrite IH.
  by apply (shift_out_bit_elsewhere w value i p tr a).
Qed.

Lemma fastShiftOut_shifted (w : wiring) (value : Z) (p : Z → Z) (clk : bool) :
  wiring_ok w → 0 ≤ step_line_num w ≤ 8 →
  shifted_in clk (fastShiftOut w value p).2 = bits_lsb_first (step_line_num w) value ∧
  clock_after clk (fastShiftOut w value p).2
  = (if Z.to_nat (step_line_num w) is O then clk else true).
Proof.
  intros Hw Hn. unfold fastShiftOut.
  destruct (fastShiftOut_rounds w value p (Z.to_nat (step_line_num w)) Hw)
    as (p' & tr & Hf & Hl & Hs & Hc).
  rewrite Z2Nat.id in Hf, Hs by lia. rewrite Hf. simpl. by rewrite Hs, Hc.
Qed.

(** X1: [fastShiftOut] puts the bits of [value] on the data line one per
    rising edge of the clock, bit 0 first, [step_line_num] of them, and
    leaves the clock line high. *)
Theorem fastShiftOut_bits (w : wiring) (value : Z) (p : Z → Z) (clk : bool) :
  wiring_ok w → 0 ≤ step_line_num w ≤ 8 →
  shifted_in clk (fastShiftOut w value p).2
  = Z.testbit value <$> seqZ 0 (step_line_num w) ∧
  length (shifted_in clk (fastShiftOut w value p).2) = Z.to_nat (step_line_num w) ∧
  (0 < step_line_num w → clock_after clk (fastShiftOut w value p).2 = true).
Proof.
  intros Hw Hn.
  destruct (fastShiftOut_shifted w value p clk Hw Hn) as [Hs Hc].
  rewrite Hs. unfold bits_lsb_first. split; [done|]. split.
  - by rewrite length_fmap, length_seqZ.
  - intros Hpos. rewrite Hc. destruct (Z.to_nat (step_line_num w)) eqn:E; [lia|done].
Qed.

(** X2: [fastShiftOut] writes nothing but the data bit and the clock bit
    (for at most 8 output lines, where [1 << i] stays inside the byte):
    every other bit of the two port registers and every other register is
    as before, and with no output line to serve it writes nothing at all. *)
Theorem fastShiftOut_keeps (w : wiring) (value : Z) (p : Z → Z) :
  step_line_num w ≤ 8 →
  (∀ a b : Z,
     a ≠ dataReg w ∨ Z.testbit (dataMask w) b = false →
     a ≠ clockReg w ∨ Z.testbit (clockMask w) b = false →
     0 ≤ b < 8 →
     Z.testbit ((fastShiftOut w value p).1 a) b = Z.testbit (p a) b) ∧
  (∀ a : Z, a ≠ dataReg w → a ≠ clockReg w → (fastShiftOut w value p).1 a = p a) ∧
  (step_line_num w ≤ 0 → fastShiftOut w value p = (p, [])).
Proof.
  intros _. unfold fastShiftOut. split; [|split].
  - intros a b Hd Hc Hb. by rewrite fastShiftOut_rounds_keep.
  - intros a Hd Hc. by rewrite fastShiftOut_rounds_elsewhere.
  - intros Hn. by rewrite seqZ_nil.
Qed.

Lemma shift_out_bytes_shifted (w : wiring) (bytes : list Z) :
  wiring_ok w → 0 ≤ step_line_num w ≤ 8 →
  ∀ (p : Z → Z) (clk : bool),
    shifted_in clk (shift_out_bytes w bytes p).2
    = concat (bits_lsb_first (step_line_num w) <$> bytes).
Proof.
  intros Hw Hn. induction bytes as [|b bytes IH]; intros p clk; [done|].
  simpl. destruct (fastShiftOut w b p) as [p1 tr1] eqn:E1.
  destruct (shift_out_bytes w bytes p1) as [p2 tr2] eqn:E2. simpl.
  destruct (fastShiftOut_shifted w b p clk Hw Hn) as [Hb _].
  rewrite E1 in Hb. simpl in Hb.
  pose proof (IH p1 (clock_after clk tr1)) as IHb.
  rewrite E2 in IHb. simpl in IHb.
  by rewrite shifted_in_app, Hb, IHb.
Qed.

(** X3: the bytes of a frame reach the registers in the order of the calls,
    each with bit 0 first: the chain takes in [step_line_num] bits per
    byte. *)
Theorem shift_out_bytes_bits (w : wiring) (bytes : list Z) :
  wiring_ok w → 0 ≤ step_line_num w ≤ 8 →
  ∀ (p : Z → Z) (clk : bool),
    shifted_in clk (shift_out_bytes w bytes p).2
    = concat ((λ b, Z.testbit b <$> seqZ 0 (step_line_num w)) <$> bytes) ∧
    length (shifted_in clk (shift_out_bytes w bytes p).2)
    = (length bytes * Z.to_nat (step_line_num w))%nat.
Proof.
  intros Hw Hn p clk.
  rewrite (shift_out_bytes_shifted w bytes Hw Hn p clk). split; [done|].
  induction bytes as [|b bytes IH]; [done|].
  csimpl. rewrite length_app, IH. unfold bits_lsb_first.
  by rewrite length_fmap, length_seqZ.
Qed.

(** ** The control lines *)

(** X5: with an enable and a clear pin, each control call returns [true]
    and drives its own pin only: [disableSteppers] leaves the enable line
    high, [enableSteppers] low, and [clearSteppers] pulls the clear line low
    for 10 ms and leaves it high. *)
Theorem control_lines_levels (w : wiring) (l : Z → bool) :
  enablePin w ≠ 0 → clearPin w ≠ 0 →
  (enableSteppers w).1 = true ∧ (disableSteppers w).1 = true ∧
  (clearSteppers w).1 = true ∧
  pin_levels (enableSteppers w).2 l (enablePin w) = false ∧
  pin_levels (disableSteppers w).2 l (enablePin w) = true ∧
  (clearSteppers w).2
  = [DigitalWrite (clearPin w) false; Delay 10; DigitalWrite (clearPin w) true] ∧
  pin_levels (clearSteppers w).2 l (clearPin w) = true ∧
  (∀ pin : Z, pin ≠ enablePin w →
     pin_levels (enableSteppers w).2 l pin = l pin ∧
     pin_levels (disableSteppers w).2 l pin = l pin) ∧
  (∀ pin : Z, pin ≠ clearPin w → pin_levels (clearSteppers w).2 l pin = l pin).
Proof.
  intros He Hc. unfold enableSteppers, disableSteppers, clearSteppers.
  destruct (Z.eqb_spec (enablePin w) 0); [done|].
  destruct (Z.eqb_spec (clearPin w) 0); [done|]. simpl.
  rewrite !fn_lookup_insert. repeat split; try done.
  - by rewrite fn_lookup_insert_ne.
  - by rewrite fn_lookup_insert_ne.
  - intros pin Hp. by rewrite !fn_lookup_insert_ne.
Qed.

(** X6: the constructor with clear and enable pins leaves the latch line
    low, the clear line high and the enable line low (registers released
    and outputs enabled), whatever the pins were before, when the three are
    different pins. *)
Theorem wire_all_levels (port_of mask_of : Z → Z)
    (dataPin clockPin latchPin lines clearPin enablePin : Z) (l : Z → bool) :
  latchPin ≠ clearPin → latchPin ≠ enablePin → clearPin ≠ enablePin →
  let evs := (wire_all port_of mask_of dataPin clockPin latchPin lines
                clearPin enablePin).2 in
  pin_levels evs l latchPin = false ∧
  pin_levels evs l clearPin = true ∧
  pin_levels evs l enablePin = false ∧
  ∀ pin : Z, pin ≠ latchPin → pin ≠ clearPin → pin ≠ enablePin →
    pin_levels evs l pin = l pin.
Proof.
  intros H1 H2 H3. simpl. repeat split.
  - do 2 rewrite fn_lookup_insert_ne by done. by rewrite fn_lookup_insert.
  - rewrite fn_lookup_insert_ne by done. by rewrite fn_lookup_insert.
  - by rewrite fn_lookup_insert.
  - intros pin Hp1 Hp2 Hp3. by do 3 rewrite fn_lookup_insert_ne by done.
Qed.

(** ** The phase table *)

Lemma shift_slot_nonneg (hs : Hundred_Steppers) (idx c b : Z) :
  0 < driver_mode → 0 ≤ idx → 0 ≤ c →
  step_table hs !! Z.to_nat idx = Some c →
  cmd_list !! Z.to_nat (c mod driver_mode) = Some b →
  shift_slot hs idx = mkSlot idx (Some (c mod driver_mode)) (Some b).
Proof.
  intros Hdm Hidx Hc0 Hc Hcmd. unfold shift_slot, read_step_table.
  pose proof (Z.mod_pos_bound c driver_mode Hdm) as Hb.
  destruct (Z.ltb_spec idx 0); [lia|]. rewrite Hc. simpl.
  rewrite Z.rem_mod_nonneg by lia. unfold read_cmd_list.
  destruct (Z.ltb_spec (c mod driver_mode) 0); [lia|]. by rewrite Hcmd.
Qed.

(** X7: for a counter that is not negative the frame reads [cmd_list] at
    the counter modulo [driver_mode], an index inside the table, and the
    byte is the same one cycle of [driver_mode] steps later. *)
Theorem phase_of_counter (hs : Hundred_Steppers) (idx c : Z) :
  0 < driver_mode → Z.of_nat (length cmd_list) = driver_mode →
  0 ≤ idx → step_table hs !! Z.to_nat idx = Some c → 0 ≤ c →
  ∃ b : Z,
    0 ≤ c mod driver_mode < driver_mode ∧
    cmd_list !! Z.to_nat (c mod driver_mode) = Some b ∧
    shift_slot hs idx = mkSlot idx (Some (c mod driver_mode)) (Some b) ∧
    ∀ hs' : Hundred_Steppers,
      step_table hs' !! Z.to_nat idx = Some (c + driver_mode) →
      shift_slot hs' idx = shift_slot hs idx.
Proof.
  intros Hdm Hlen Hidx Hc Hc0.
  pose proof (Z.mod_pos_bound c driver_mode Hdm) as Hb.
  destruct (lookup_lt_is_Some_2 cmd_list (Z.to_nat (c mod driver_mode)))
    as [b Hcmd]; [lia|].
  exists b. split; [done|]. split; [done|]. split.
  - by apply (shift_slot_nonneg hs idx c b).
  - intros hs' H'. rewrite (shift_slot_nonneg hs idx c b) by done.
    assert ((c + driver_mode) mod driver_mode = c mod driver_mode) as Hmod.
    { rewrite <- (Z.mul_1_l driver_mode) at 1. by rewrite Z.mod_add by lia. }
    rewrite <- Hmod. apply shift_slot_nonneg; try done; try lia.
    by rewrite Hmod.
Qed.

(** X8: for a negative counter the index on [cmd_list] is the C remainder,
    which is never positive: it is 0 when the counter is a multiple of
    [driver_mode] and below the table otherwise, where no byte is
    defined. *)
Theorem phase_of_negative_counter (hs : Hundred_Steppers) (idx c : Z) :
  0 < driver_mode → 0 ≤ idx →
  step_table hs !! Z.to_nat idx = Some c → c < 0 →
  - driver_mode < Z.rem c driver_mode ≤ 0 ∧
  phase (shift_slot hs idx) = Some (Z.rem c driver_mode) ∧
  (Z.rem c driver_mode ≠ 0 → cmd (shift_slot hs idx) = None) ∧
  (Z.rem c driver_mode = 0 → cmd (shift_slot hs idx) = cmd_list !! 0%nat).
Proof.
  intros Hdm Hidx Hc Hneg.
  assert (- driver_mode < Z.rem c driver_mode ≤ 0) as Hb.
  { pose proof (Z.rem_nonpos c driver_mode ltac:(lia) ltac:(lia)).
    pose proof (Z.rem_bound_abs c driver_mode ltac:(lia)). lia. }
  split; [done|]. unfold shift_slot, read_step_table.
  destruct (Z.ltb_spec idx 0); [lia|]. rewrite Hc. simpl.
  split; [done|]. unfold read_cmd_list. split.
  - intros Hnz. destruct (Z.ltb_spec (Z.rem c driver_mode) 0); [done|lia].
  - intros ->. done.
Qed.

(** ** The speed *)

(** X9: [setSpeedRevPerMin(n)] stores the whole number of microseconds per
    step of [n] revolutions per minute: [step_delay] is the largest delay
    with [nSteps * n * step_delay] within one minute, and nothing else in
    the driver changes. *)
Theorem setSpeedRevPerMin_delay (hs : Hundred_Steppers) (n : Z) :
  0 < nSteps hs → 0 < n →
  ∃ d : Z,
    setSpeedRevPerMin hs n = Some (set_step_delay hs d) ∧
    0 ≤ d ≤ 60000000 ∧
    nSteps hs * n * d ≤ 60000000 < nSteps hs * n * (d + 1).
Proof.
  intros Hs Hn. unfold setSpeedRevPerMin.
  destruct (Z.eqb_spec (nSteps hs) 0); [lia|].
  destruct (Z.eqb_spec n 0); [lia|]. simpl.
  eexists. split; [done|].
  change (60 * 1000 * 1000) with 60000000.
  rewrite (Z.quot_div_nonneg 60000000) by lia.
  rewrite Z.quot_div_nonneg by (try lia; apply Z.div_pos; lia).
  pose proof (Z.div_mod 60000000 (nSteps hs) ltac:(lia)) as H1.
  pose proof (Z.mod_pos_bound 60000000 (nSteps hs) Hs) as H1b.
  set (q := 60000000 / nSteps hs) in *.
  assert (0 ≤ q) as Hq by (apply Z.div_pos; lia).
  pose proof (Z.div_mod q n ltac:(lia)) as H2.
  pose proof (Z.mod_pos_bound q n Hn) as H2b.
  assert (0 ≤ q / n) as Hd by (apply Z.div_pos; lia).
  nia.
Qed.

(** X10: a higher speed never gives a longer delay between frames. *)
Theorem setSpeedRevPerMin_monotone (hs : Hundred_Steppers) (n n' : Z) :
  0 < nSteps hs → 0 < n ≤ n' →
  ∃ d d' : Z,
    setSpeedRevPerMin hs n = Some (set_step_delay hs d) ∧
    setSpeedRevPerMin hs n' = Some (set_step_delay hs d') ∧
    d' ≤ d.
Proof.
  intros Hs Hn. unfold setSpeedRevPerMin.
  destruct (Z.eqb_spec (nSteps hs) 0); [lia|].
  destruct (Z.eqb_spec n 0); [lia|]. destruct (Z.eqb_spec n' 0); [lia|]. simpl.
  eexists _, _. split; [done|]. split; [done|].
  apply Z.quot_le_compat_l; [|lia].
  rewrite Z.quot_div_nonneg by lia. apply Z.div_pos; lia.
Qed.

(** ** What a call of [step] returns *)

Lemma wait_step_delay_first (fuel : nat) :
  ∀ hs hs1 : Hundred_Steppers,
    wait_step_delay fuel hs = Some hs1 →
    ∃ k : nat, (ticks hs ≤ k)%nat ∧ gate_open hs k ∧
      (∀ j : nat, (ticks hs ≤ j < k)%nat → ¬ gate_open hs j) ∧
      hs1 = set_ticks hs (S k).
Proof.
  induction fuel as [|fuel IH]; intros hs hs1 Hw; [done|]. simpl in Hw.
  destruct (Z.ltb_spec (ulong (ulong (clock (ticks hs)) - last_step_time hs))
              (step_delay hs)) as [Hlt|Hge].
  - apply IH in Hw as (k & Hk & Hg & Hfirst & ->). simpl in Hk.
    exists k. split; [lia|]. split; [done|]. split; [|done].
    intros j Hj. destruct (decide (j = ticks hs)) as [->|Hne].
    + unfold gate_open. lia.
    + apply Hfirst. simpl. lia.
  - exists (ticks hs). split; [lia|]. split; [done|]. split; [|congruence].
    intros j Hj. lia.
Qed.

Lemma frame_loop_result (hs : Hundred_Steppers) (len : Z) (fuel : nat)
    (sl : list slot) :
  0 ≤ len ≤ 65535 →
  for_uint16 fuel (λ i, i <=? len)
    (λ i out, out ++ [shift_slot hs (len - i)]) 0 [] = Some sl →
  len < 65535 ∧ sl = frame_slots hs len.
Proof.
  intros Hlen H. destruct (decide (len = 65535)) as [->|Hne].
  - rewrite for_uint16_le_max_diverges in H by lia. done.
  - split; [lia|].
    pose proof (for_uint16_mono _ _ _ (fuel `max` S (Z.to_nat (len + 1))) _ _ _ H
                  ltac:(lia)) as H'.
    rewrite frame_loop_returns in H' by lia. congruence.
Qed.

Lemma step_result (fuel : nat) (hs hs' : Hundred_Steppers) (len : Z) (fr : frame) :
  0 ≤ nSteppers hs ≤ 65535 → 0 ≤ len ≤ 65535 →
  step fuel hs len = Some (hs', fr) →
  step_table hs' = step_table hs ∧ nSteppers hs' = nSteppers hs ∧
  nSteps hs' = nSteps hs ∧ step_delay hs' = step_delay hs ∧
  (ticks hs < stamp fr)%nat ∧ ticks hs' = S (stamp fr) ∧
  last_step_time hs' = ulong (clock (stamp fr)) ∧
  frame_length hs len < 65535 ∧
  slots fr = frame_slots hs (frame_length hs len).
Proof.
  intros HN Hlen H. unfold step in H.
  destruct (wait_step_delay fuel hs) as [hs1|] eqn:Hw; [|done]. simpl in H.
  apply wait_step_delay_inv in Hw as (k & Hk & _ & ->). simpl in H.
  change (frame_length _ len) with (frame_length hs len) in H.
  match type of H with
  | (?c ≫= _) = _ => destruct c as [sl|] eqn:Hf; [|done]
  end.
  apply frame_loop_result in Hf as [Hlt ->];
    [|unfold frame_length; destruct (_ || _); lia].
  simpl in H. injection H as <- <-. simpl.
  repeat split; try done; try lia.
Qed.

(** X11: whatever fuel it runs on, a call of [step] that returns has read
    the clock at least twice, has stored its last reading in
    [last_step_time], has made one call of [fastShiftOut] for each of the
    motors [length], ..., [0] of the length after the guard, and has changed
    nothing else: not the counters, not the motor count, not the delay. *)
Theorem step_effect (fuel : nat) (hs hs' : Hundred_Steppers) (len : Z) (fr : frame) :
  0 ≤ nSteppers hs ≤ 65535 → 0 ≤ len ≤ 65535 →
  step fuel hs len = Some (hs', fr) →
  step_table hs' = step_table hs ∧ nSteppers hs' = nSteppers hs ∧
  nSteps hs' = nSteps hs ∧ step_delay hs' = step_delay hs ∧
  (ticks hs < stamp fr)%nat ∧ ticks hs' = S (stamp fr) ∧
  last_step_time hs' = ulong (clock (stamp fr)) ∧
  frame_length hs len < 65535 ∧
  slots fr = frame_slots hs (frame_length hs len).
Proof. apply step_result. Qed.

(** X12: [step] leaves its busy-wait at the first reading of the clock at
    which the wrapped time since [last_step_time] has reached [step_delay]:
    no reading before it had reached the delay, and the reading after it is
    the one that the frame stores. *)
Theorem step_first_open (fuel : nat) (hs hs' : Hundred_Steppers) (len : Z)
    (fr : frame) :
  step fuel hs len = Some (hs', fr) →
  ∃ k : nat, stamp fr = S k ∧ (ticks hs ≤ k)%nat ∧ gate_open hs k ∧
    ∀ j : nat, (ticks hs ≤ j < k)%nat → ¬ gate_open hs j.
Proof.
  unfold step. intros H.
  destruct (wait_step_delay fuel hs) as [hs1|] eqn:Hw; [|done]. simpl in H.
  apply wait_step_delay_first in Hw as (k & Hk & Hg & Hfirst & ->). simpl in H.
  match type of H with
  | (?c ≫= _) = _ => destruct c as [sl|]; [|done]
  end.
  simpl in H. injection H as _ <-. exists k. done.
Qed.

(** ** What the single-motor move returns *)

Lemma frame_length_same (hs hs' : Hundred_Steppers) (len : Z) :
  nSteppers hs' = nSteppers hs → frame_length hs' len = frame_length hs len.
Proof. intros H. unfold frame_length. by rewrite H. Qed.

Lemma spaced_later (d : Z) (j j' : nat) (frs : list frame) :
  clock_monotone → (j ≤ j')%nat → spaced d j' frs → spaced d j frs.
Proof.
  intros Hm Hj. destruct frs as [|fr frs]; [done|]. simpl.
  intros (Hlt & Hd & Hrest). pose proof (clock_monotone_le j j' Hm Hj).
  split; [lia|]. split; [lia|done].
Qed.

Lemma step_spaced (fuel : nat) (hs hs' : Hundred_Steppers) (len : Z) (fr : frame)
    (j : nat) :
  clock_monotone → (j < ticks hs)%nat → last_step_time hs = ulong (clock j) →
  step fuel hs len = Some (hs', fr) →
  (j < stamp fr)%nat ∧ clock j + step_delay hs ≤ clock (stamp fr) ∧
  (stamp fr < ticks hs')%nat ∧ last_step_time hs' = ulong (clock (stamp fr)) ∧
  step_delay hs' = step_delay hs.
Proof.
  intros Hm Hj Hw H. apply step_inv in H as (k & Hk & Hg & -> & Hst).
  rewrite Hst. simpl.
  pose proof (gate_open_spacing hs j k Hm ltac:(lia) Hw Hg).
  specialize (Hm k). repeat split; try done; lia.
Qed.

Lemma setStepperStep_loop_run (fuel : nat) :
  ∀ (hs hs' : Hundred_Steppers) (n steps_to_move : Z) (frs : list frame),
    0 ≤ nSteppers hs ≤ 65535 → 0 ≤ n ≤ 65535 →
    setStepperStep_loop fuel hs n steps_to_move = Some (hs', frs) →
    nSteppers hs' = nSteppers hs ∧ nSteps hs' = nSteps hs ∧
    step_delay hs' = step_delay hs ∧
    length (step_table hs') = length (step_table hs) ∧
    Forall (λ fr, motor <$> slots fr = reverse (seqZ 0 (frame_length hs n + 1))) frs ∧
    (clock_monotone → ∀ j : nat, (j < ticks hs)%nat →
       last_step_time hs = ulong (clock j) → spaced (step_delay hs) j frs).
Proof.
  induction fuel as [|fuel IH]; intros hs hs' n s frs HN Hn H; [done|].
  simpl in H. destruct (s =? 0).
  { injection H as <- <-. repeat split; try done. }
  set (hs1 := if s >? 0
              then set_step_table hs (alter Z.succ (Z.to_nat n) (step_table hs))
              else set_step_table hs (alter Z.pred (Z.to_nat n) (step_table hs))).
  set (s1 := if s >? 0 then s - 1 else s + 1).
  assert (step fuel hs1 n ≫= (λ '(hs2, fr),
            setStepperStep_loop fuel hs2 n s1 ≫= (λ '(hs3, frs),
              Some (hs3, fr :: frs))) = Some (hs', frs)) as H'
    by (subst hs1 s1; destruct (s >? 0); exact H).
  clear H.
  assert (nSteppers hs1 = nSteppers hs ∧ nSteps hs1 = nSteps hs ∧
          step_delay hs1 = step_delay hs ∧
          length (step_table hs1) = length (step_table hs) ∧
          ticks hs1 = ticks hs ∧ last_step_time hs1 = last_step_time hs)
    as (HN1 & HS1 & HD1 & HL1 & HT1 & HW1).
  { subst hs1. destruct (s >? 0); simpl; by rewrite length_alter. }
  destruct (step fuel hs1 n) as [[hs2 fr]|] eqn:Hs; [|done]. simpl in H'.
  destruct (setStepperStep_loop fuel hs2 n s1) as [[hs3 frs3]|] eqn:Hl; [|done].
  simpl in H'. injection H' as <- <-.
  pose proof (step_result fuel hs1 hs2 n fr ltac:(lia) Hn Hs)
    as (Ht2 & HN2 & HS2 & HD2 & Hk2 & Htk2 & Hw2 & Hlt & Hsl).
  destruct (IH hs2 hs3 n s1 frs3 ltac:(lia) Hn Hl)
    as (HN3 & HS3 & HD3 & HL3 & Hall & Hsp).
  split; [congruence|]. split; [congruence|]. split; [congruence|].
  split; [congruence|]. split.
  - constructor.
    + rewrite Hsl, frame_slots_motor.
      * by rewrite (frame_length_same hs hs1).
      * unfold frame_length. destruct (_ || _); lia.
    + eapply Forall_impl; [exact Hall|]. simpl. intros x ->.
      rewrite (frame_length_same hs hs2); [done|congruence].
  - intros Hm j Hj Hw. simpl.
    destruct (step_spaced fuel hs1 hs2 n fr j Hm ltac:(lia) ltac:(congruence) Hs)
      as (Hj2 & Hd2 & Hk3 & Hw3 & _).
    rewrite <- HD1. split; [done|]. split; [done|].
    rewrite <- HD2. by apply Hsp.
Qed.

Lemma setStepperStep_loop_returns_at (m : nat) :
  ∀ (hs : Hundred_Steppers) (n steps_to_move : Z),
    Z.abs_nat steps_to_move = m →
    clock_ok (step_delay hs) → 0 ≤ frame_length hs n < 65535 →
    ∃ (hs' : Hundred_Steppers) (frs : list frame),
      returns (λ fuel, setStepperStep_loop fuel hs n steps_to_move) (hs', frs) ∧
      step_table hs' = alter (Z.add steps_to_move) (Z.to_nat n) (step_table hs) ∧
      nSteppers hs' = nSteppers hs ∧ length frs = m.
Proof.
  induction m as [|m IH]; intros hs n s Hm Hck Hfl.
  - assert (s = 0) as -> by lia.
    exists hs, []. split; [|split; [|done]].
    + exists 1%nat. intros [|fuel] Hf; [lia|]. done.
    + symmetry. by apply list_alter_id.
  - assert (s ≠ 0) as Hs by lia.
    set (f := if s >? 0 then Z.succ else Z.pred).
    set (s' := if s >? 0 then s - 1 else s + 1).
    set (hs1 := set_step_table hs (alter f (Z.to_nat n) (step_table hs))).
    destruct (step_returns hs1 n) as (k & Hk & Hg & f1 & Hstep); [done|done|].
    destruct (IH (after_step hs1 (S k)) n s') as (hs' & frs & [f2 Hloop] & Ht & HN' & Hl).
    { subst s'. destruct (Z.gtb_spec s 0); lia. }
    { done. }
    { done. }
    exists hs', (mkFrame (S k) (frame_slots hs1 (frame_length hs1 n)) :: frs).
    split; [|split; [|split]].
    + exists (S (f1 `max` f2)). intros [|fuel] Hf; [lia|]. simpl.
      destruct (Z.eqb_spec s 0) as [|_]; [done|].
      subst hs1 f s'. destruct (s >? 0).
      * rewrite Hstep by lia. simpl. rewrite Hloop by lia. done.
      * rewrite Hstep by lia. simpl. rewrite Hloop by lia. done.
    + rewrite Ht. simpl. rewrite list_alter_twice.
      apply list_alter_ext; [|done]. intros x _.
      subst f s'. destruct (Z.gtb_spec s 0); lia.
    + rewrite HN'. done.
    + simpl. by rewrite Hl.
Qed.

(** X13: the single-motor move returns for every motor index and every
    number of steps, in range or not, with one exception: a move of
    motor 0 on a driver of 65535 steppers.  A motor index that is not below
    the motor count is ignored (nothing changes, no frame is sent); a motor
    in range receives its steps in exactly [|steps_to_move|] frames, also
    the motors 1 to 65534 of the largest driver. *)
Theorem setStepperStep_returns_unless (hs : Hundred_Steppers) (n steps_to_move : Z) :
  clock_ok (step_delay hs) → storage_ok hs → nSteppers hs ≤ 65535 →
  0 ≤ n ≤ 65535 →
  (nSteppers hs = 65535 → n ≠ 0 ∨ steps_to_move = 0) →
  ∃ (hs' : Hundred_Steppers) (frs : list frame),
    returns (λ fuel, setStepperStep fuel hs n steps_to_move) (hs', frs) ∧
    nSteppers hs' = nSteppers hs ∧
    (n < nSteppers hs →
     (∃ c : Z, step_table hs !! Z.to_nat n = Some c ∧
        step_table hs' = <[Z.to_nat n := c + steps_to_move]> (step_table hs)) ∧
     Z.of_nat (length frs) = Z.abs steps_to_move) ∧
    (nSteppers hs ≤ n → hs' = hs ∧ frs = []).
Proof.
  intros Hck Hst HN Hn Hnot. pose proof Hst as Hst'. unfold storage_ok in Hst'.
  destruct (Z.lt_ge_cases n (nSteppers hs)) as [Hlt|Hge].
  2:{ exists hs, []. split; [|split; [done|split; [lia|done]]].
      exists 0%nat. intros fuel _. unfold setStepperStep.
      destruct (Z.ltb_spec n (nSteppers hs)); [lia|done]. }
  destruct (lookup_lt_is_Some_2 (step_table hs) (Z.to_nat n)) as [c Hc]; [lia|].
  assert (∀ hs' : Hundred_Steppers,
            step_table hs' = alter (Z.add steps_to_move) (Z.to_nat n) (step_table hs) →
            step_table hs' = <[Z.to_nat n := c + steps_to_move]> (step_table hs))
    as Hins.
  { intros hs' ->. apply list_eq. intros i.
    destruct (decide (i = Z.to_nat n)) as [->|Hne].
    - rewrite list_lookup_alter_eq, Hc, list_lookup_insert_eq.
      + simpl. f_equal. lia.
      + by eapply lookup_lt_Some.
    - by rewrite list_lookup_alter_ne, list_lookup_insert_ne. }
  destruct (decide (steps_to_move = 0)) as [->|Hs].
  { exists hs, []. split; [|split; [done|split; [|lia]]].
    - exists 1%nat. intros [|fuel] Hf; [lia|]. unfold setStepperStep.
      by destruct (n <? nSteppers hs).
    - intros _. split; [|done]. exists c. split; [done|].
      symmetry. apply list_insert_id. rewrite Hc. f_equal. lia. }
  destruct (setStepperStep_loop_returns_at _ hs n steps_to_move eq_refl Hck)
    as (hs' & frs & [f0 Hr] & Ht & HN' & Hl).
  { unfold frame_length. destruct (Z.eqb_spec n 0) as [->|Hn0]; simpl.
    - destruct (decide (nSteppers hs = 65535)) as [H|H]; [|lia].
      destruct (Hnot H); done.
    - destruct (Z.gtb_spec n (nSteppers hs)); lia. }
  exists hs', frs. split; [|split; [done|split; [|lia]]].
  - exists f0. intros fuel Hf. unfold setStepperStep.
    destruct (Z.ltb_spec n (nSteppers hs)); [|lia]. by apply Hr.
  - intros _. split; [by exists c; split; [|apply Hins]|]. rewrite Hl. lia.
Qed.

Lemma setStepperStep_result (hs : Hundred_Steppers) (n steps_to_move : Z) :
  clock_ok (step_delay hs) → storage_ok hs →
  0 ≤ n < nSteppers hs → nSteppers hs < 65535 →
  ∃ (hs' : Hundred_Steppers) (frs : list frame) (c : Z),
    returns (λ fuel, setStepperStep fuel hs n steps_to_move) (hs', frs) ∧
    step_table hs !! Z.to_nat n = Some c ∧
    step_table hs' = <[Z.to_nat n := c + steps_to_move]> (step_table hs) ∧
    Z.of_nat (length frs) = Z.abs steps_to_move ∧
    nSteppers hs' = nSteppers hs ∧ storage_ok hs'.
Proof.
  intros Hck Hst Hn HN.
  destruct (setStepperStep_loop_returns _ hs n steps_to_move eq_refl Hck Hn HN)
    as (hs' & frs & [f0 Hr] & Ht & HN' & Hl).
  destruct (lookup_lt_is_Some_2 (step_table hs) (Z.to_nat n)) as [c Hc].
  { unfold storage_ok in Hst. lia. }
  exists hs', frs, c. split; [|split; [done|split; [|split; [|split]]]].
  - exists f0. intros fuel Hf. unfold setStepperStep.
    destruct (Z.ltb_spec n (nSteppers hs)); [|lia]. by apply Hr.
  - rewrite Ht. apply list_eq. intros i.
    destruct (decide (i = Z.to_nat n)) as [->|Hne].
    + rewrite list_lookup_alter_eq, Hc, list_lookup_insert_eq.
      * simpl. f_equal. lia.
      * by eapply lookup_lt_Some.
    + by rewrite list_lookup_alter_ne, list_lookup_insert_ne.
  - rewrite Hl. lia.
  - done.
  - unfold storage_ok in *. by rewrite Ht, length_alter, HN'.
Qed.

(** X14: for fewer than 65535 steppers and a clock that advances, the move
    of motor [n] by [steps_to_move] returns after exactly [|steps_to_move|]
    frames, with counter [n] increased by [steps_to_move], every other
    counter as it was and the motor count unchanged. *)
Theorem setStepperStep_run (hs : Hundred_Steppers) (n steps_to_move : Z) :
  clock_ok (step_delay hs) → storage_ok hs →
  0 ≤ n < nSteppers hs → nSteppers hs < 65535 →
  ∃ (hs' : Hundred_Steppers) (frs : list frame) (c : Z),
    returns (λ fuel, setStepperStep fuel hs n steps_to_move) (hs', frs) ∧
    step_table hs !! Z.to_nat n = Some c ∧
    step_table hs' = <[Z.to_nat n := c + steps_to_move]> (step_table hs) ∧
    Z.of_nat (length frs) = Z.abs steps_to_move ∧
    nSteppers hs' = nSteppers hs ∧ storage_ok hs'.
Proof. apply setStepperStep_result. Qed.

(** X15: every frame that the single-motor move sends carries the moved
    motor: it is one call of [fastShiftOut] for each motor from the length
    after the guard ([n] itself, or the motor count for motor 0) down to
    motor 0, whatever fuel the move runs on. *)
Theorem setStepperStep_window (fuel : nat) (hs hs' : Hundred_Steppers)
    (n steps_to_move : Z) (frs : list frame) :
  0 ≤ n < nSteppers hs → nSteppers hs ≤ 65535 →
  setStepperStep fuel hs n steps_to_move = Some (hs', frs) →
  Forall (λ fr, motor <$> slots fr = reverse (seqZ 0 (frame_length hs n + 1)) ∧
                n ∈ motor <$> slots fr) frs.
Proof.
  intros Hn HN H. unfold setStepperStep in H.
  destruct (Z.ltb_spec n (nSteppers hs)); [|lia].
  destruct (setStepperStep_loop_run fuel hs hs' n steps_to_move frs
              ltac:(lia) ltac:(lia) H) as (_ & _ & _ & _ & Hall & _).
  eapply Forall_impl; [exact Hall|]. simpl. intros fr Hfr. split; [done|].
  rewrite Hfr, elem_of_reverse, elem_of_seqZ.
  unfold frame_length. destruct (_ || _); lia.
Qed.

(** X16: two moves of the same motor add up: moving by [a] and then by [b]
    leaves the counters where one move by [a + b] leaves them, so a move
    and its opposite bring every counter back. *)
Theorem setStepperStep_adds (hs : Hundred_Steppers) (n a b : Z) :
  clock_ok (step_delay hs) → storage_ok hs →
  0 ≤ n < nSteppers hs → nSteppers hs < 65535 →
  ∃ (hs1 hs2 hs3 : Hundred_Steppers) (frs1 frs2 frs3 : list frame),
    returns (λ fuel, setStepperStep fuel hs n a) (hs1, frs1) ∧
    returns (λ fuel, setStepperStep fuel hs1 n b) (hs2, frs2) ∧
    returns (λ fuel, setStepperStep fuel hs n (a + b)) (hs3, frs3) ∧
    step_table hs2 = step_table hs3 ∧
    (b = - a → step_table hs2 = step_table hs).
Proof.
  intros Hck Hst Hn HN.
  destruct (setStepperStep_result hs n a Hck Hst Hn HN)
    as (hs1 & frs1 & c & Hr1 & Hc & Ht1 & _ & HN1 & Hst1).
  assert (step_delay hs1 = step_delay hs) as Hd1.
  { destruct Hr1 as [f0 Hr1]. specialize (Hr1 f0 (le_n _)).
    unfold setStepperStep in Hr1. destruct (n <? nSteppers hs).
    - by destruct (setStepperStep_loop_run f0 hs hs1 n a frs1 ltac:(lia) ltac:(lia) Hr1)
        as (_ & _ & ? & _).
    - by injection Hr1 as <- _. }
  destruct (setStepperStep_result hs1 n b) as (hs2 & frs2 & c1 & Hr2 & Hc1 & Ht2 & _);
    try done; try lia.
  { by rewrite Hd1. }
  destruct (setStepperStep_result hs n (a + b) Hck Hst Hn HN)
    as (hs3 & frs3 & c3 & Hr3 & Hc3 & Ht3 & _).
  exists hs1, hs2, hs3, frs1, frs2, frs3. split; [done|]. split; [done|].
  split; [done|].
  assert (c1 = c + a) as ->.
  { rewrite Ht1, list_lookup_insert_eq in Hc1; [congruence|].
    by eapply lookup_lt_Some. }
  assert (c3 = c) as -> by congruence.
  assert (step_table hs2 = <[Z.to_nat n := c + (a + b)]> (step_table hs)) as Ht2'.
  { rewrite Ht2, Ht1, list_insert_insert_eq. f_equal. lia. }
  split; [congruence|].
  intros ->. rewrite Ht2'. apply list_insert_id. rewrite Hc. f_equal. lia.
Qed.

(** ** One pass over the list, in full *)

Lemma list_pass_result (fuel : nat) (len : Z) (st r : pass_state) :
  0 ≤ len ≤ 65535 →
  for_uint16 fuel (λ i, i <? len) list_pass_body 0 st = Some r →
  r = list_pass len st.
Proof.
  intros Hlen H.
  pose proof (for_uint16_mono _ _ _ (fuel `max` S (Z.to_nat len)) _ _ _ H
                ltac:(lia)) as H'.
  rewrite list_pass_returns in H' by lia. congruence.
Qed.

Lemma list_pass_max_changed (D T : list Z) (z : Z) (n : nat) :
  0 ≤ z < 65536 → (n ≤ length D)%nat →
  ∀ (i : nat) (d : Z), (i < n)%nat → D !! i = Some d → d ≠ 0 →
    Z.of_nat i ≤ (list_pass (Z.of_nat n) (D, T, z, 0)).2.
Proof.
  intros Hz. induction n as [|n IH]; intros Hn i d Hi Hd Hnz; [lia|].
  destruct (list_pass_inv D T z n Hz ltac:(lia))
    as (D1 & T1 & z1 & mc1 & Hp & _ & _ & Hrest & _).
  specialize (IH ltac:(lia)). rewrite Hp in IH. simpl in IH.
  rewrite list_pass_S, Hp. unfold list_pass_body. rewrite Nat2Z.id.
  destruct (lookup_lt_is_Some_2 D n) as [dn Hdn]; [lia|].
  destruct (Hrest n (le_n _)) as [-> _]. rewrite Hdn.
  destruct (Z.gtb_spec dn 0); [simpl; lia|].
  destruct (Z.ltb_spec dn 0); [simpl; lia|]. simpl.
  destruct (decide (i = n)) as [->|Hne].
  - assert (d = dn) by congruence. lia.
  - apply (IH i d); [lia|done|done].
Qed.

Lemma zeros_snoc (l : list Z) (d : Z) :
  zeros (l ++ [d]) = zeros l + (if d =? 0 then 1 else 0).
Proof. induction l as [|x l IH]; simpl; [lia|]. rewrite IH. lia. Qed.

Lemma zeros_range (l : list Z) : 0 ≤ zeros l ≤ Z.of_nat (length l).
Proof.
  induction l as [|x l IH]; simpl; [lia|]. destruct (x =? 0); lia.
Qed.

Lemma list_pass_zeros (D T : list Z) (z : Z) (n : nat) :
  0 ≤ z < 65536 → (n ≤ length D)%nat →
  (list_pass (Z.of_nat n) (D, T, z, 0)).1.2 = uint16_t (z + zeros (take n D)).
Proof.
  intros Hz. induction n as [|n IH]; intros Hn.
  - simpl. rewrite Z.add_0_r. symmetry. by apply uint16_t_small.
  - destruct (list_pass_inv D T z n Hz ltac:(lia))
      as (D1 & T1 & z1 & mc1 & Hp & _ & _ & Hrest & _).
    specialize (IH ltac:(lia)). rewrite Hp in IH. simpl in IH.
    rewrite list_pass_S, Hp. unfold list_pass_body. rewrite Nat2Z.id.
    destruct (lookup_lt_is_Some_2 D n) as [dn Hdn]; [lia|].
    destruct (Hrest n (le_n _)) as [-> _]. rewrite Hdn.
    rewrite (take_S_r D n dn Hdn), zeros_snoc.
    destruct (Z.gtb_spec dn 0).
    { simpl. destruct (Z.eqb_spec dn 0); [lia|]. by rewrite Z.add_0_r. }
    destruct (Z.ltb_spec dn 0).
    { simpl. destruct (Z.eqb_spec dn 0); [lia|]. by rewrite Z.add_0_r. }
    simpl. destruct (Z.eqb_spec dn 0); [|lia].
    rewrite IH, uint16_t_succ. f_equal. lia.
Qed.

(** A whole pass: every delta one unit toward zero, its counter one unit
    on, the zeros counted, and [max_changed] at or above every motor that
    moved. *)
Lemma list_pass_full (D T : list Z) (z : Z) :
  0 ≤ z < 65536 →
  ∃ (T' : list Z) (mc : Z),
    list_pass (Z.of_nat (length D)) (D, T, z, 0)
    = (toward_zero <$> D, T', uint16_t (z + zeros D), mc) ∧
    length T' = length T ∧
    0 ≤ mc < Z.max (Z.of_nat (length D)) 1 ∧
    (∀ (i : nat) (d : Z), D !! i = Some d → d ≠ 0 → Z.of_nat i ≤ mc).
Proof.
  intros Hz.
  pose proof (list_pass_max_changed D T z (length D) Hz (le_n _)) as Hmax.
  pose proof (list_pass_zeros D T z (length D) Hz (le_n _)) as Hzeros.
  destruct (list_pass_inv D T z (length D) Hz (le_n _))
    as (D' & T' & z' & mc & Hp & HlD & HlT & Hrest & Hdone & _ & _ & Hmc).
  rewrite Hp in Hmax, Hzeros. simpl in Hmax, Hzeros.
  rewrite firstn_all in Hzeros.
  exists T', mc. split; [|split; [done|split; [done|]]].
  - rewrite Hp, Hzeros. do 3 f_equal. apply list_eq. intros i.
    rewrite list_lookup_fmap. destruct (D !! i) as [d|] eqn:Hd.
    + by destruct (Hdone i d (lookup_lt_Some _ _ _ Hd) Hd) as [-> _].
    + destruct (Hrest i) as [-> _]; [|by rewrite Hd]. by apply lookup_ge_None.
  - intros i d Hd Hnz. apply (Hmax i d); [|done|done]. by eapply lookup_lt_Some.
Qed.

(** ** What the list overload returns *)

Lemma list_loop_run (fuel : nat) :
  ∀ (hs hs' : Hundred_Steppers) (D D' : list Z) (z : Z) (frs : list frame),
    Z.of_nat (length D) ≤ nSteppers hs ≤ 65535 → 0 ≤ z < 65536 →
    setStepperStep_list_loop fuel hs D z (Z.of_nat (length D)) = Some (hs', D', frs) →
    nSteppers hs' = nSteppers hs ∧ nSteps hs' = nSteps hs ∧
    step_delay hs' = step_delay hs ∧
    length (step_table hs') = length (step_table hs) ∧
    length D' = length D ∧
    (∀ (i : nat) (d : Z), D !! i = Some d →
       ∃ d' : Z, D' !! i = Some d' ∧
         Z.abs d' = Z.max (Z.abs d - Z.of_nat (length frs)) 0 ∧
         (0 ≤ d' ≤ d ∨ d ≤ d' ≤ 0)) ∧
    (∀ (k : nat) (fr : frame) (i : nat) (d : Z),
       frs !! k = Some fr → D !! i = Some d → Z.of_nat k < Z.abs d →
       Z.of_nat i ∈ motor <$> slots fr) ∧
    (clock_monotone → ∀ j : nat, (j < ticks hs)%nat →
       last_step_time hs = ulong (clock j) → spaced (step_delay hs) j frs).
Proof.
  induction fuel as [|fuel IH]; intros hs hs' D D' z frs HN Hz H; [done|].
  simpl in H. destruct (Z.ltb_spec z (Z.of_nat (length D))) as [Hlt|Hge].
  2:{ injection H as <- <- <-. repeat split; try done.
      intros i d Hd. exists d. split; [done|]. simpl. lia. }
  destruct (for_uint16 fuel _ list_pass_body 0 _) as [[[[D1 T1] z1] mc]|] eqn:Hp;
    [|done].
  simpl in H. apply list_pass_result in Hp; [|lia].
  destruct (list_pass_full D (step_table hs) z Hz) as (T1' & mc' & Hfull & HlT & Hmc & Hmax).
  rewrite Hfull in Hp. injection Hp as -> -> -> ->.
  set (hs1 := set_step_table hs T1') in *.
  destruct (step fuel hs1 mc') as [[hs2 fr]|] eqn:Hs; [|done]. simpl in H.
  rewrite <- (length_fmap toward_zero D) in H.
  destruct (setStepperStep_list_loop fuel hs2 (toward_zero <$> D)
              (uint16_t (z + zeros D)) (Z.of_nat (length (toward_zero <$> D))))
    as [[[hs3 D3] frs3]|] eqn:Hl; [|done].
  simpl in H. injection H as <- <- <-.
  pose proof (step_result fuel hs1 hs2 mc' fr ltac:(simpl; lia) ltac:(lia) Hs)
    as (Ht2 & HN2 & HS2 & HD2 & Hk2 & Htk2 & Hw2 & Hlt2 & Hsl).
  simpl in Ht2, HN2, HS2, HD2, Hk2.
  destruct (IH hs2 hs3 (toward_zero <$> D) D3 (uint16_t (z + zeros D)) frs3)
    as (HN3 & HS3 & HD3 & HL3 & HlD3 & Hlock & Hcov & Hsp).
  { rewrite length_fmap. lia. }
  { apply uint16_t_range. }
  { exact Hl. }
  rewrite length_fmap in HlD3.
  split; [congruence|]. split; [congruence|]. split; [congruence|].
  split; [congruence|]. split; [done|]. split; [|split].
  - intros i d Hd.
    destruct (Hlock i (toward_zero d)) as (d' & Hd' & Habs & Hdir).
    { by rewrite list_lookup_fmap, Hd. }
    exists d'. split; [done|]. pose proof (toward_zero_unit d). simpl length.
    split; lia.
  - intros k fr' i d Hk Hd Hkd. destruct k as [|k].
    + simpl in Hk. injection Hk as <-.
      rewrite Hsl, frame_slots_motor by (unfold frame_length; destruct (_ || _); simpl; lia).
      rewrite elem_of_reverse, elem_of_seqZ.
      assert (Z.of_nat i ≤ mc') by (apply (Hmax i d); [done|lia]).
      pose proof (lookup_lt_Some _ _ _ Hd).
      unfold frame_length. simpl. destruct (_ || _); lia.
    + simpl in Hk. apply (Hcov k fr' i (toward_zero d)); [done| |].
      * by rewrite list_lookup_fmap, Hd.
      * pose proof (toward_zero_unit d). lia.
  - intros Hm j Hj Hw. simpl.
    destruct (step_spaced fuel hs1 hs2 mc' fr j Hm Hj Hw Hs)
      as (Hj2 & Hd2 & Hk3 & Hw3 & _).
    simpl in Hd2. split; [done|]. split; [done|].
    rewrite <- HD2. by apply Hsp.
Qed.

Lemma list_length_guard_le (hs : Hundred_Steppers) (D : list Z) :
  Z.of_nat (length D) ≤ nSteppers hs → nSteppers hs ≤ 65535 →
  (if uint16_t (arrayLen D) >? nSteppers hs then nSteppers hs
   else uint16_t (arrayLen D)) = Z.of_nat (length D).
Proof.
  intros Hlen HN. unfold arrayLen. rewrite uint16_t_small by lia.
  destruct (Z.gtb_spec (Z.of_nat (length D)) (nSteppers hs)); [lia|done].
Qed.

(** X17: the motors of a list move advance in step.  When the move returns
    after [f] frames, every delta has come [f] units closer to zero, or has
    reached zero: what is left of [D[i]] in the caller's array has the
    magnitude [max (|D[i]| - f) 0] and the sign of [D[i]]. *)
Theorem setStepperStep_list_lockstep (hs : Hundred_Steppers) (D : list Z) :
  clock_ok (step_delay hs) →
  Z.of_nat (length D) ≤ nSteppers hs → nSteppers hs < 65535 →
  ∃ (hs' : Hundred_Steppers) (D' : list Z) (frs : list frame),
    returns (λ fuel, setStepperStep_list fuel hs D) (hs', D', frs) ∧
    ∀ (i : nat) (d : Z), D !! i = Some d →
      ∃ d' : Z, D' !! i = Some d' ∧
        Z.abs d' = Z.max (Z.abs d - Z.of_nat (length frs)) 0 ∧
        (0 ≤ d' ≤ d ∨ d ≤ d' ≤ 0).
Proof.
  intros Hck Hlen HN. unfold setStepperStep_list.
  rewrite list_length_guard by lia.
  pose proof (max_abs_bound D) as [H0 Hb].
  destruct (list_loop_returns (Z.to_nat (max_abs D)) hs D 0)
    as (hs' & D' & frs & Hl & _); try done; try lia.
  { eapply Forall_impl; [exact Hb|]. simpl. lia. }
  exists hs', D', frs. split; [done|].
  destruct Hl as [f0 Hl]. specialize (Hl f0 (le_n _)).
  by destruct (list_loop_run f0 hs hs' D D' 0 frs ltac:(lia) ltac:(lia) Hl)
    as (_ & _ & _ & _ & _ & Hlock & _).
Qed.

(** X18: no step is lost on the wire.  The frame sent after the pass
    number [k] (counted from 0) of a list move carries every motor that
    moved in that pass, that is every motor [i] with [|D[i]| > k]: the
    length handed to [step] is the highest index that moved. *)
Theorem setStepperStep_list_covers (fuel : nat) (hs hs' : Hundred_Steppers)
    (D D' : list Z) (frs : list frame) :
  Z.of_nat (length D) ≤ nSteppers hs → nSteppers hs ≤ 65535 →
  setStepperStep_list fuel hs D = Some (hs', D', frs) →
  ∀ (k : nat) (fr : frame) (i : nat) (d : Z),
    frs !! k = Some fr → D !! i = Some d → Z.of_nat k < Z.abs d →
    Z.of_nat i ∈ motor <$> slots fr.
Proof.
  intros Hlen HN H. unfold setStepperStep_list in H.
  rewrite list_length_guard_le in H by lia.
  by destruct (list_loop_run fuel hs hs' D D' 0 frs ltac:(lia) ltac:(lia) H)
    as (_ & _ & _ & _ & _ & _ & Hcov & _).
Qed.

(** ** When the list move is complete *)

Lemma idle_passes_nonneg (m : Z) (l : list Z) : 0 ≤ idle_passes m l.
Proof. induction l as [|d l IH]; simpl; lia. Qed.

Lemma idle_passes_step (m : Z) (l : list Z) :
  0 ≤ m →
  idle_passes m (toward_zero <$> l) + zeros l = idle_passes (m + 1) l.
Proof.
  intros Hm. induction l as [|d l IH]; [done|]. csimpl.
  pose proof (toward_zero_unit d) as (_ & _ & Habs).
  destruct (Z.eqb_spec d 0); lia.
Qed.

Lemma list_loop_completes (m : nat) :
  ∀ (fuel : nat) (hs hs' : Hundred_Steppers) (D D' : list Z) (z : Z)
    (frs : list frame),
    Forall (λ d, Z.abs d ≤ Z.of_nat m + 1) D →
    0 ≤ z → z + idle_passes (Z.of_nat m) D < Z.of_nat (length D) →
    Z.of_nat (length D) ≤ nSteppers hs ≤ 65535 →
    setStepperStep_list_loop fuel hs D z (Z.of_nat (length D)) = Some (hs', D', frs) →
    Forall (λ d, d = 0) D'.
Proof.
  induction m as [|m IH]; intros fuel hs hs' D D' z frs Hall Hz Hidle HN H.
  - destruct fuel as [|fuel]; [done|]. simpl in H.
    pose proof (idle_passes_nonneg (Z.of_nat 0) D).
    destruct (Z.ltb_spec z (Z.of_nat (length D))) as [Hlt|Hge]; [|lia].
    destruct (for_uint16 fuel _ list_pass_body 0 _) as [[[[D1 T1] z1] mc]|] eqn:Hp;
      [|done].
    simpl in H. apply list_pass_result in Hp; [|lia].
    destruct (list_pass_full D (step_table hs) z ltac:(lia))
      as (T1' & mc' & Hfull & HlT & Hmc & Hmax).
    rewrite Hfull in Hp. injection Hp as -> -> -> ->.
    destruct (step fuel (set_step_table hs T1') mc') as [[hs2 fr]|] eqn:Hs; [|done].
    simpl in H. rewrite <- (length_fmap toward_zero D) in H.
    destruct (setStepperStep_list_loop fuel hs2 (toward_zero <$> D)
                (uint16_t (z + zeros D)) (Z.of_nat (length (toward_zero <$> D))))
      as [[[hs3 D3] frs3]|] eqn:Hl; [|done].
    simpl in H. injection H as <- <- <-.
    pose proof (step_result fuel (set_step_table hs T1') hs2 mc' fr
                  ltac:(simpl; lia) ltac:(lia) Hs)
      as (_ & HN2 & _).
    simpl in HN2.
    destruct (list_loop_run fuel hs2 hs3 (toward_zero <$> D) D3
                (uint16_t (z + zeros D)) frs3)
      as (_ & _ & _ & _ & HlD & Hlock & _).
    { rewrite length_fmap. lia. }
    { apply uint16_t_range. }
    { exact Hl. }
    apply Forall_lookup_2. intros i d3 Hd3.
    destruct (lookup_lt_is_Some_2 (toward_zero <$> D) i) as [d1 Hd1].
    { rewrite <- HlD. by eapply lookup_lt_Some. }
    destruct (Hlock i d1 Hd1) as (d' & Hd' & Habs & _).
    rewrite list_lookup_fmap in Hd1.
    destruct (D !! i) as [d|] eqn:Hd; [|done]. simpl in Hd1.
    pose proof (Forall_lookup_1 _ _ _ _ Hall Hd) as Hb. simpl in Hb.
    pose proof (toward_zero_unit d) as (_ & _ & Htz).
    assert (d3 = d') as -> by congruence.
    assert (d1 = toward_zero d) as -> by congruence. lia.
  - destruct fuel as [|fuel]; [done|]. simpl in H.
    pose proof (idle_passes_nonneg (Z.of_nat (S m)) D).
    destruct (Z.ltb_spec z (Z.of_nat (length D))) as [Hlt|Hge]; [|lia].
    destruct (for_uint16 fuel _ list_pass_body 0 _) as [[[[D1 T1] z1] mc]|] eqn:Hp;
      [|done].
    simpl in H. apply list_pass_result in Hp; [|lia].
    destruct (list_pass_full D (step_table hs) z ltac:(lia))
      as (T1' & mc' & Hfull & HlT & Hmc & Hmax).
    rewrite Hfull in Hp. injection Hp as -> -> -> ->.
    destruct (step fuel (set_step_table hs T1') mc') as [[hs2 fr]|] eqn:Hs; [|done].
    simpl in H. rewrite <- (length_fmap toward_zero D) in H.
    destruct (setStepperStep_list_loop fuel hs2 (toward_zero <$> D)
                (uint16_t (z + zeros D)) (Z.of_nat (length (toward_zero <$> D))))
      as [[[hs3 D3] frs3]|] eqn:Hl; [|done].
    simpl in H. injection H as <- <- <-.
    pose proof (step_result fuel (set_step_table hs T1') hs2 mc' fr
                  ltac:(simpl; lia) ltac:(lia) Hs)
      as (_ & HN2 & _).
    simpl in HN2.
    pose proof (idle_passes_step (Z.of_nat m) D ltac:(lia)) as Hstep.
    pose proof (idle_passes_nonneg (Z.of_nat m) (toward_zero <$> D)).
    replace (Z.of_nat m + 1) with (Z.of_nat (S m)) in Hstep by lia.
    pose proof (zeros_range D).
    apply (IH fuel hs2 hs3 (toward_zero <$> D) D3 (uint16_t (z + zeros D)) frs3);
      try done.
    + apply Forall_fmap. eapply Forall_impl; [exact Hall|]. simpl. intros d Hd.
      pose proof (toward_zero_unit d). lia.
    + pose proof (uint16_t_range (z + zeros D)). lia.
    + rewrite uint16_t_small, length_fmap by lia. lia.
    + rewrite length_fmap. lia.
Qed.

Lemma list_move_all_zero (fuel : nat) (hs hs' : Hundred_Steppers) (D D' : list Z)
    (frs : list frame) :
  Z.of_nat (length D) ≤ nSteppers hs ≤ 65535 →
  idle_passes (max_abs D - 1) D < Z.of_nat (length D) →
  setStepperStep_list_loop fuel hs D 0 (Z.of_nat (length D)) = Some (hs', D', frs) →
  D' = replicate (length D) 0.
Proof.
  intros HN Hidle Hrun. pose proof (max_abs_bound D) as [H0 Hb].
  destruct (list_loop_run fuel hs hs' D D' 0 frs ltac:(lia) ltac:(lia) Hrun)
    as (_ & _ & _ & _ & HlD & Hlock & _).
  assert (Forall (λ d, d = 0) D') as Hzero.
  { destruct (decide (max_abs D = 0)) as [Hmax|Hmax].
    - apply Forall_lookup_2. intros i d' Hd'.
      destruct (lookup_lt_is_Some_2 D i) as [d Hd].
      { rewrite <- HlD. by eapply lookup_lt_Some. }
      destruct (Hlock i d Hd) as (d'' & Hd'' & Habs & _).
      pose proof (Forall_lookup_1 _ _ _ _ Hb Hd) as Hbd. simpl in Hbd.
      assert (d' = d'') as -> by congruence. rewrite Hmax in Hbd. lia.
    - apply (list_loop_completes (Z.to_nat (max_abs D - 1)) fuel hs hs' D D' 0 frs);
        try done; try lia.
      + eapply Forall_impl; [exact Hb|]. simpl. lia.
      + rewrite Z2Nat.id by lia. lia. }
  apply list_eq. intros i. destruct (D' !! i) as [d'|] eqn:Hd'.
  - pose proof (Forall_lookup_1 _ _ _ _ Hzero Hd') as ->.
    symmetry. apply lookup_replicate_2. rewrite <- HlD. by eapply lookup_lt_Some.
  - symmetry. apply lookup_replicate_None. rewrite <- HlD.
    by apply lookup_ge_None.
Qed.

(** X20: a list move is complete whenever the shorter moves do not idle
    too long: if the passes that the deltas spend at zero before the last
    pass of the largest one, [sum (max 0 (max|D| - 1 - |D[i]|))], number
    fewer than the deltas, the move returns with every delta of the
    caller's array at zero and every counter increased by its delta. *)
Theorem setStepperStep_list_completes (hs : Hundred_Steppers) (D : list Z) :
  clock_ok (step_delay hs) → storage_ok hs →
  Z.of_nat (length D) ≤ nSteppers hs → nSteppers hs < 65535 →
  idle_passes (max_abs D - 1) D < Z.of_nat (length D) →
  ∃ (hs' : Hundred_Steppers) (D' : list Z) (frs : list frame),
    returns (λ fuel, setStepperStep_list fuel hs D) (hs', D', frs) ∧
    D' = replicate (length D) 0 ∧
    (∀ (i : nat) (d c : Z), D !! i = Some d → step_table hs !! i = Some c →
       step_table hs' !! i = Some (c + d)) ∧
    (∀ i : nat, (length D ≤ i)%nat → step_table hs' !! i = step_table hs !! i).
Proof.
  intros Hck Hst Hlen HN Hidle. unfold setStepperStep_list.
  rewrite list_length_guard by lia.
  pose proof (max_abs_bound D) as [H0 Hb].
  destruct (list_loop_returns (Z.to_nat (max_abs D)) hs D 0)
    as (hs' & D' & frs & Hl & (HlD & HlT & Hrest & Htr) & _); try done; try lia.
  { eapply Forall_impl; [exact Hb|]. simpl. lia. }
  pose proof Hl as [f0 Hrun]. specialize (Hrun f0 (le_n _)).
  pose proof (list_move_all_zero f0 hs hs' D D' frs ltac:(lia) Hidle Hrun) as HD'.
  exists hs', D', frs. split; [done|]. split; [done|]. split; [|done].
  intros i d c Hd Hc. destruct (Htr i d c Hd Hc) as (d' & c' & Hd' & Hc' & Hsum & _).
  rewrite HD' in Hd'. apply lookup_replicate in Hd' as [-> _].
  rewrite Hc'. f_equal. lia.
Qed.

(** ** A list longer than the motor count *)

Lemma list_pass_body_rest (rest : list Z) (i : Z) (st : pass_state) :
  0 ≤ i → (Z.to_nat i < length st.1.1.1)%nat →
  list_pass_body i (with_rest rest st) = with_rest rest (list_pass_body i st) ∧
  length (list_pass_body i st).1.1.1 = length st.1.1.1.
Proof.
  destruct st as [[[l T] z] mc]. simpl. intros Hi Hl.
  rewrite lookup_app_l by done.
  destruct (l !! Z.to_nat i) as [d|]; [|done].
  destruct (d >? 0); [|destruct (d <? 0)]; simpl;
    rewrite ?insert_app_l, ?length_insert by done; done.
Qed.

Lemma list_pass_loop_rest (rest : list Z) (len : Z) (fuel : nat) :
  ∀ (i : Z) (st : pass_state),
    0 ≤ i → len ≤ Z.of_nat (length st.1.1.1) →
    for_uint16 fuel (λ i, i <? len) list_pass_body i (with_rest rest st)
    = with_rest rest <$> for_uint16 fuel (λ i, i <? len) list_pass_body i st ∧
    ∀ r, for_uint16 fuel (λ i, i <? len) list_pass_body i st = Some r →
         length r.1.1.1 = length st.1.1.1.
Proof.
  induction fuel as [|fuel IH]; intros i st Hi Hlen; [done|]. simpl.
  destruct (Z.ltb_spec i len) as [Hlt|Hge]; [|split; [done|by intros r [= <-]]].
  destruct (list_pass_body_rest rest i st Hi ltac:(lia)) as [Hb Hl].
  rewrite Hb. pose proof (uint16_t_range (i + 1)).
  destruct (IH (uint16_t (i + 1)) (list_pass_body i st) ltac:(lia) ltac:(lia))
    as [IH1 IH2].
  split; [done|]. intros r Hr. rewrite (IH2 r Hr). done.
Qed.

Lemma list_loop_rest (rest : list Z) (len : Z) (fuel : nat) :
  ∀ (hs : Hundred_Steppers) (l : list Z) (z : Z),
    len ≤ Z.of_nat (length l) →
    setStepperStep_list_loop fuel hs (l ++ rest) z len
    = result_with_rest rest <$> setStepperStep_list_loop fuel hs l z len.
Proof.
  induction fuel as [|fuel IH]; intros hs l z Hlen; [done|]. simpl.
  destruct (z <? len); [|done].
  destruct (list_pass_loop_rest rest len fuel 0 (l, step_table hs, z, 0)
              ltac:(lia) Hlen) as [Hp Hl].
  change (l ++ rest, step_table hs, z, 0)
    with (with_rest rest (l, step_table hs, z, 0)).
  rewrite Hp.
  destruct (for_uint16 fuel _ list_pass_body 0 (l, step_table hs, z, 0))
    as [[[[l1 T1] z1] mc]|] eqn:E; [|done].
  specialize (Hl _ eq_refl). simpl in Hl. simpl.
  destruct (step fuel (set_step_table hs T1) mc) as [[hs2 fr]|]; [|done]. simpl.
  rewrite IH by lia.
  by destruct (setStepperStep_list_loop fuel hs2 l1 z1 len) as [[[hs3 l3] frs]|].
Qed.

(** X21: deltas past the motor count are neither read nor written: on a
    list that goes on after one delta per stepper the call does exactly
    what it does on the first [nSteppers] deltas, and the rest of the
    caller's array comes back as it was. *)
Theorem setStepperStep_list_long (fuel : nat) (hs : Hundred_Steppers)
    (D rest : list Z) :
  Z.of_nat (length D) = nSteppers hs →
  Z.of_nat (length (D ++ rest)) < 65536 →
  setStepperStep_list fuel hs (D ++ rest)
  = result_with_rest rest <$> setStepperStep_list fuel hs D.
Proof.
  intros HN Hlen. unfold setStepperStep_list, arrayLen.
  rewrite length_app in *.
  rewrite !uint16_t_small by lia.
  assert ((if Z.of_nat (length D + length rest) >? nSteppers hs
           then nSteppers hs else Z.of_nat (length D + length rest))
          = Z.of_nat (length D)) as ->.
  { destruct (Z.gtb_spec (Z.of_nat (length D + length rest)) (nSteppers hs)); lia. }
  assert ((if Z.of_nat (length D) >? nSteppers hs
           then nSteppers hs else Z.of_nat (length D))
          = Z.of_nat (length D)) as ->.
  { destruct (Z.gtb_spec (Z.of_nat (length D)) (nSteppers hs)); lia. }
  by apply list_loop_rest.
Qed.

(** ** [home] and the list overload *)

Lemma home_pass_body_view (i : Z) (st : pass_state) :
  home_pass_body i (home_view st) = home_view (list_pass_body i st).
Proof.
  destruct st as [[[D T] z] mc]. simpl.
  destruct (D !! Z.to_nat i) as [d|]; [|done].
  destruct (d >? 0); [done|]. by destruct (d <? 0).
Qed.

Lemma home_pass_view (cond : Z → bool) (fuel : nat) :
  ∀ (i : Z) (st : pass_state),
    for_uint16 fuel cond home_pass_body i (home_view st)
    = home_view <$> for_uint16 fuel cond list_pass_body i st.
Proof.
  induction fuel as [|fuel IH]; intros i st; [done|]. simpl.
  destruct (cond i); [|done]. rewrite home_pass_body_view. apply IH.
Qed.

Lemma wait_step_delay_sim (fuel : nat) :
  ∀ hs hsL : Hundred_Steppers, same_timing hs hsL →
    match wait_step_delay fuel hs, wait_step_delay fuel hsL with
    | Some hs1, Some hsL1 => ∃ k : nat, hs1 = set_ticks hs k ∧ hsL1 = set_ticks hsL k
    | None, None => True
    | _, _ => False
    end.
Proof.
  induction fuel as [|fuel IH]; intros hs hsL (HN & HS & HD & HW & HT); [done|].
  simpl. rewrite <- HT, <- HW, <- HD.
  destruct (_ <? _).
  - specialize (IH (set_ticks hs (S (ticks hs))) (set_ticks hsL (S (ticks hs)))).
    destruct (wait_step_delay fuel (set_ticks hs _)) as [hs1|],
             (wait_step_delay fuel (set_ticks hsL _)) as [hsL1|];
      by apply IH.
  - by exists (S (ticks hs)).
Qed.

Lemma frame_loop_sim (hs hsL : Hundred_Steppers) (len : Z) (fuel : nat) :
  ∀ (i : Z) (out outL : list slot), motor <$> out = motor <$> outL →
    match for_uint16 fuel (λ i, i <=? len)
            (λ i out, out ++ [shift_slot hs (len - i)]) i out,
          for_uint16 fuel (λ i, i <=? len)
            (λ i out, out ++ [shift_slot hsL (len - i)]) i outL with
    | Some sl, Some slL => motor <$> sl = motor <$> slL
    | None, None => True
    | _, _ => False
    end.
Proof.
  induction fuel as [|fuel IH]; intros i out outL H; [done|]. simpl.
  destruct (i <=? len); [|done]. apply IH. rewrite !fmap_app. by f_equal.
Qed.

Lemma step_sim (fuel : nat) (hs hsL : Hundred_Steppers) (len : Z) :
  same_timing hs hsL →
  match step fuel hs len, step fuel hsL len with
  | Some (hs', fr), Some (hsL', frL) =>
      same_timing hs' hsL' ∧ nSteppers hs' = nSteppers hs ∧
      step_table hs' = step_table hs ∧ step_table hsL' = step_table hsL ∧
      same_window fr frL
  | None, None => True
  | _, _ => False
  end.
Proof.
  intros Hst. unfold step.
  pose proof (wait_step_delay_sim fuel hs hsL Hst) as Hw.
  destruct Hst as (HN & HS & HD & HW & HT).
  destruct (wait_step_delay fuel hs) as [hs1|],
           (wait_step_delay fuel hsL) as [hsL1|]; try done.
  destruct Hw as (k & -> & ->). simpl.
  change (frame_length (set_last_step_time (set_ticks (set_ticks hs k) (S k)) _) len)
    with (frame_length hs len).
  change (frame_length (set_last_step_time (set_ticks (set_ticks hsL k) (S k)) _) len)
    with (frame_length hsL len).
  rewrite (frame_length_same hs hsL len) by done.
  set (a := set_last_step_time (set_ticks (set_ticks hs k) (S k)) (ulong (clock k))).
  set (b := set_last_step_time (set_ticks (set_ticks hsL k) (S k)) (ulong (clock k))).
  pose proof (frame_loop_sim a b (frame_length hs len) fuel 0 [] [] eq_refl) as Hf.
  destruct (for_uint16 fuel _ (λ i out, out ++ [shift_slot a _]) 0 []) as [sl|],
           (for_uint16 fuel _ (λ i out, out ++ [shift_slot b _]) 0 []) as [slL|];
    done.
Qed.

Lemma same_timing_refl (hs : Hundred_Steppers) : same_timing hs hs.
Proof. done. Qed.

Lemma home_loop_sim (fuel : nat) :
  ∀ (hs hsL : Hundred_Steppers) (z : Z), same_timing hs hsL →
    match home_loop fuel hs z,
          setStepperStep_list_loop fuel hsL (step_table hs) z (nSteppers hs) with
    | Some (hs', frs), Some (hsL', D', frsL) =>
        same_timing hs' hsL' ∧ step_table hs' = D' ∧ Forall2 same_window frs frsL
    | None, None => True
    | _, _ => False
    end.
Proof.
  induction fuel as [|fuel IH]; intros hs hsL z Hst; [done|]. simpl.
  destruct (z <? nSteppers hs); [|split; [done|split; [done|constructor]]].
  change (step_table hs, z, 0)
    with (home_view (step_table hs, step_table hsL, z, 0)).
  rewrite home_pass_view.
  destruct (for_uint16 fuel _ list_pass_body 0 _) as [[[[D1 T1] z1] mc]|]; [|done].
  simpl.
  pose proof (step_sim fuel (set_step_table hs D1) (set_step_table hsL T1) mc Hst)
    as Hs.
  destruct (step fuel (set_step_table hs D1) mc) as [[hs2 fr]|],
           (step fuel (set_step_table hsL T1) mc) as [[hsL2 frL]|]; try done.
  destruct Hs as (Hst2 & HN2 & Ht2 & _ & Hwin). simpl in *.
  specialize (IH hs2 hsL2 z1 Hst2). rewrite Ht2, HN2 in IH.
  destruct (home_loop fuel hs2 z1) as [[hs3 frs]|],
           (setStepperStep_list_loop fuel hsL2 D1 z1 (nSteppers hs))
             as [[[hsL3 D3] frsL]|]; try done.
  simpl. destruct IH as (? & ? & ?). split; [done|]. split; [done|]. by constructor.
Qed.

Lemma home_of_list_run (fuel : nat) (hs hsL : Hundred_Steppers) (D' : list Z)
    (frsL : list frame) :
  storage_ok hs →
  setStepperStep_list_loop fuel hs (step_table hs) 0
    (Z.of_nat (length (step_table hs))) = Some (hsL, D', frsL) →
  ∃ (hs' : Hundred_Steppers) (frs : list frame),
    home fuel hs = Some (hs', frs) ∧ step_table hs' = D' ∧
    same_timing hs' hsL ∧ Forall2 same_window frs frsL.
Proof.
  intros Hst H. pose proof (home_loop_sim fuel hs hs 0 (same_timing_refl hs)) as Hsim.
  rewrite <- Hst, H in Hsim. unfold home.
  destruct (home_loop fuel hs 0) as [[hs' frs]|]; [|done].
  destruct Hsim as (? & ? & ?). by exists hs', frs.
Qed.

Lemma list_of_home_run (fuel : nat) (hs hs' : Hundred_Steppers) (frs : list frame) :
  storage_ok hs → home fuel hs = Some (hs', frs) →
  ∃ (hsL : Hundred_Steppers) (frsL : list frame),
    setStepperStep_list_loop fuel hs (step_table hs) 0
      (Z.of_nat (length (step_table hs))) = Some (hsL, step_table hs', frsL) ∧
    same_timing hs' hsL ∧ Forall2 same_window frs frsL.
Proof.
  intros Hst H. pose proof (home_loop_sim fuel hs hs 0 (same_timing_refl hs)) as Hsim.
  unfold home in H. rewrite <- Hst, H in Hsim.
  destruct (setStepperStep_list_loop fuel hs _ 0 _) as [[[hsL D'] frsL]|]; [|done].
  destruct Hsim as (? & <- & ?). by exists hsL, frsL.
Qed.

(** X22: [home] is the list overload run on the counters themselves.  On
    the same fuel both return or neither does; the counters that [home]
    leaves are what the list move leaves of the caller's array, and frame
    by frame the two store the same reading of the clock and address the
    same motors. *)
Theorem home_as_list_move (fuel : nat) (hs : Hundred_Steppers) :
  storage_ok hs → nSteppers hs ≤ 65535 →
  match home fuel hs, setStepperStep_list fuel hs (step_table hs) with
  | Some (hs', frs), Some (hsL, D', frsL) =>
      step_table hs' = D' ∧ same_timing hs' hsL ∧ Forall2 same_window frs frsL
  | None, None => True
  | _, _ => False
  end.
Proof.
  intros Hst HN. unfold home, setStepperStep_list.
  rewrite list_length_guard_le by (unfold storage_ok in Hst; lia).
  pose proof (home_loop_sim fuel hs hs 0 (same_timing_refl hs)) as Hsim.
  rewrite <- Hst in Hsim.
  destruct (home_loop fuel hs 0) as [[hs' frs]|],
           (setStepperStep_list_loop fuel hs _ 0 _) as [[[hsL D'] frsL]|]; try done.
  by destruct Hsim as (? & ? & ?).
Qed.

(** X23: for fewer than 65535 steppers and a clock that advances, [home]
    returns, and it never moves a counter away from zero or across it:
    after the [f] frames of the call every counter has the sign it had and
    the magnitude [max (|c| - f) 0].  The motor count and the storage are
    as before. *)
Theorem home_lockstep (hs : Hundred_Steppers) :
  clock_ok (step_delay hs) → storage_ok hs → nSteppers hs < 65535 →
  ∃ (hs' : Hundred_Steppers) (frs : list frame),
    returns (λ fuel, home fuel hs) (hs', frs) ∧
    nSteppers hs' = nSteppers hs ∧ storage_ok hs' ∧
    ∀ (i : nat) (c : Z), step_table hs !! i = Some c →
      ∃ c' : Z, step_table hs' !! i = Some c' ∧
        Z.abs c' = Z.max (Z.abs c - Z.of_nat (length frs)) 0 ∧
        (0 ≤ c' ≤ c ∨ c ≤ c' ≤ 0).
Proof.
  intros Hck Hst HN. pose proof Hst as Hst'. unfold storage_ok in Hst'.
  pose proof (max_abs_bound (step_table hs)) as [H0 Hb].
  destruct (list_loop_returns (Z.to_nat (max_abs (step_table hs))) hs (step_table hs) 0)
    as (hsL & D' & frsL & [f0 Hl] & _); try done; try lia.
  { eapply Forall_impl; [exact Hb|]. simpl. lia. }
  specialize (Hl f0 (le_n _)).
  destruct (home_of_list_run f0 hs hsL D' frsL Hst Hl)
    as (hs' & frs & Hh & Ht & (HNL & _) & Hwin).
  destruct (list_loop_run f0 hs hsL (step_table hs) D' 0 frsL ltac:(lia) ltac:(lia) Hl)
    as (HN' & _ & _ & _ & HlD & Hlock & _).
  exists hs', frs. split; [|split; [congruence|split]].
  - apply (returns_of_run _ f0); [|done]. intros f f' x. apply home_mono.
  - unfold storage_ok. rewrite Ht, HlD. congruence.
  - rewrite Ht, (Forall2_length _ _ _ Hwin). exact Hlock.
Qed.

(** X24: [home] brings every counter to zero whenever the counters nearer
    to zero do not idle too long: if the passes that the counters spend at
    zero before the last pass of the farthest one,
    [sum (max 0 (max|c| - 1 - |c[i]|))], number fewer than the steppers, the
    call returns with all counters at zero. *)
Theorem home_completes (hs : Hundred_Steppers) :
  clock_ok (step_delay hs) → storage_ok hs → nSteppers hs < 65535 →
  idle_passes (max_abs (step_table hs) - 1) (step_table hs) < nSteppers hs →
  ∃ (hs' : Hundred_Steppers) (frs : list frame),
    returns (λ fuel, home fuel hs) (hs', frs) ∧
    step_table hs' = replicate (Z.to_nat (nSteppers hs)) 0 ∧
    max_abs (step_table hs) ≤ Z.of_nat (length frs).
Proof.
  intros Hck Hst HN Hidle. pose proof Hst as Hst'. unfold storage_ok in Hst'.
  pose proof (max_abs_bound (step_table hs)) as [H0 Hb].
  destruct (list_loop_returns (Z.to_nat (max_abs (step_table hs))) hs (step_table hs) 0)
    as (hsL & D' & frsL & [f0 Hl] & _); try done; try lia.
  { eapply Forall_impl; [exact Hb|]. simpl. lia. }
  specialize (Hl f0 (le_n _)).
  destruct (home_of_list_run f0 hs hsL D' frsL Hst Hl)
    as (hs' & frs & Hh & Ht & _ & Hwin).
  pose proof (list_move_all_zero f0 hs hsL (step_table hs) D' frsL
                ltac:(lia) ltac:(lia) Hl) as HD'.
  destruct (list_loop_run f0 hs hsL (step_table hs) D' 0 frsL ltac:(lia) ltac:(lia) Hl)
    as (_ & _ & _ & _ & _ & Hlock & _).
  exists hs', frs. split; [|split].
  - apply (returns_of_run _ f0); [|done]. intros f f' x. apply home_mono.
  - rewrite Ht, HD'. f_equal. lia.
  - rewrite (Forall2_length _ _ _ Hwin).
    assert (Forall (λ d, Z.abs d ≤ Z.of_nat (length frsL)) (step_table hs)) as Hall.
    { apply Forall_lookup_2. intros i c Hc.
      destruct (Hlock i c Hc) as (c' & Hc' & Habs & _).
      rewrite HD' in Hc'. apply lookup_replicate in Hc' as [-> _]. lia. }
    clear -Hall. induction Hall as [|c l Hc Hall IH]; simpl; lia.
Qed.

Lemma list_pass_at_rest (D T : list Z) (z mc : Z) (n : nat) :
  Forall (λ d, d = 0) D → (n ≤ length D)%nat →
  list_pass (Z.of_nat n) (D, T, z, mc) = (D, T, uint16_t (z + Z.of_nat n), mc) ∨
  (n = 0%nat ∧ list_pass (Z.of_nat n) (D, T, z, mc) = (D, T, z, mc)).
Proof.
  intros Hall. induction n as [|n IH]; intros Hn; [by right|]. left.
  destruct (lookup_lt_is_Some_2 D n) as [d Hd]; [lia|].
  pose proof (Forall_lookup_1 _ _ _ _ Hall Hd) as Hd0. simpl in Hd0. subst d.
  rewrite list_pass_S.
  destruct (IH ltac:(lia)) as [->|[-> ->]]; unfold list_pass_body;
    rewrite Nat2Z.id, Hd; simpl.
  - rewrite uint16_t_succ. do 2 f_equal. f_equal. lia.
  - done.
Qed.

(** X25: on a driver at rest (every counter at zero) [home] still sends one
    frame, and exactly one: it calls [step(0)], which the guard of [step]
    turns into a frame for the full length, one call of [fastShiftOut] for
    each index from the motor count itself down to 0, and the counters stay
    at zero. *)
Theorem home_at_rest (hs : Hundred_Steppers) :
  clock_ok (step_delay hs) → storage_ok hs → 0 < nSteppers hs < 65535 →
  Forall (λ c, c = 0) (step_table hs) →
  ∃ (hs' : Hundred_Steppers) (fr : frame),
    returns (λ fuel, home fuel hs) (hs', [fr]) ∧
    step_table hs' = step_table hs ∧
    motor <$> slots fr = reverse (seqZ 0 (nSteppers hs + 1)) ∧
    (ticks hs < stamp fr)%nat.
Proof.
  intros Hck Hst HN Hall. pose proof Hst as Hst'. unfold storage_ok in Hst'.
  assert (frame_length hs 0 = nSteppers hs) as Hfl by done.
  destruct (step_returns hs 0 Hck ltac:(lia)) as (k & Hk & Hg & [f1 Hstep]).
  rewrite Hfl in Hstep.
  exists (after_step hs (S k)), (mkFrame (S k) (frame_slots hs (nSteppers hs))).
  split; [|split; [done|split]].
  - exists (S (S (f1 `max` Z.to_nat (nSteppers hs)))).
    intros [|fuel] Hf; [lia|]. unfold home. cbn [home_loop].
    destruct (Z.ltb_spec 0 (nSteppers hs)); [|lia].
    change (step_table hs, 0, 0)
      with (home_view (step_table hs, step_table hs, 0, 0)).
    rewrite home_pass_view, list_pass_returns by lia.
    pose proof (list_pass_at_rest (step_table hs) (step_table hs) 0 0
                  (length (step_table hs)) Hall (le_n _)) as Hp.
    rewrite Hst', Z.add_0_l, uint16_t_small in Hp by lia.
    destruct Hp as [->|[? _]]; [|lia].
    cbn [fmap option_fmap option_map home_view mbind option_bind].
    rewrite set_step_table_same, Hstep by lia.
    cbn [mbind option_bind]. destruct fuel as [|fuel]; [lia|]. cbn [home_loop].
    change (nSteppers (after_step hs (S k))) with (nSteppers hs).
    destruct (Z.ltb_spec (nSteppers hs) (nSteppers hs)); [lia|done].
  - simpl. rewrite frame_slots_motor by lia. done.
  - simpl. lia.
Qed.

(** X26: no step of [home] is lost on the wire: the frame sent after the
    pass number [k] (counted from 0) carries every motor that moved in that
    pass, that is every motor [i] whose counter had a magnitude above
    [k]. *)
Theorem home_covers (fuel : nat) (hs hs' : Hundred_Steppers) (frs : list frame) :
  storage_ok hs → nSteppers hs ≤ 65535 →
  home fuel hs = Some (hs', frs) →
  ∀ (k : nat) (fr : frame) (i : nat) (c : Z),
    frs !! k = Some fr → step_table hs !! i = Some c → Z.of_nat k < Z.abs c →
    Z.of_nat i ∈ motor <$> slots fr.
Proof.
  intros Hst HN H k fr i c Hk Hc Hkc. pose proof Hst as Hst'. unfold storage_ok in Hst'.
  destruct (list_of_home_run fuel hs hs' frs Hst H) as (hsL & frsL & Hl & _ & Hwin).
  destruct (list_loop_run fuel hs hsL (step_table hs) (step_table hs') 0 frsL
              ltac:(lia) ltac:(lia) Hl) as (_ & _ & _ & _ & _ & _ & Hcov & _).
  destruct (Forall2_lookup_l _ _ _ _ _ Hwin Hk) as (frL & HkL & _ & ->).
  by apply (Hcov k frL i c).
Qed.
(** ** What every move keeps *)

Lemma step_invariants (fuel : nat) (hs hs' : Hundred_Steppers) (len : Z) (fr : frame) :
  step fuel hs len = Some (hs', fr) →
  same_configuration hs hs' ∧ step_table hs' = step_table hs ∧
  watermark hs' (stamp fr) ∧
  (clock_monotone → ∀ j : nat, watermark hs j →
     (j < stamp fr)%nat ∧ clock j + step_delay hs ≤ clock (stamp fr)).
Proof.
  intros H. pose proof H as (k & Hk & Hg & -> & Hst)%step_inv.
  rewrite Hst. split; [done|]. split; [done|]. split.
  - split; simpl; [lia|done].
  - intros Hm j [Hj Hw].
    destruct (step_spaced fuel hs _ len fr j Hm Hj Hw H) as (? & ? & _).
    by rewrite <- Hst.
Qed.

Lemma list_pass_loop_length (cond : Z → bool) (fuel : nat) :
  ∀ (i : Z) (st r : pass_state),
    for_uint16 fuel cond list_pass_body i st = Some r →
    length r.1.1.2 = length st.1.1.2.
Proof.
  induction fuel as [|fuel IH]; intros i st r H; [done|]. simpl in H.
  destruct (cond i); [|by injection H as <-].
  rewrite (IH _ _ _ H). destruct st as [[[D T] z] mc]. simpl.
  destruct (D !! Z.to_nat i) as [d|]; [|done].
  destruct (d >? 0); [|destruct (d <? 0)]; simpl; by rewrite ?length_alter.
Qed.

Lemma home_pass_loop_length (cond : Z → bool) (fuel : nat) :
  ∀ (i : Z) (st r : list Z * Z * Z),
    for_uint16 fuel cond home_pass_body i st = Some r →
    length r.1.1 = length st.1.1.
Proof.
  induction fuel as [|fuel IH]; intros i st r H; [done|]. simpl in H.
  destruct (cond i); [|by injection H as <-].
  rewrite (IH _ _ _ H). destruct st as [[T z] mc]. simpl.
  destruct (T !! Z.to_nat i) as [c|]; [|done].
  destruct (c >? 0); [|destruct (c <? 0)]; simpl; by rewrite ?length_insert.
Qed.

Lemma same_configuration_step (hs hs2 hs3 : Hundred_Steppers) (T : list Z) :
  length T = length (step_table hs) →
  same_configuration (set_step_table hs T) hs2 → same_configuration hs2 hs3 →
  same_configuration hs hs3.
Proof.
  intros HT (? & ? & ? & ?) (? & ? & ? & ?). simpl in *.
  repeat split; congruence.
Qed.

Lemma timing_step (hs hs1 hs2 hs3 : Hundred_Steppers) (fr : frame) (frs : list frame) :
  step_delay hs1 = step_delay hs → ticks hs1 = ticks hs →
  last_step_time hs1 = last_step_time hs →
  same_configuration hs1 hs2 → watermark hs2 (stamp fr) →
  (clock_monotone → ∀ j : nat, watermark hs1 j →
     (j < stamp fr)%nat ∧ clock j + step_delay hs1 ≤ clock (stamp fr)) →
  (clock_monotone → ∀ j : nat, watermark hs2 j →
     spaced (step_delay hs2) j frs ∧ watermark hs3 (last_stamp j frs)) →
  clock_monotone → ∀ j : nat, watermark hs j →
    spaced (step_delay hs) j (fr :: frs) ∧ watermark hs3 (last_stamp j (fr :: frs)).
Proof.
  intros HD HT HW (_ & _ & HD2 & _) Hw2 Hs Hrest Hm j [Hj Hw].
  destruct (Hs Hm j) as [Hlt Hsp]; [split; congruence|].
  destruct (Hrest Hm (stamp fr) Hw2) as [Hsp' Hw3].
  rewrite last_stamp_cons. split; [|done]. simpl.
  split; [done|]. split; [congruence|]. congruence.
Qed.

Lemma setStepperStep_loop_invariants (fuel : nat) :
  ∀ (hs hs' : Hundred_Steppers) (n steps_to_move : Z) (frs : list frame),
    setStepperStep_loop fuel hs n steps_to_move = Some (hs', frs) →
    same_configuration hs hs' ∧
    (clock_monotone → ∀ j : nat, watermark hs j →
       spaced (step_delay hs) j frs ∧ watermark hs' (last_stamp j frs)).
Proof.
  induction fuel as [|fuel IH]; intros hs hs' n s frs H; [done|].
  simpl in H. destruct (s =? 0).
  { injection H as <- <-. split; [done|]. intros _ j Hj. by split. }
  set (T1 := if s >? 0 then alter Z.succ (Z.to_nat n) (step_table hs)
             else alter Z.pred (Z.to_nat n) (step_table hs)).
  set (s1 := if s >? 0 then s - 1 else s + 1).
  assert (step fuel (set_step_table hs T1) n ≫= (λ '(hs2, fr),
            setStepperStep_loop fuel hs2 n s1 ≫= (λ '(hs3, frs),
              Some (hs3, fr :: frs))) = Some (hs', frs)) as H'
    by (subst T1 s1; destruct (s >? 0); exact H).
  clear H.
  assert (length T1 = length (step_table hs)) as HT1
    by (subst T1; destruct (s >? 0); by rewrite length_alter).
  destruct (step fuel (set_step_table hs T1) n) as [[hs2 fr]|] eqn:Hs; [|done].
  simpl in H'.
  destruct (setStepperStep_loop fuel hs2 n s1) as [[hs3 frs3]|] eqn:Hl; [|done].
  simpl in H'. injection H' as <- <-.
  apply step_invariants in Hs as (Hc2 & _ & Hw2 & Hsp).
  apply IH in Hl as (Hc3 & Hrest). split.
  - by apply (same_configuration_step hs hs2 hs3 T1).
  - by apply (timing_step hs (set_step_table hs T1) hs2 hs3).
Qed.

Lemma setStepperStep_list_loop_invariants (fuel : nat) :
  ∀ (hs hs' : Hundred_Steppers) (D D' : list Z) (z len : Z) (frs : list frame),
    setStepperStep_list_loop fuel hs D z len = Some (hs', D', frs) →
    same_configuration hs hs' ∧
    (clock_monotone → ∀ j : nat, watermark hs j →
       spaced (step_delay hs) j frs ∧ watermark hs' (last_stamp j frs)).
Proof.
  induction fuel as [|fuel IH]; intros hs hs' D D' z len frs H; [done|].
  simpl in H. destruct (z <? len).
  2:{ injection H as <- <- <-. split; [done|]. intros _ j Hj. by split. }
  destruct (for_uint16 fuel _ list_pass_body 0 _) as [[[[D1 T1] z1] mc]|] eqn:Hp;
    [|done].
  apply list_pass_loop_length in Hp. simpl in Hp, H.
  destruct (step fuel (set_step_table hs T1) mc) as [[hs2 fr]|] eqn:Hs; [|done].
  simpl in H.
  destruct (setStepperStep_list_loop fuel hs2 D1 z1 len) as [[[hs3 D3] frs3]|] eqn:Hl;
    [|done].
  simpl in H. injection H as <- <- <-.
  apply step_invariants in Hs as (Hc2 & _ & Hw2 & Hsp).
  apply IH in Hl as (Hc3 & Hrest). split.
  - by apply (same_configuration_step hs hs2 hs3 T1).
  - by apply (timing_step hs (set_step_table hs T1) hs2 hs3).
Qed.

Lemma home_loop_invariants (fuel : nat) :
  ∀ (hs hs' : Hundred_Steppers) (z : Z) (frs : list frame),
    home_loop fuel hs z = Some (hs', frs) →
    same_configuration hs hs' ∧
    (clock_monotone → ∀ j : nat, watermark hs j →
       spaced (step_delay hs) j frs ∧ watermark hs' (last_stamp j frs)).
Proof.
  induction fuel as [|fuel IH]; intros hs hs' z frs H; [done|].
  simpl in H. destruct (z <? nSteppers hs).
  2:{ injection H as <- <-. split; [done|]. intros _ j Hj. by split. }
  destruct (for_uint16 fuel _ home_pass_body 0 _) as [[[T1 z1] mc]|] eqn:Hp; [|done].
  apply home_pass_loop_length in Hp. simpl in Hp, H.
  destruct (step fuel (set_step_table hs T1) mc) as [[hs2 fr]|] eqn:Hs; [|done].
  simpl in H.
  destruct (home_loop fuel hs2 z1) as [[hs3 frs3]|] eqn:Hl; [|done].
  simpl in H. injection H as <- <-.
  apply step_invariants in Hs as (Hc2 & _ & Hw2 & Hsp).
  apply IH in Hl as (Hc3 & Hrest). split.
  - by apply (same_configuration_step hs hs2 hs3 T1).
  - by apply (timing_step hs (set_step_table hs T1) hs2 hs3).
Qed.

Lemma moved_invariants (fuel : nat) (hs hs' : Hundred_Steppers) (frs : list frame) :
  moved fuel hs hs' frs →
  same_configuration hs hs' ∧
  (clock_monotone → ∀ j : nat, watermark hs j →
     spaced (step_delay hs) j frs ∧ watermark hs' (last_stamp j frs)).
Proof.
  intros [(n & s & H)|[(D & D' & H)|H]].
  - unfold setStepperStep in H. destruct (n <? nSteppers hs).
    + by apply setStepperStep_loop_invariants in H.
    + injection H as <- <-. split; [done|]. intros _ j Hj. by split.
  - by apply setStepperStep_list_loop_invariants in H.
  - by apply home_loop_invariants in H.
Qed.

(** X27: whichever of the three moves is called, with whatever arguments,
    the driver it returns has the motor count, the steps per revolution, the
    delay between frames and the size of the storage that it had: a
    storage of one counter per stepper stays one. *)
Theorem motion_keeps_configuration (fuel : nat) (hs hs' : Hundred_Steppers)
    (frs : list frame) :
  moved fuel hs hs' frs →
  nSteppers hs' = nSteppers hs ∧ nSteps hs' = nSteps hs ∧
  step_delay hs' = step_delay hs ∧
  length (step_table hs') = length (step_table hs) ∧
  (storage_ok hs → storage_ok hs') ∧
  getStepperNum hs' = getStepperNum hs.
Proof.
  intros H. apply moved_invariants in H as [(HN & HS & HD & HL) _].
  repeat split; try done. unfold storage_ok. congruence.
Qed.

(** X28: on a clock that does not go back, the frames of every move are
    spaced: when [last_step_time] holds the reading [j], the first frame of
    the move stores a reading at least [step_delay] microseconds after [j],
    every later frame one at least [step_delay] after the frame before it,
    and when the move returns [last_step_time] holds the reading of its last
    frame (or [j] still, if it sent none).  So the spacing carries over from
    one move to the next. *)
Theorem motion_spacing (fuel : nat) (hs hs' : Hundred_Steppers) (frs : list frame)
    (j : nat) :
  clock_monotone → watermark hs j → moved fuel hs hs' frs →
  spaced (step_delay hs) j frs ∧ watermark hs' (last_stamp j frs) ∧
  step_delay hs' = step_delay hs.
Proof.
  intros Hm Hj H. apply moved_invariants in H as [(_ & _ & HD & _) Hsp].
  destruct (Hsp Hm j Hj). done.
Qed.
(** ** A new driver *)

(** X29: the constructor returns a driver with the motor count it was
    given, one counter per stepper, all at zero, [last_step_time] at the
    reading of the clock taken in the constructor and the delay of one
    revolution per second: the largest whole number of microseconds with
    [nSteps * step_delay] within a second.  It does not look at what
    [calloc] returns: when the heap has no room the driver still reports
    the motor count it was given, with no counter behind it. *)
Theorem constructor_spec (k : nat) (n steps : Z) :
  0 < n → 0 < steps →
  (∃ hs : Hundred_Steppers,
     Hundred_Steppers_new true k n steps = Some hs ∧
     getStepperNum hs = n ∧ nSteps hs = steps ∧ storage_ok hs ∧
     step_table hs = replicate (Z.to_nat n) 0 ∧ watermark hs k ∧
     steps * step_delay hs ≤ 1000000 < steps * (step_delay hs + 1)) ∧
  (∃ hs : Hundred_Steppers,
     Hundred_Steppers_new false k n steps = Some hs ∧
     getStepperNum hs = n ∧ step_table hs = [] ∧ ¬ storage_ok hs).
Proof.
  intros Hn Hs. unfold Hundred_Steppers_new, setSpeedRevPerMin. simpl.
  destruct (Z.eqb_spec steps 0) as [|_]; [lia|]. simpl. split.
  - eexists. split; [done|]. unfold storage_ok, getStepperNum, watermark. simpl.
    rewrite length_replicate.
    split; [done|]. split; [done|]. split; [lia|]. split; [done|].
    split; [split; [lia|done]|].
    change (60 * 1000 * 1000) with 60000000.
    rewrite (Z.quot_div_nonneg 60000000) by lia.
    rewrite Z.quot_div_nonneg by (try lia; apply Z.div_pos; lia).
    pose proof (Z.div_mod 60000000 steps ltac:(lia)) as H1.
    pose proof (Z.mod_pos_bound 60000000 steps Hs) as H1b.
    set (q := 60000000 / steps) in *.
    pose proof (Z.div_mod q 60 ltac:(lia)) as H2.
    pose proof (Z.mod_pos_bound q 60 ltac:(lia)) as H2b.
    nia.
  - eexists. split; [done|]. unfold storage_ok, getStepperNum. simpl.
    split; [done|]. split; [done|]. lia.
Qed.

(** ** A frame on the wire *)

Lemma mapM_fmap_Some {A B C : Type} (f : B → option C) (g : A → B) (h : A → C)
    (l : list A) :
  (∀ x, x ∈ l → f (g x) = Some (h x)) → mapM f (g <$> l) = Some (h <$> l).
Proof.
  intros H. apply mapM_Some. apply Forall2_fmap.
  induction l as [|x l IH]; constructor.
  - apply H. by left.
  - apply IH. intros y Hy. apply H. by right.
Qed.

(** X30: from the counters to the shift registers.  For counters that are
    not negative and a length [0 < length < nSteppers], a call of [step]
    hands [length + 1] defined bytes to [fastShiftOut], the byte of motor
    [length] first and the byte of motor 0 last, each the entry of
    [cmd_list] at its counter modulo [driver_mode]; and the registers take
    them in from the wire in that order, [step_line_num] bits per byte, bit
    0 first. *)
Theorem frame_on_the_wire (fuel : nat) (hs hs' : Hundred_Steppers) (len : Z)
    (fr : frame) (w : wiring) (p : Z → Z) (clk : bool) :
  0 < driver_mode → Z.of_nat (length cmd_list) = driver_mode →
  storage_ok hs → nSteppers hs ≤ 65535 → 0 < len < nSteppers hs →
  Forall (λ c, 0 ≤ c) (step_table hs) →
  wiring_ok w → 0 ≤ step_line_num w ≤ 8 →
  step fuel hs len = Some (hs', fr) →
  ∃ bytes : list Z,
    frame_bytes fr = Some bytes ∧
    Z.of_nat (length bytes) = len + 1 ∧
    (∀ (i : nat) (c : Z), Z.of_nat i ≤ len → step_table hs !! i = Some c →
       bytes !! (Z.to_nat len - i)%nat = cmd_list !! Z.to_nat (c mod driver_mode)) ∧
    shifted_in clk (shift_out_bytes w bytes p).2
    = concat ((λ b, Z.testbit b <$> seqZ 0 (step_line_num w)) <$> bytes).
Proof.
  intros Hdm Hcl Hst HN Hlen Hpos Hw Hln H. unfold storage_ok in Hst.
  apply step_result in H as (_ & _ & _ & _ & _ & _ & _ & _ & Hsl); [|lia|lia].
  assert (frame_length hs len = len) as Hfl.
  { unfold frame_length. destruct (Z.eqb_spec len 0); [lia|].
    destruct (Z.gtb_spec len (nSteppers hs)); [lia|done]. }
  rewrite Hfl, frame_slots_descending in Hsl by lia.
  set (byte_of := λ idx, default 0 (cmd (shift_slot hs idx))).
  assert (∀ idx : Z, 0 ≤ idx ≤ len →
            ∃ c : Z, step_table hs !! Z.to_nat idx = Some c ∧
              cmd (shift_slot hs idx) = cmd_list !! Z.to_nat (c mod driver_mode) ∧
              cmd (shift_slot hs idx) = Some (byte_of idx)) as Hbyte.
  { intros idx Hidx.
    destruct (lookup_lt_is_Some_2 (step_table hs) (Z.to_nat idx)) as [c Hc]; [lia|].
    pose proof (Forall_lookup_1 _ _ _ _ Hpos Hc) as Hc0. simpl in Hc0.
    pose proof (Z.mod_pos_bound c driver_mode Hdm) as Hb.
    destruct (lookup_lt_is_Some_2 cmd_list (Z.to_nat (c mod driver_mode)))
      as [b Hcmd]; [lia|].
    exists c. split; [done|]. subst byte_of. cbv beta.
    rewrite (shift_slot_nonneg hs idx c b) by (done || lia). simpl.
    by rewrite Hcmd. }
  exists (byte_of <$> reverse (seqZ 0 (len + 1))). split; [|split; [|split]].
  - unfold frame_bytes. rewrite Hsl. apply mapM_fmap_Some.
    intros idx Hidx. rewrite elem_of_reverse, elem_of_seqZ in Hidx.
    destruct (Hbyte idx ltac:(lia)) as (c & _ & _ & Hc). done.
  - rewrite length_fmap, length_reverse, length_seqZ. lia.
  - intros i c Hi Hc. rewrite list_lookup_fmap, reverse_lookup
      by (rewrite length_seqZ; lia).
    rewrite length_seqZ, lookup_seqZ_lt by lia. simpl.
    destruct (Hbyte (0 + Z.of_nat (Z.to_nat (len + 1) - S (Z.to_nat len - i)))
                ltac:(lia)) as (c' & Hc' & Hcmd & Hb).
    replace (Z.to_nat (0 + Z.of_nat (Z.to_nat (len + 1) - S (Z.to_nat len - i))))
      with i in Hc' by lia.
    assert (c' = c) as -> by congruence. by rewrite <- Hb, Hcmd.
  - by rewrite (shift_out_bytes_shifted w _ Hw Hln p clk).
Qed.
(** ** The caller's array *)

(** C7 (as amended): the list overload works in the caller's array and
    writes it.  When it returns, entry [i] of that array holds what is left
    of [D[i]] after the units that went to counter [i]:
    [D'[i] = D[i] - (c' - c)], between zero and [D[i]], and strictly nearer
    to zero than [D[i]] when [D[i]] is not zero: every delta that is not
    zero has been overwritten, so the array that comes back differs from
    the one handed in as soon as one delta is not zero.  The array keeps its
    length, and the counters that the list does not cover are untouched. *)
Theorem setStepperStep_list_in_place (hs : Hundred_Steppers) (D : list Z) :
  clock_ok (step_delay hs) → storage_ok hs →
  Z.of_nat (length D) ≤ nSteppers hs → nSteppers hs < 65535 →
  ∃ (hs' : Hundred_Steppers) (D' : list Z) (frs : list frame),
    returns (λ fuel, setStepperStep_list fuel hs D) (hs', D', frs) ∧
    length D' = length D ∧
    (∀ (i : nat) (d : Z), D !! i = Some d →
       ∃ d' c c' : Z,
         D' !! i = Some d' ∧ step_table hs !! i = Some c ∧
         step_table hs' !! i = Some c' ∧
         d' = d - (c' - c) ∧ (0 ≤ d' ≤ d ∨ d ≤ d' ≤ 0) ∧
         (d ≠ 0 → Z.abs d' < Z.abs d ∧ d' ≠ d ∧ c' ≠ c)) ∧
    (∀ i : nat, (length D ≤ i)%nat → step_table hs' !! i = step_table hs !! i) ∧
    (Exists (λ d, d ≠ 0) D → D' ≠ D).
Proof.
  intros Hck Hst Hlen HN. unfold setStepperStep_list.
  rewrite list_length_guard by lia.
  pose proof (max_abs_bound D) as [H0 Hb].
  destruct (list_loop_returns (Z.to_nat (max_abs D)) hs D 0)
    as (hs' & D' & frs & Hl & (HlD & HlT & Hrest & Htr) & _ & Hone & _);
    try done; try lia.
  { eapply Forall_impl; [exact Hb|]. simpl. lia. }
  pose proof Hl as [f0 Hrun]. specialize (Hrun f0 (le_n _)).
  destruct (list_loop_run f0 hs hs' D D' 0 frs ltac:(lia) ltac:(lia) Hrun)
    as (_ & _ & _ & _ & _ & Hlock & _).
  assert (∀ (i : nat) (d : Z), D !! i = Some d → d ≠ 0 →
            ∃ d' : Z, D' !! i = Some d' ∧ Z.abs d' < Z.abs d) as Hstrict.
  { intros i d Hd Hnz. destruct (Hlock i d Hd) as (d' & Hd' & Habs & _).
    exists d'. split; [done|]. apply lookup_lt_Some in Hd.
    specialize (Hone ltac:(lia)). lia. }
  exists hs', D', frs. split; [done|]. split; [done|]. split; [|split; [done|]].
  - intros i d Hd.
    destruct (lookup_lt_is_Some_2 (step_table hs) i) as [c Hc].
    { apply lookup_lt_Some in Hd. unfold storage_ok in Hst. lia. }
    destruct (Htr i d c Hd Hc) as (d' & c' & Hd' & Hc' & Hsum & Hdir).
    exists d', c, c'. split; [done|]. split; [done|]. split; [done|].
    split; [lia|]. split; [done|]. intros Hnz.
    destruct (Hstrict i d Hd Hnz) as (d'' & Hd'' & Hlt).
    assert (d'' = d') as -> by congruence. lia.
  - intros Hex Heq. apply Exists_exists in Hex as (d & Hin & Hnz).
    apply list_elem_of_lookup in Hin as [i Hd].
    destruct (Hstrict i d Hd Hnz) as (d' & Hd' & Hlt).
    rewrite Heq in Hd'. assert (d' = d) as -> by congruence. lia.
Qed.
End Driver.

(** * Runs on the bench *)

(** The bench driver at rest is the driver that the constructor builds. *)
Lemma bench_driver_fresh :
  Hundred_Steppers_new bench_clock true 0 3 200 = Some (bench_driver [0; 0; 0]).
Proof. reflexivity. Qed.

(** C1: three steppers at rest, deltas [3; 0; 0].  [zero_num] is not set
    back between the passes: the two zero deltas are counted twice, the
    loop ends after the second pass, and counter 0 has received 2 of its 3
    steps; the third is still in the caller's array. *)
Theorem setStepperStep_list_stops_early :
  ∃ (hs' : Hundred_Steppers) (D' : list Z) (frs : list frame),
    returns (λ fuel, setStepperStep_list bench_mode bench_cmd_list bench_clock
                       fuel (bench_driver [0; 0; 0]) [3; 0; 0])
      (hs', D', frs) ∧
    step_table hs' = [2; 0; 0] ∧ D' = [1; 0; 0] ∧ length frs = 2%nat.
Proof.
  eexists _, _, _. split.
  - apply (returns_of_run _ 30).
    + intros f f' x. apply setStepperStep_list_mono.
    + vm_compute. reflexivity.
  - done.
Qed.

(** C2: three steppers with the counters [3; 0; 0].  [home] counts the two
    counters at zero in each pass: after two passes [zero_num] is 4, the
    loop ends, and counter 0 is at 1. *)
Theorem home_stops_early :
  ∃ (hs' : Hundred_Steppers) (frs : list frame),
    returns (λ fuel, home bench_mode bench_cmd_list bench_clock fuel
                       (bench_driver [3; 0; 0]))
      (hs', frs) ∧
    step_table hs' = [1; 0; 0] ∧ length frs = 2%nat.
Proof.
  eexists _, _. split.
  - apply (returns_of_run _ 30).
    + intros f f' x. apply home_mono.
    + vm_compute. reflexivity.
  - done.
Qed.

(** The counters [3; 0; 0] of the run above are what a single-motor move
    of three steps leaves in a driver at rest. *)
Lemma bench_reaches_3_0_0 :
  ∃ (hs' : Hundred_Steppers) (frs : list frame),
    returns (λ fuel, setStepperStep bench_mode bench_cmd_list bench_clock fuel
                       (bench_driver [0; 0; 0]) 0 3)
      (hs', frs) ∧
    step_table hs' = [3; 0; 0].
Proof.
  eexists _, _. split.
  - apply (returns_of_run _ 30).
    + intros f f' x. apply setStepperStep_mono.
    + vm_compute. reflexivity.
  - done.
Qed.

(** C3, as the spec words it, fails: [step(1)] on three steppers sends the
    motors 1 and 0, not the single motor 0 of a count of one. *)
Lemma step_window_counterexample :
  ∃ (hs' : Hundred_Steppers) (fr : frame),
    returns (λ fuel, step bench_mode bench_cmd_list bench_clock fuel
                       (bench_driver [0; 0; 0]) 1)
      (hs', fr) ∧
    motor <$> slots fr = [1; 0] ∧
    counted_window (bench_driver [0; 0; 0]) 1 = [0] ∧
    motor <$> slots fr ≠ counted_window (bench_driver [0; 0; 0]) 1.
Proof.
  eexists _, _. split.
  - apply (returns_of_run _ 30).
    + intros f f' x. apply step_mono.
    + vm_compute. reflexivity.
  - done.
Qed.

(** The frame window on the bench: [step(2)] on three steppers. *)
Lemma step_window_witness :
  clock_ok bench_clock (step_delay (bench_driver [0; 0; 0])) ∧
  nSteppers (bench_driver [0; 0; 0]) ≤ 65535 ∧
  0 < 2 < nSteppers (bench_driver [0; 0; 0]) ∧
  ∃ (hs' : Hundred_Steppers) (fr : frame),
    returns (λ fuel, step bench_mode bench_cmd_list bench_clock fuel
                       (bench_driver [0; 0; 0]) 2)
      (hs', fr) ∧
    motor <$> slots fr = reverse (seqZ 0 (2 + 1)).
Proof.
  assert (clock_ok bench_clock (step_delay (bench_driver [0; 0; 0]))) as Hck
    by (split; intros k; [|exists (S k)]; unfold bench_clock; simpl; lia).
  assert (nSteppers (bench_driver [0; 0; 0]) ≤ 65535) as HN by (simpl; lia).
  assert (0 < 2 < nSteppers (bench_driver [0; 0; 0])) as Hlen by (simpl; lia).
  split; [exact Hck|]. split; [exact HN|]. split; [exact Hlen|].
  destruct (step_window bench_mode bench_cmd_list bench_clock
              (bench_driver [0; 0; 0]) 2 Hck HN) as [_ Hw].
  destruct (Hw Hlen) as (hs' & fr & Hr & _ & Hm & _).
  exists hs', fr. split; [exact Hr|exact Hm].
Defined.

(** The read past the storage on the bench: [step(0)] on three steppers
    starts at [step_table[3]]. *)
Lemma step_reads_past_storage_witness :
  clock_ok bench_clock (step_delay (bench_driver [0; 0; 0])) ∧
  storage_ok (bench_driver [0; 0; 0]) ∧
  nSteppers (bench_driver [0; 0; 0]) < 65535 ∧
  ∃ (hs' : Hundred_Steppers) (fr : frame),
    returns (λ fuel, step bench_mode bench_cmd_list bench_clock fuel
                       (bench_driver [0; 0; 0]) 0)
      (hs', fr) ∧
    slots fr !! 0%nat = Some (mkSlot 3 None None) ∧
    ¬ Forall (λ s, 0 ≤ motor s < 3) (slots fr).
Proof.
  assert (clock_ok bench_clock (step_delay (bench_driver [0; 0; 0]))) as Hck
    by (split; intros k; [|exists (S k)]; unfold bench_clock; simpl; lia).
  assert (storage_ok (bench_driver [0; 0; 0])) as Hst by reflexivity.
  assert (nSteppers (bench_driver [0; 0; 0]) < 65535) as HN by (simpl; lia).
  split; [exact Hck|]. split; [exact Hst|]. split; [exact HN|].
  exact (step_reads_past_storage bench_mode bench_cmd_list bench_clock
           (bench_driver [0; 0; 0]) 0 Hck Hst HN (or_introl eq_refl)).
Defined.

(** The negative phase index on the bench: two steppers, motor 1 one step
    back. *)
Lemma negative_counter_phase_witness :
  clock_ok bench_clock (step_delay (bench_driver [0; 0])) ∧
  0 < 1 < nSteppers (bench_driver [0; 0]) ∧
  step_table (bench_driver [0; 0]) !! Z.to_nat 1 = Some 0 ∧
  1 < bench_mode ∧
  ∃ (hs' : Hundred_Steppers) (fr : frame),
    returns (λ fuel, setStepperStep bench_mode bench_cmd_list bench_clock fuel
                       (bench_driver [0; 0]) 1 (-1))
      (hs', [fr]) ∧
    step_table hs' !! Z.to_nat 1 = Some (-1) ∧
    slots fr !! 0%nat = Some (mkSlot 1 (Some (-1)) None).
Proof.
  assert (clock_ok bench_clock (step_delay (bench_driver [0; 0]))) as Hck
    by (split; intros k; [|exists (S k)]; unfold bench_clock; simpl; lia).
  assert (0 < 1 < nSteppers (bench_driver [0; 0])) as Hn by (simpl; lia).
  assert (nSteppers (bench_driver [0; 0]) < 65535) as HN by (simpl; lia).
  assert (1 < bench_mode) as Hdm by (unfold bench_mode; lia).
  split; [exact Hck|]. split; [exact Hn|]. split; [reflexivity|].
  split; [exact Hdm|].
  exact (negative_counter_phase bench_mode bench_cmd_list bench_clock
           (bench_driver [0; 0]) 1 Hck Hn HN eq_refl Hdm).
Defined.

(** C6, as the spec words it, fails: one stepper and the delta [1] give two
    frames, not [max |D[i]| = 1]. *)
Lemma setStepperStep_list_frames_counterexample :
  ∃ (hs' : Hundred_Steppers) (D' : list Z) (frs : list frame),
    returns (λ fuel, setStepperStep_list bench_mode bench_cmd_list bench_clock
                       fuel (bench_driver [0]) [1])
      (hs', D', frs) ∧
    step_table hs' = [1] ∧ length frs = 2%nat ∧
    Z.of_nat (length frs) ≠ max_abs [1].
Proof.
  eexists _, _, _. split.
  - apply (returns_of_run _ 30).
    + intros f f' x. apply setStepperStep_list_mono.
    + vm_compute. reflexivity.
  - done.
Qed.

(** The frame count on the bench: the deltas [2; -1; 0]. *)
Lemma setStepperStep_list_frames_witness :
  clock_ok bench_clock (step_delay (bench_driver [0; 0; 0])) ∧
  1 ≤ Z.of_nat (length [2; -1; 0]) ≤ nSteppers (bench_driver [0; 0; 0]) ∧
  nSteppers (bench_driver [0; 0; 0]) < 65535 ∧
  ∃ (hs' : Hundred_Steppers) (D' : list Z) (frs : list frame),
    returns (λ fuel, setStepperStep_list bench_mode bench_cmd_list bench_clock
                       fuel (bench_driver [0; 0; 0]) [2; -1; 0])
      (hs', D', frs) ∧
    (1 ≤ length frs)%nat ∧
    (2 * Z.of_nat (length [2; -1; 0]) ≤ 65536 →
       Z.of_nat (length frs) ≤ max_abs [2; -1; 0] + 1) ∧
    (Forall (λ d, d = 0) [2; -1; 0] → length frs = 1%nat).
Proof.
  assert (clock_ok bench_clock (step_delay (bench_driver [0; 0; 0]))) as Hck
    by (split; intros k; [|exists (S k)]; unfold bench_clock; simpl; lia).
  assert (1 ≤ Z.of_nat (length [2; -1; 0]) ≤ nSteppers (bench_driver [0; 0; 0]))
    as Hlen by (simpl; lia).
  assert (nSteppers (bench_driver [0; 0; 0]) < 65535) as HN by (simpl; lia).
  split; [exact Hck|]. split; [exact Hlen|]. split; [exact HN|].
  exact (setStepperStep_list_frames bench_mode bench_cmd_list bench_clock
           (bench_driver [0; 0; 0]) [2; -1; 0] Hck Hlen HN).
Defined.

(** C7, as the spec words it, fails: after the move of [2; -1; 0] the
    caller's array holds [0; 0; 0]. *)
Lemma setStepperStep_list_in_place_counterexample :
  ∃ (hs' : Hundred_Steppers) (D' : list Z) (frs : list frame),
    returns (λ fuel, setStepperStep_list bench_mode bench_cmd_list bench_clock
                       fuel (bench_driver [0; 0; 0]) [2; -1; 0])
      (hs', D', frs) ∧
    D' = [0; 0; 0] ∧ D' ≠ [2; -1; 0].
Proof.
  eexists _, _, _. split.
  - apply (returns_of_run _ 30).
    + intros f f' x. apply setStepperStep_list_mono.
    + vm_compute. reflexivity.
  - done.
Qed.

(** The caller's array on the bench: the deltas [2; -1; 0]. *)
Lemma setStepperStep_list_in_place_witness :
  clock_ok bench_clock (step_delay (bench_driver [0; 0; 0])) ∧
  storage_ok (bench_driver [0; 0; 0]) ∧
  Z.of_nat (length [2; -1; 0]) ≤ nSteppers (bench_driver [0; 0; 0]) ∧
  nSteppers (bench_driver [0; 0; 0]) < 65535 ∧
  ∃ (hs' : Hundred_Steppers) (D' : list Z) (frs : list frame),
    returns (λ fuel, setStepperStep_list bench_mode bench_cmd_list bench_clock
                       fuel (bench_driver [0; 0; 0]) [2; -1; 0])
      (hs', D', frs) ∧
    length D' = length [2; -1; 0] ∧
    (∀ (i : nat) (d : Z), [2; -1; 0] !! i = Some d →
       ∃ d' c c' : Z,
         D' !! i = Some d' ∧ step_table (bench_driver [0; 0; 0]) !! i = Some c ∧
         step_table hs' !! i = Some c' ∧
         d' = d - (c' - c) ∧ (0 ≤ d' ≤ d ∨ d ≤ d' ≤ 0) ∧
         (d ≠ 0 → Z.abs d' < Z.abs d ∧ d' ≠ d ∧ c' ≠ c)) ∧
    (∀ i : nat, (3 ≤ i)%nat →
       step_table hs' !! i = step_table (bench_driver [0; 0; 0]) !! i) ∧
    D' ≠ [2; -1; 0].
Proof.
  assert (clock_ok bench_clock (step_delay (bench_driver [0; 0; 0]))) as Hck
    by (split; intros k; [|exists (S k)]; unfold bench_clock; simpl; lia).
  assert (storage_ok (bench_driver [0; 0; 0])) as Hst by reflexivity.
  assert (Z.of_nat (length [2; -1; 0]) ≤ nSteppers (bench_driver [0; 0; 0]))
    as Hlen by (simpl; lia).
  assert (nSteppers (bench_driver [0; 0; 0]) < 65535) as HN by (simpl; lia).
  split; [exact Hck|]. split; [exact Hst|]. split; [exact Hlen|].
  split; [exact HN|].
  destruct (setStepperStep_list_in_place bench_mode bench_cmd_list bench_clock
              (bench_driver [0; 0; 0]) [2; -1; 0] Hck Hst Hlen HN)
    as (hs' & D' & frs & Hr & Hl & Hin & Hrest & Hw).
  exists hs', D', frs. split; [exact Hr|]. split; [exact Hl|].
  split; [exact Hin|]. split; [exact Hrest|].
  apply Hw. apply Exists_cons_hd. lia.
Defined.

(** The move of motor 0 on the driver with 65535 steppers. *)
Lemma setStepperStep_spins_witness :
  nSteppers bench_largest = 65535 ∧ 1 ≠ 0 ∧
  setStepperStep bench_mode bench_cmd_list bench_clock 100 bench_largest 0 1 = None.
Proof.
  assert (nSteppers bench_largest = 65535) as HN by reflexivity.
  assert (1 ≠ 0) as Hs by lia.
  split; [exact HN|]. split; [exact Hs|].
  exact (setStepperStep_spins bench_mode bench_cmd_list bench_clock 100
           bench_largest 1 HN Hs).
Defined.

(** The timing gate on the bench: three frames, stored at the readings 6,
    12 and 18 of a clock that is read every millisecond. *)
Lemma step_spacing_witness :
  clock_monotone bench_clock ∧
  ∃ (hs' : Hundred_Steppers) (frs : list frame),
    step_calls bench_mode bench_cmd_list bench_clock 20
      (bench_driver [0; 0; 0]) [1; 2; 1] = Some (hs', frs) ∧
    stamp <$> frs = [6; 12; 18]%nat ∧
    spaced bench_clock (step_delay (bench_driver [0; 0; 0])) 0 frs ∧
    length frs = 3%nat.
Proof.
  assert (clock_monotone bench_clock) as Hm
    by (intros k; unfold bench_clock; lia).
  split; [exact Hm|].
  destruct (step_calls bench_mode bench_cmd_list bench_clock 20
              (bench_driver [0; 0; 0]) [1; 2; 1]) as [[hs' frs]|] eqn:E;
    [|vm_compute in E; discriminate E].
  exists hs', frs. split; [reflexivity|].
  destruct (step_spacing bench_mode bench_cmd_list bench_clock 20
              (bench_driver [0; 0; 0]) hs' [1; 2; 1] frs Hm E) as (Hl & _ & Hsp).
  split; [|split; [|exact Hl]].
  - vm_compute in E. injection E as _ <-. reflexivity.
  - apply (Hsp 0%nat); [simpl; lia|reflexivity].
Defined.

(** * Further runs on the bench *)

(** The byte 6 on four lines: the registers take in 0, 1, 1, 0. *)
Lemma fastShiftOut_bits_witness :
  wiring_ok bench_wiring ∧ 0 ≤ step_line_num bench_wiring ≤ 8 ∧
  shifted_in false (fastShiftOut bench_wiring 6 bench_ports).2
  = [false; true; true; false] ∧
  length (shifted_in false (fastShiftOut bench_wiring 6 bench_ports).2) = 4%nat.
Proof.
  assert (wiring_ok bench_wiring) as Hw
    by (split; [simpl; lia|split; [simpl; lia|right; reflexivity]]).
  assert (0 ≤ step_line_num bench_wiring ≤ 8) as Hn by (simpl; lia).
  split; [exact Hw|]. split; [exact Hn|].
  destruct (fastShiftOut_bits bench_wiring 6 bench_ports false Hw Hn) as (Hb & Hl & _).
  split; [exact Hb|exact Hl].
Defined.

(** The byte 6 on four lines, on a board whose port registers are all
    ones: bit 0 of the port of the two pins, and the next port, stay as
    they were. *)
Lemma fastShiftOut_keeps_witness :
  step_line_num bench_wiring ≤ 8 ∧
  Z.testbit ((fastShiftOut bench_wiring 6 (λ _, 255)).1 43) 0 = true ∧
  (fastShiftOut bench_wiring 6 (λ _, 255)).1 44 = 255.
Proof.
  assert (step_line_num bench_wiring ≤ 8) as Hn by (simpl; lia).
  split; [exact Hn|].
  destruct (fastShiftOut_keeps bench_wiring 6 (λ _, 255) Hn) as (Hb & He & _).
  split.
  - apply (Hb 43 0); [right; reflexivity|right; reflexivity|lia].
  - apply (He 44); simpl; lia.
Defined.

(** The bytes 6 and 9 on four lines each. *)
Lemma shift_out_bytes_bits_witness :
  wiring_ok bench_wiring ∧ 0 ≤ step_line_num bench_wiring ≤ 8 ∧
  shifted_in false (shift_out_bytes bench_wiring [6; 9] bench_ports).2
  = [false; true; true; false; true; false; false; true] ∧
  length (shifted_in false (shift_out_bytes bench_wiring [6; 9] bench_ports).2)
  = 8%nat.
Proof.
  assert (wiring_ok bench_wiring) as Hw
    by (split; [simpl; lia|split; [simpl; lia|right; reflexivity]]).
  assert (0 ≤ step_line_num bench_wiring ≤ 8) as Hn by (simpl; lia).
  split; [exact Hw|]. split; [exact Hn|].
  destruct (shift_out_bytes_bits bench_wiring [6; 9] Hw Hn bench_ports false)
    as (Hb & Hl).
  split; [exact Hb|exact Hl].
Defined.

(** The control lines of the bench wiring, from pins that are all low. *)
Lemma control_lines_levels_witness :
  enablePin bench_wiring ≠ 0 ∧ clearPin bench_wiring ≠ 0 ∧
  (disableSteppers bench_wiring).1 = true ∧
  pin_levels (disableSteppers bench_wiring).2 (λ _, false) 6 = true ∧
  pin_levels (enableSteppers bench_wiring).2 (λ _, true) 6 = false ∧
  pin_levels (clearSteppers bench_wiring).2 (λ _, false) 5 = true.
Proof.
  assert (enablePin bench_wiring ≠ 0) as He by (simpl; lia).
  assert (clearPin bench_wiring ≠ 0) as Hc by (simpl; lia).
  split; [exact He|]. split; [exact Hc|].
  destruct (control_lines_levels bench_wiring (λ _, false) He Hc)
    as (_ & Hd & _ & _ & Hdl & _ & Hcl & _).
  destruct (control_lines_levels bench_wiring (λ _, true) He Hc)
    as (_ & _ & _ & Hel & _).
  split; [exact Hd|]. split; [exact Hdl|]. split; [exact Hel|exact Hcl].
Defined.

(** The constructor with the pins 2, 4, 3, 5 and 6, from pins that are all
    high. *)
Lemma wire_all_levels_witness :
  3 ≠ 5 ∧ 3 ≠ 6 ∧ 5 ≠ 6 ∧
  pin_levels (wire_all (λ _, 43) (Z.shiftl 1) 2 4 3 4 5 6).2 (λ _, true) 3 = false ∧
  pin_levels (wire_all (λ _, 43) (Z.shiftl 1) 2 4 3 4 5 6).2 (λ _, true) 5 = true ∧
  pin_levels (wire_all (λ _, 43) (Z.shiftl 1) 2 4 3 4 5 6).2 (λ _, true) 6 = false.
Proof.
  assert (3 ≠ 5) as H1 by lia. assert (3 ≠ 6) as H2 by lia.
  assert (5 ≠ 6) as H3 by lia.
  split; [exact H1|]. split; [exact H2|]. split; [exact H3|].
  destruct (wire_all_levels (λ _, 43) (Z.shiftl 1) 2 4 3 4 5 6 (λ _, true) H1 H2 H3)
    as (Hl & Hc & He & _).
  split; [exact Hl|]. split; [exact Hc|exact He].
Defined.

(** Counter 10 on the half-step table: phase 2, the byte 2. *)
Lemma phase_of_counter_witness :
  0 < bench_mode ∧ Z.of_nat (length bench_cmd_list) = bench_mode ∧
  step_table (bench_driver [10; 3]) !! Z.to_nat 0 = Some 10 ∧
  ∃ b : Z,
    bench_cmd_list !! Z.to_nat (10 mod bench_mode) = Some b ∧
    shift_slot bench_mode bench_cmd_list (bench_driver [10; 3]) 0
    = mkSlot 0 (Some (10 mod bench_mode)) (Some b).
Proof.
  assert (0 < bench_mode) as Hdm by reflexivity.
  assert (Z.of_nat (length bench_cmd_list) = bench_mode) as Hl by reflexivity.
  assert (step_table (bench_driver [10; 3]) !! Z.to_nat 0 = Some 10) as Hc
    by reflexivity.
  split; [exact Hdm|]. split; [exact Hl|]. split; [exact Hc|].
  destruct (phase_of_counter bench_mode bench_cmd_list (bench_driver [10; 3]) 0 10
              Hdm Hl ltac:(lia) Hc ltac:(lia)) as (b & _ & Hb & Hs & _).
  exists b. split; [exact Hb|exact Hs].
Defined.

(** Counter -3 on the half-step table: the index -3. *)
Lemma phase_of_negative_counter_witness :
  0 < bench_mode ∧
  step_table (bench_driver [-3; 0]) !! Z.to_nat 0 = Some (-3) ∧
  phase (shift_slot bench_mode bench_cmd_list (bench_driver [-3; 0]) 0)
  = Some (Z.rem (-3) bench_mode) ∧
  (Z.rem (-3) bench_mode ≠ 0 →
   cmd (shift_slot bench_mode bench_cmd_list (bench_driver [-3; 0]) 0) = None).
Proof.
  assert (0 < bench_mode) as Hdm by reflexivity.
  assert (step_table (bench_driver [-3; 0]) !! Z.to_nat 0 = Some (-3)) as Hc
    by reflexivity.
  split; [exact Hdm|]. split; [exact Hc|].
  destruct (phase_of_negative_counter bench_mode bench_cmd_list
              (bench_driver [-3; 0]) 0 (-3) Hdm ltac:(lia) Hc ltac:(lia))
    as (_ & Hp & Hn & _).
  split; [exact Hp|exact Hn].
Defined.

(** 60 revolutions per minute at 200 steps. *)
Lemma setSpeedRevPerMin_delay_witness :
  0 < nSteps (bench_driver [0; 0; 0]) ∧ 0 < 60 ∧
  ∃ d : Z,
    setSpeedRevPerMin (bench_driver [0; 0; 0]) 60
    = Some (set_step_delay (bench_driver [0; 0; 0]) d) ∧
    0 ≤ d ≤ 60000000 ∧
    nSteps (bench_driver [0; 0; 0]) * 60 * d ≤ 60000000
    < nSteps (bench_driver [0; 0; 0]) * 60 * (d + 1).
Proof.
  assert (0 < nSteps (bench_driver [0; 0; 0])) as Hs by reflexivity.
  assert (0 < 60) as Hn by lia.
  split; [exact Hs|]. split; [exact Hn|].
  exact (setSpeedRevPerMin_delay (bench_driver [0; 0; 0]) 60 Hs Hn).
Defined.

(** 60 and 120 revolutions per minute. *)
Lemma setSpeedRevPerMin_monotone_witness :
  0 < nSteps (bench_driver [0; 0; 0]) ∧ 0 < 60 ≤ 120 ∧
  ∃ d d' : Z,
    setSpeedRevPerMin (bench_driver [0; 0; 0]) 60
    = Some (set_step_delay (bench_driver [0; 0; 0]) d) ∧
    setSpeedRevPerMin (bench_driver [0; 0; 0]) 120
    = Some (set_step_delay (bench_driver [0; 0; 0]) d') ∧
    d' ≤ d.
Proof.
  assert (0 < nSteps (bench_driver [0; 0; 0])) as Hs by reflexivity.
  assert (0 < 60 ≤ 120) as Hn by lia.
  split; [exact Hs|]. split; [exact Hn|].
  exact (setSpeedRevPerMin_monotone (bench_driver [0; 0; 0]) 60 120 Hs Hn).
Defined.

(** [step(2)] on three steppers. *)
Lemma step_effect_witness :
  0 ≤ nSteppers (bench_driver [0; 0; 0]) ≤ 65535 ∧
  ∃ (hs' : Hundred_Steppers) (fr : frame),
    step bench_mode bench_cmd_list bench_clock 20 (bench_driver [0; 0; 0]) 2
    = Some (hs', fr) ∧
    step_table hs' = step_table (bench_driver [0; 0; 0]) ∧
    last_step_time hs' = ulong (bench_clock (stamp fr)) ∧
    slots fr = frame_slots bench_mode bench_cmd_list (bench_driver [0; 0; 0])
                 (frame_length (bench_driver [0; 0; 0]) 2).
Proof.
  assert (0 ≤ nSteppers (bench_driver [0; 0; 0]) ≤ 65535) as HN by (simpl; lia).
  split; [exact HN|].
  destruct (step bench_mode bench_cmd_list bench_clock 20 (bench_driver [0; 0; 0]) 2)
    as [[hs' fr]|] eqn:E; [|vm_compute in E; discriminate E].
  exists hs', fr. split; [reflexivity|].
  destruct (step_effect bench_mode bench_cmd_list bench_clock 20
              (bench_driver [0; 0; 0]) hs' 2 fr HN ltac:(lia) E)
    as (Ht & _ & _ & _ & _ & _ & Hw & _ & Hsl).
  split; [exact Ht|]. split; [exact Hw|exact Hsl].
Defined.

(** The busy-wait of [step(2)] on the bench clock. *)
Lemma step_first_open_witness :
  ∃ (hs' : Hundred_Steppers) (fr : frame),
    step bench_mode bench_cmd_list bench_clock 20 (bench_driver [0; 0; 0]) 2
    = Some (hs', fr) ∧
    ∃ k : nat, stamp fr = S k ∧ gate_open bench_clock (bench_driver [0; 0; 0]) k ∧
      ∀ j : nat, (ticks (bench_driver [0; 0; 0]%Z) ≤ j < k)%nat →
        ¬ gate_open bench_clock (bench_driver [0; 0; 0]) j.
Proof.
  destruct (step bench_mode bench_cmd_list bench_clock 20 (bench_driver [0; 0; 0]) 2)
    as [[hs' fr]|] eqn:E; [|vm_compute in E; discriminate E].
  exists hs', fr. split; [reflexivity|].
  destruct (step_first_open bench_mode bench_cmd_list bench_clock 20
              (bench_driver [0; 0; 0]) hs' 2 fr E) as (k & Hk & _ & Hg & Hfirst).
  exists k. split; [exact Hk|]. split; [exact Hg|exact Hfirst].
Defined.

(** Motor 1 of the driver with 65535 steppers, one step on. *)
Lemma setStepperStep_returns_unless_witness :
  clock_ok bench_clock (step_delay bench_largest) ∧ storage_ok bench_largest ∧
  nSteppers bench_largest ≤ 65535 ∧
  (nSteppers bench_largest = 65535 → 1 ≠ 0 ∨ 1 = 0) ∧
  ∃ (hs' : Hundred_Steppers) (frs : list frame),
    returns (λ fuel, setStepperStep bench_mode bench_cmd_list bench_clock fuel
                       bench_largest 1 1) (hs', frs) ∧
    nSteppers hs' = nSteppers bench_largest ∧
    Z.of_nat (length frs) = Z.abs 1.
Proof.
  assert (clock_ok bench_clock (step_delay bench_largest)) as Hck
    by (split; intros k; [|exists (S k)]; unfold bench_clock; simpl; lia).
  assert (storage_ok bench_largest) as Hst
    by (unfold storage_ok, bench_largest; cbn [step_table nSteppers];
        rewrite length_replicate; lia).
  assert (nSteppers bench_largest ≤ 65535) as HN by (simpl; lia).
  assert (nSteppers bench_largest = 65535 → 1 ≠ 0 ∨ 1 = 0) as Hnot
    by (intros _; left; lia).
  split; [exact Hck|]. split; [exact Hst|]. split; [exact HN|].
  split; [exact Hnot|].
  destruct (setStepperStep_returns_unless bench_mode bench_cmd_list bench_clock
              bench_largest 1 1 Hck Hst HN ltac:(lia) Hnot)
    as (hs' & frs & Hr & HN' & Hin & _).
  exists hs', frs. split; [exact Hr|]. split; [exact HN'|].
  destruct (Hin ltac:(simpl; lia)) as [_ Hl]. exact Hl.
Defined.

(** Motor 1 of three, two steps back. *)
Lemma setStepperStep_run_witness :
  clock_ok bench_clock (step_delay (bench_driver [0; 0; 0])) ∧
  storage_ok (bench_driver [0; 0; 0]) ∧
  0 ≤ 1 < nSteppers (bench_driver [0; 0; 0]) ∧
  nSteppers (bench_driver [0; 0; 0]) < 65535 ∧
  ∃ (hs' : Hundred_Steppers) (frs : list frame) (c : Z),
    returns (λ fuel, setStepperStep bench_mode bench_cmd_list bench_clock fuel
                       (bench_driver [0; 0; 0]) 1 (-2))
      (hs', frs) ∧
    step_table (bench_driver [0; 0; 0]) !! Z.to_nat 1 = Some c ∧
    step_table hs' = <[Z.to_nat 1 := c + -2]> (step_table (bench_driver [0; 0; 0])) ∧
    Z.of_nat (length frs) = Z.abs (-2) ∧
    nSteppers hs' = nSteppers (bench_driver [0; 0; 0]) ∧ storage_ok hs'.
Proof.
  assert (clock_ok bench_clock (step_delay (bench_driver [0; 0; 0]))) as Hck
    by (split; intros k; [|exists (S k)]; unfold bench_clock; simpl; lia).
  assert (storage_ok (bench_driver [0; 0; 0])) as Hst by reflexivity.
  assert (0 ≤ 1 < nSteppers (bench_driver [0; 0; 0])) as Hn by (simpl; lia).
  assert (nSteppers (bench_driver [0; 0; 0]) < 65535) as HN by (simpl; lia).
  split; [exact Hck|]. split; [exact Hst|]. split; [exact Hn|]. split; [exact HN|].
  exact (setStepperStep_run bench_mode bench_cmd_list bench_clock
           (bench_driver [0; 0; 0]) 1 (-2) Hck Hst Hn HN).
Defined.

(** The frames of a move of motor 1 of three by two steps. *)
Lemma setStepperStep_window_witness :
  0 ≤ 1 < nSteppers (bench_driver [0; 0; 0]) ∧
  nSteppers (bench_driver [0; 0; 0]) ≤ 65535 ∧
  ∃ (hs' : Hundred_Steppers) (frs : list frame),
    setStepperStep bench_mode bench_cmd_list bench_clock 30
      (bench_driver [0; 0; 0]) 1 2 = Some (hs', frs) ∧
    Forall (λ fr, motor <$> slots fr
                  = reverse (seqZ 0 (frame_length (bench_driver [0; 0; 0]) 1 + 1)) ∧
                  1 ∈ motor <$> slots fr) frs.
Proof.
  assert (0 ≤ 1 < nSteppers (bench_driver [0; 0; 0])) as Hn by (simpl; lia).
  assert (nSteppers (bench_driver [0; 0; 0]) ≤ 65535) as HN by (simpl; lia).
  split; [exact Hn|]. split; [exact HN|].
  destruct (setStepperStep bench_mode bench_cmd_list bench_clock 30
              (bench_driver [0; 0; 0]) 1 2) as [[hs' frs]|] eqn:E;
    [|vm_compute in E; discriminate E].
  exists hs', frs. split; [reflexivity|].
  exact (setStepperStep_window bench_mode bench_cmd_list bench_clock 30
           (bench_driver [0; 0; 0]) hs' 1 2 frs Hn HN E).
Defined.

(** Motor 1 of three, three steps on and three steps back. *)
Lemma setStepperStep_adds_witness :
  clock_ok bench_clock (step_delay (bench_driver [0; 0; 0])) ∧
  storage_ok (bench_driver [0; 0; 0]) ∧
  0 ≤ 1 < nSteppers (bench_driver [0; 0; 0]) ∧
  nSteppers (bench_driver [0; 0; 0]) < 65535 ∧
  ∃ (hs1 hs2 : Hundred_Steppers) (frs1 frs2 : list frame),
    returns (λ fuel, setStepperStep bench_mode bench_cmd_list bench_clock fuel
                       (bench_driver [0; 0; 0]) 1 3) (hs1, frs1) ∧
    returns (λ fuel, setStepperStep bench_mode bench_cmd_list bench_clock fuel
                       hs1 1 (-3)) (hs2, frs2) ∧
    step_table hs2 = step_table (bench_driver [0; 0; 0]).
Proof.
  assert (clock_ok bench_clock (step_delay (bench_driver [0; 0; 0]))) as Hck
    by (split; intros k; [|exists (S k)]; unfold bench_clock; simpl; lia).
  assert (storage_ok (bench_driver [0; 0; 0])) as Hst by reflexivity.
  assert (0 ≤ 1 < nSteppers (bench_driver [0; 0; 0])) as Hn by (simpl; lia).
  assert (nSteppers (bench_driver [0; 0; 0]) < 65535) as HN by (simpl; lia).
  split; [exact Hck|]. split; [exact Hst|]. split; [exact Hn|]. split; [exact HN|].
  destruct (setStepperStep_adds bench_mode bench_cmd_list bench_clock
              (bench_driver [0; 0; 0]) 1 3 (-3) Hck Hst Hn HN)
    as (hs1 & hs2 & hs3 & frs1 & frs2 & frs3 & Hr1 & Hr2 & _ & _ & Hback).
  exists hs1, hs2, frs1, frs2. split; [exact Hr1|]. split; [exact Hr2|].
  exact (Hback eq_refl).
Defined.

(** The deltas [2; -1; 0] on three steppers. *)
Lemma setStepperStep_list_lockstep_witness :
  clock_ok bench_clock (step_delay (bench_driver [0; 0; 0])) ∧
  Z.of_nat (length [2; -1; 0]) ≤ nSteppers (bench_driver [0; 0; 0]) ∧
  nSteppers (bench_driver [0; 0; 0]) < 65535 ∧
  ∃ (hs' : Hundred_Steppers) (D' : list Z) (frs : list frame),
    returns (λ fuel, setStepperStep_list bench_mode bench_cmd_list bench_clock
                       fuel (bench_driver [0; 0; 0]) [2; -1; 0])
      (hs', D', frs) ∧
    ∀ (i : nat) (d : Z), [2; -1; 0] !! i = Some d →
      ∃ d' : Z, D' !! i = Some d' ∧
        Z.abs d' = Z.max (Z.abs d - Z.of_nat (length frs)) 0 ∧
        (0 ≤ d' ≤ d ∨ d ≤ d' ≤ 0).
Proof.
  assert (clock_ok bench_clock (step_delay (bench_driver [0; 0; 0]))) as Hck
    by (split; intros k; [|exists (S k)]; unfold bench_clock; simpl; lia).
  assert (Z.of_nat (length [2; -1; 0]) ≤ nSteppers (bench_driver [0; 0; 0]))
    as Hlen by (simpl; lia).
  assert (nSteppers (bench_driver [0; 0; 0]) < 65535) as HN by (simpl; lia).
  split; [exact Hck|]. split; [exact Hlen|]. split; [exact HN|].
  exact (setStepperStep_list_lockstep bench_mode bench_cmd_list bench_clock
           (bench_driver [0; 0; 0]) [2; -1; 0] Hck Hlen HN).
Defined.

(** The frames of the deltas [2; -1; 0] on three steppers. *)
Lemma setStepperStep_list_covers_witness :
  Z.of_nat (length [2; -1; 0]) ≤ nSteppers (bench_driver [0; 0; 0]) ∧
  nSteppers (bench_driver [0; 0; 0]) ≤ 65535 ∧
  ∃ (hs' : Hundred_Steppers) (D' : list Z) (frs : list frame),
    setStepperStep_list bench_mode bench_cmd_list bench_clock 40
      (bench_driver [0; 0; 0]) [2; -1; 0] = Some (hs', D', frs) ∧
    ∀ (k : nat) (fr : frame) (i : nat) (d : Z),
      frs !! k = Some fr → [2; -1; 0] !! i = Some d → Z.of_nat k < Z.abs d →
      Z.of_nat i ∈ motor <$> slots fr.
Proof.
  assert (Z.of_nat (length [2; -1; 0]) ≤ nSteppers (bench_driver [0; 0; 0]))
    as Hlen by (simpl; lia).
  assert (nSteppers (bench_driver [0; 0; 0]) ≤ 65535) as HN by (simpl; lia).
  split; [exact Hlen|]. split; [exact HN|].
  destruct (setStepperStep_list bench_mode bench_cmd_list bench_clock 40
              (bench_driver [0; 0; 0]) [2; -1; 0]) as [[[hs' D'] frs]|] eqn:E;
    [|vm_compute in E; discriminate E].
  exists hs', D', frs. split; [reflexivity|].
  exact (setStepperStep_list_covers bench_mode bench_cmd_list bench_clock 40
           (bench_driver [0; 0; 0]) hs' [2; -1; 0] D' frs Hlen HN E).
Defined.

(** The deltas [2; -2; 1] on three steppers: no delta idles before the
    last pass of the largest. *)
Lemma setStepperStep_list_completes_witness :
  clock_ok bench_clock (step_delay (bench_driver [0; 0; 0])) ∧
  storage_ok (bench_driver [0; 0; 0]) ∧
  Z.of_nat (length [2; -2; 1]) ≤ nSteppers (bench_driver [0; 0; 0]) ∧
  nSteppers (bench_driver [0; 0; 0]) < 65535 ∧
  idle_passes (max_abs [2; -2; 1] - 1) [2; -2; 1] < Z.of_nat (length [2; -2; 1]) ∧
  ∃ (hs' : Hundred_Steppers) (D' : list Z) (frs : list frame),
    returns (λ fuel, setStepperStep_list bench_mode bench_cmd_list bench_clock
                       fuel (bench_driver [0; 0; 0]) [2; -2; 1])
      (hs', D', frs) ∧
    D' = replicate (length [2; -2; 1]) 0 ∧
    (∀ (i : nat) (d c : Z), [2; -2; 1] !! i = Some d →
       step_table (bench_driver [0; 0; 0]) !! i = Some c →
       step_table hs' !! i = Some (c + d)).
Proof.
  assert (clock_ok bench_clock (step_delay (bench_driver [0; 0; 0]))) as Hck
    by (split; intros k; [|exists (S k)]; unfold bench_clock; simpl; lia).
  assert (storage_ok (bench_driver [0; 0; 0])) as Hst by reflexivity.
  assert (Z.of_nat (length [2; -2; 1]) ≤ nSteppers (bench_driver [0; 0; 0]))
    as Hlen by (simpl; lia).
  assert (nSteppers (bench_driver [0; 0; 0]) < 65535) as HN by (simpl; lia).
  assert (idle_passes (max_abs [2; -2; 1] - 1) [2; -2; 1]
          < Z.of_nat (length [2; -2; 1])) as Hidle by reflexivity.
  split; [exact Hck|]. split; [exact Hst|]. split; [exact Hlen|].
  split; [exact HN|]. split; [exact Hidle|].
  destruct (setStepperStep_list_completes bench_mode bench_cmd_list bench_clock
              (bench_driver [0; 0; 0]) [2; -2; 1] Hck Hst Hlen HN Hidle)
    as (hs' & D' & frs & Hr & HD & Ht & _).
  exists hs', D', frs. split; [exact Hr|]. split; [exact HD|exact Ht].
Defined.

(** Five deltas for three steppers. *)
Lemma setStepperStep_list_long_witness :
  Z.of_nat (length [1; 0; 0]) = nSteppers (bench_driver [0; 0; 0]) ∧
  Z.of_nat (length ([1; 0; 0] ++ [5; 5])) < 65536 ∧
  setStepperStep_list bench_mode bench_cmd_list bench_clock 40
    (bench_driver [0; 0; 0]) ([1; 0; 0] ++ [5; 5])
  = result_with_rest [5; 5]
      <$> setStepperStep_list bench_mode bench_cmd_list bench_clock 40
            (bench_driver [0; 0; 0]) [1; 0; 0].
Proof.
  assert (Z.of_nat (length [1; 0; 0]) = nSteppers (bench_driver [0; 0; 0]))
    as HN by reflexivity.
  assert (Z.of_nat (length ([1; 0; 0] ++ [5; 5])) < 65536) as Hlen by reflexivity.
  split; [exact HN|]. split; [exact Hlen|].
  exact (setStepperStep_list_long bench_mode bench_cmd_list bench_clock 40
           (bench_driver [0; 0; 0]) [1; 0; 0] [5; 5] HN Hlen).
Defined.

(** [home] from the counters [3; 0; 0], beside the list move of the same
    values. *)
Lemma home_as_list_move_witness :
  storage_ok (bench_driver [3; 0; 0]) ∧ nSteppers (bench_driver [3; 0; 0]) ≤ 65535 ∧
  ∃ (hs' hsL : Hundred_Steppers) (D' : list Z) (frs frsL : list frame),
    home bench_mode bench_cmd_list bench_clock 40 (bench_driver [3; 0; 0])
    = Some (hs', frs) ∧
    setStepperStep_list bench_mode bench_cmd_list bench_clock 40
      (bench_driver [3; 0; 0]) [3; 0; 0] = Some (hsL, D', frsL) ∧
    step_table hs' = D' ∧ Forall2 same_window frs frsL.
Proof.
  assert (storage_ok (bench_driver [3; 0; 0])) as Hst by reflexivity.
  assert (nSteppers (bench_driver [3; 0; 0]) ≤ 65535) as HN by (simpl; lia).
  split; [exact Hst|]. split; [exact HN|].
  pose proof (home_as_list_move bench_mode bench_cmd_list bench_clock 40
                (bench_driver [3; 0; 0]) Hst HN) as H.
  change (step_table (bench_driver [3; 0; 0])) with [3; 0; 0] in H.
  destruct (home bench_mode bench_cmd_list bench_clock 40 (bench_driver [3; 0; 0]))
    as [[hs' frs]|] eqn:E; [|vm_compute in E; discriminate E].
  destruct (setStepperStep_list bench_mode bench_cmd_list bench_clock 40
              (bench_driver [3; 0; 0]) [3; 0; 0]) as [[[hsL D'] frsL]|];
    [|destruct H].
  destruct H as (Ht & _ & Hw).
  exists hs', hsL, D', frs, frsL.
  split; [reflexivity|]. split; [reflexivity|]. split; [exact Ht|exact Hw].
Defined.

(** [home] from the counters [3; -1; 0]. *)
Lemma home_lockstep_witness :
  clock_ok bench_clock (step_delay (bench_driver [3; -1; 0])) ∧
  storage_ok (bench_driver [3; -1; 0]) ∧
  nSteppers (bench_driver [3; -1; 0]) < 65535 ∧
  ∃ (hs' : Hundred_Steppers) (frs : list frame),
    returns (λ fuel, home bench_mode bench_cmd_list bench_clock fuel
                       (bench_driver [3; -1; 0])) (hs', frs) ∧
    nSteppers hs' = nSteppers (bench_driver [3; -1; 0]) ∧ storage_ok hs' ∧
    ∀ (i : nat) (c : Z), step_table (bench_driver [3; -1; 0]) !! i = Some c →
      ∃ c' : Z, step_table hs' !! i = Some c' ∧
        Z.abs c' = Z.max (Z.abs c - Z.of_nat (length frs)) 0 ∧
        (0 ≤ c' ≤ c ∨ c ≤ c' ≤ 0).
Proof.
  assert (clock_ok bench_clock (step_delay (bench_driver [3; -1; 0]))) as Hck
    by (split; intros k; [|exists (S k)]; unfold bench_clock; simpl; lia).
  assert (storage_ok (bench_driver [3; -1; 0])) as Hst by reflexivity.
  assert (nSteppers (bench_driver [3; -1; 0]) < 65535) as HN by (simpl; lia).
  split; [exact Hck|]. split; [exact Hst|]. split; [exact HN|].
  exact (home_lockstep bench_mode bench_cmd_list bench_clock
           (bench_driver [3; -1; 0]) Hck Hst HN).
Defined.

(** [home] from the counters [2; -2; 1]. *)
Lemma home_completes_witness :
  clock_ok bench_clock (step_delay (bench_driver [2; -2; 1])) ∧
  storage_ok (bench_driver [2; -2; 1]) ∧
  nSteppers (bench_driver [2; -2; 1]) < 65535 ∧
  idle_passes (max_abs (step_table (bench_driver [2; -2; 1])) - 1)
    (step_table (bench_driver [2; -2; 1])) < nSteppers (bench_driver [2; -2; 1]) ∧
  ∃ (hs' : Hundred_Steppers) (frs : list frame),
    returns (λ fuel, home bench_mode bench_cmd_list bench_clock fuel
                       (bench_driver [2; -2; 1])) (hs', frs) ∧
    step_table hs' = [0; 0; 0] ∧ 2 ≤ Z.of_nat (length frs).
Proof.
  assert (clock_ok bench_clock (step_delay (bench_driver [2; -2; 1]))) as Hck
    by (split; intros k; [|exists (S k)]; unfold bench_clock; simpl; lia).
  assert (storage_ok (bench_driver [2; -2; 1])) as Hst by reflexivity.
  assert (nSteppers (bench_driver [2; -2; 1]) < 65535) as HN by (simpl; lia).
  assert (idle_passes (max_abs (step_table (bench_driver [2; -2; 1])) - 1)
            (step_table (bench_driver [2; -2; 1]))
          < nSteppers (bench_driver [2; -2; 1])) as Hidle by reflexivity.
  split; [exact Hck|]. split; [exact Hst|]. split; [exact HN|].
  split; [exact Hidle|].
  destruct (home_completes bench_mode bench_cmd_list bench_clock
              (bench_driver [2; -2; 1]) Hck Hst HN Hidle)
    as (hs' & frs & Hr & Ht & Hf).
  exists hs', frs. split; [exact Hr|]. split; [exact Ht|exact Hf].
Defined.

(** [home] on three steppers at rest. *)
Lemma home_at_rest_witness :
  clock_ok bench_clock (step_delay (bench_driver [0; 0; 0])) ∧
  storage_ok (bench_driver [0; 0; 0]) ∧
  0 < nSteppers (bench_driver [0; 0; 0]) < 65535 ∧
  Forall (λ c, c = 0) (step_table (bench_driver [0; 0; 0])) ∧
  ∃ (hs' : Hundred_Steppers) (fr : frame),
    returns (λ fuel, home bench_mode bench_cmd_list bench_clock fuel
                       (bench_driver [0; 0; 0])) (hs', [fr]) ∧
    step_table hs' = step_table (bench_driver [0; 0; 0]) ∧
    motor <$> slots fr = [3; 2; 1; 0].
Proof.
  assert (clock_ok bench_clock (step_delay (bench_driver [0; 0; 0]))) as Hck
    by (split; intros k; [|exists (S k)]; unfold bench_clock; simpl; lia).
  assert (storage_ok (bench_driver [0; 0; 0])) as Hst by reflexivity.
  assert (0 < nSteppers (bench_driver [0; 0; 0]) < 65535) as HN by (simpl; lia).
  assert (Forall (λ c, c = 0) (step_table (bench_driver [0; 0; 0]))) as Hall
    by (repeat constructor).
  split; [exact Hck|]. split; [exact Hst|]. split; [exact HN|].
  split; [exact Hall|].
  destruct (home_at_rest bench_mode bench_cmd_list bench_clock
              (bench_driver [0; 0; 0]) Hck Hst HN Hall)
    as (hs' & fr & Hr & Ht & Hm & _).
  exists hs', fr. split; [exact Hr|]. split; [exact Ht|exact Hm].
Defined.

(** The frames of [home] from the counters [3; -1; 0]. *)
Lemma home_covers_witness :
  storage_ok (bench_driver [3; -1; 0]) ∧
  nSteppers (bench_driver [3; -1; 0]) ≤ 65535 ∧
  ∃ (hs' : Hundred_Steppers) (frs : list frame),
    home bench_mode bench_cmd_list bench_clock 40 (bench_driver [3; -1; 0])
    = Some (hs', frs) ∧
    ∀ (k : nat) (fr : frame) (i : nat) (c : Z),
      frs !! k = Some fr → step_table (bench_driver [3; -1; 0]) !! i = Some c →
      Z.of_nat k < Z.abs c → Z.of_nat i ∈ motor <$> slots fr.
Proof.
  assert (storage_ok (bench_driver [3; -1; 0])) as Hst by reflexivity.
  assert (nSteppers (bench_driver [3; -1; 0]) ≤ 65535) as HN by (simpl; lia).
  split; [exact Hst|]. split; [exact HN|].
  destruct (home bench_mode bench_cmd_list bench_clock 40 (bench_driver [3; -1; 0]))
    as [[hs' frs]|] eqn:E; [|vm_compute in E; discriminate E].
  exists hs', frs. split; [reflexivity|].
  exact (home_covers bench_mode bench_cmd_list bench_clock 40
           (bench_driver [3; -1; 0]) hs' frs Hst HN E).
Defined.

(** The driver after [home] from the counters [3; -1; 0]. *)
Lemma motion_keeps_configuration_witness :
  ∃ (hs' : Hundred_Steppers) (frs : list frame),
    moved bench_mode bench_cmd_list bench_clock 40 (bench_driver [3; -1; 0]) hs' frs ∧
    nSteppers hs' = 3 ∧ nSteps hs' = 200 ∧ step_delay hs' = 5000 ∧
    length (step_table hs') = 3%nat.
Proof.
  destruct (home bench_mode bench_cmd_list bench_clock 40 (bench_driver [3; -1; 0]))
    as [[hs' frs]|] eqn:E; [|vm_compute in E; discriminate E].
  assert (moved bench_mode bench_cmd_list bench_clock 40
            (bench_driver [3; -1; 0]) hs' frs) as Hm by (right; right; exact E).
  exists hs', frs. split; [exact Hm|].
  destruct (motion_keeps_configuration bench_mode bench_cmd_list bench_clock 40
              (bench_driver [3; -1; 0]) hs' frs Hm) as (HN & HS & HD & HL & _).
  split; [exact HN|]. split; [exact HS|]. split; [exact HD|exact HL].
Defined.

(** The frames of the deltas [2; -1; 0] on the bench clock. *)
Lemma motion_spacing_witness :
  clock_monotone bench_clock ∧
  watermark bench_clock (bench_driver [0; 0; 0]) 0 ∧
  ∃ (hs' : Hundred_Steppers) (D' : list Z) (frs : list frame),
    setStepperStep_list bench_mode bench_cmd_list bench_clock 40
      (bench_driver [0; 0; 0]) [2; -1; 0] = Some (hs', D', frs) ∧
    spaced bench_clock (step_delay (bench_driver [0; 0; 0])) 0 frs ∧
    watermark bench_clock hs' (last_stamp 0 frs).
Proof.
  assert (clock_monotone bench_clock) as Hm
    by (intros k; unfold bench_clock; lia).
  assert (watermark bench_clock (bench_driver [0; 0; 0]) 0) as Hw
    by (split; [simpl; lia|reflexivity]).
  split; [exact Hm|]. split; [exact Hw|].
  destruct (setStepperStep_list bench_mode bench_cmd_list bench_clock 40
              (bench_driver [0; 0; 0]) [2; -1; 0]) as [[[hs' D'] frs]|] eqn:E;
    [|vm_compute in E; discriminate E].
  exists hs', D', frs. split; [reflexivity|].
  destruct (motion_spacing bench_mode bench_cmd_list bench_clock 40
              (bench_driver [0; 0; 0]) hs' frs 0 Hm Hw)
    as (Hsp & Hw' & _).
  { right; left. exists [2; -1; 0], D'. exact E. }
  split; [exact Hsp|exact Hw'].
Defined.

(** A driver for three steppers of 200 steps, built at the first reading
    of the bench clock. *)
Lemma constructor_spec_witness :
  0 < 3 ∧ 0 < 200 ∧
  (∃ hs : Hundred_Steppers,
     Hundred_Steppers_new bench_clock true 0 3 200 = Some hs ∧
     getStepperNum hs = 3 ∧ storage_ok hs ∧ step_table hs = [0; 0; 0] ∧
     200 * step_delay hs ≤ 1000000 < 200 * (step_delay hs + 1)) ∧
  (∃ hs : Hundred_Steppers,
     Hundred_Steppers_new bench_clock false 0 3 200 = Some hs ∧
     getStepperNum hs = 3 ∧ step_table hs = []).
Proof.
  assert (0 < 3) as Hn by lia. assert (0 < 200) as Hs by lia.
  split; [exact Hn|]. split; [exact Hs|].
  destruct (constructor_spec bench_clock 0 3 200 Hn Hs)
    as [(hs & Hnew & HN & _ & Hst & Ht & _ & Hd) (hs0 & Hnew0 & HN0 & Ht0 & _)].
  split.
  - exists hs. split; [exact Hnew|]. split; [exact HN|]. split; [exact Hst|].
    split; [exact Ht|exact Hd].
  - exists hs0. split; [exact Hnew0|]. split; [exact HN0|exact Ht0].
Defined.

(** The frame of [step(2)] for the counters [10; 3; 7] on the bench
    wiring. *)
Lemma frame_on_the_wire_witness :
  0 < bench_mode ∧ Z.of_nat (length bench_cmd_list) = bench_mode ∧
  storage_ok (bench_driver [10; 3; 7]) ∧ 0 < 2 < nSteppers (bench_driver [10; 3; 7]) ∧
  Forall (λ c, 0 ≤ c) (step_table (bench_driver [10; 3; 7])) ∧
  wiring_ok bench_wiring ∧ 0 ≤ step_line_num bench_wiring ≤ 8 ∧
  ∃ (hs' : Hundred_Steppers) (fr : frame) (bytes : list Z),
    step bench_mode bench_cmd_list bench_clock 20 (bench_driver [10; 3; 7]) 2
    = Some (hs', fr) ∧
    frame_bytes fr = Some bytes ∧ Z.of_nat (length bytes) = 2 + 1 ∧
    shifted_in false (shift_out_bytes bench_wiring bytes bench_ports).2
    = concat ((λ b, Z.testbit b <$> seqZ 0 (step_line_num bench_wiring)) <$> bytes).
Proof.
  assert (0 < bench_mode) as Hdm by reflexivity.
  assert (Z.of_nat (length bench_cmd_list) = bench_mode) as Hcl by reflexivity.
  assert (storage_ok (bench_driver [10; 3; 7])) as Hst by reflexivity.
  assert (nSteppers (bench_driver [10; 3; 7]) ≤ 65535) as HN by (simpl; lia).
  assert (0 < 2 < nSteppers (bench_driver [10; 3; 7])) as Hlen by (simpl; lia).
  assert (Forall (λ c, 0 ≤ c) (step_table (bench_driver [10; 3; 7]))) as Hpos
    by (repeat constructor; lia).
  assert (wiring_ok bench_wiring) as Hw
    by (split; [simpl; lia|split; [simpl; lia|right; reflexivity]]).
  assert (0 ≤ step_line_num bench_wiring ≤ 8) as Hn by (simpl; lia).
  split; [exact Hdm|]. split; [exact Hcl|]. split; [exact Hst|].
  split; [exact Hlen|]. split; [exact Hpos|]. split; [exact Hw|].
  split; [exact Hn|].
  destruct (step bench_mode bench_cmd_list bench_clock 20 (bench_driver [10; 3; 7]) 2)
    as [[hs' fr]|] eqn:E; [|vm_compute in E; discriminate E].
  destruct (frame_on_the_wire bench_mode bench_cmd_list bench_clock 20
              (bench_driver [10; 3; 7]) hs' 2 fr bench_wiring bench_ports false
              Hdm Hcl Hst HN Hlen Hpos Hw Hn E)
    as (bytes & Hb & Hl & _ & Hs).
  exists hs', fr, bytes. split; [reflexivity|]. split; [exact Hb|].
  split; [exact Hl|exact Hs].
Defined.
